(** * seeknode: the RSS monitor (src/monitor.ts)

    A shallow embedding of the monitor's pipeline: the feed parser
    ([parseRSSXML]), the keyword matcher ([matchKeywords]), the post store
    ([savePostsToDatabase], [getUnpushedPosts], [markPostAsPushed]), the
    fan-out step ([createPushLogs]), the dispatcher ([pushTask]) and the two
    operations built from them.

    Conventions.
    - A JavaScript string is a [string] holding its UTF-8 bytes.  Searching
      for a substring gives the same answer on bytes as on characters.  Case
      mapping and trimming decode the bytes and work on the characters, with
      the case tables of Unicode 14.0.
    - A number of the program is an integer that is a double, [NaN] or an
      infinity ([Js.number]); in the store it is a [Z], and a value that may
      be NULL is an [option].  [NaN] and the infinities are bound as NULL.
    - An [async] function is a function on the state it can touch that
      returns a completion (a value or a thrown error) and the new state. *)

From Stdlib Require Import String Ascii List ZArith Lia Bool Arith Permutation.
From Stdlib Require Import Sorted.
From Stdlib Require Import Decimal DecimalString DecimalNat DecimalZ DecimalPos.
Import ListNotations.
Open Scope string_scope.

(** ** Strings *)

Module Js.

(** [s.substring(n)] *)
Fixpoint drop (n : nat) (s : string) : string :=
  match n, s with
  | O, _ => s
  | S _, EmptyString => EmptyString
  | S k, String _ s' => drop k s'
  end.

(** [s.startsWith(p)] *)
Fixpoint startsWith (s p : string) {struct p} : bool :=
  match p, s with
  | EmptyString, _ => true
  | String _ _, EmptyString => false
  | String a p', String b s' => if Ascii.eqb a b then startsWith s' p' else false
  end.

(** [s.includes(t)] *)
Fixpoint includes (s t : string) : bool :=
  if startsWith s t then true
  else match s with
       | EmptyString => false
       | String _ s' => includes s' t
       end.

Definition between (lo hi : nat) (c : ascii) : bool :=
  let n := nat_of_ascii c in (lo <=? n)%nat && (n <=? hi)%nat.

(** *** Characters

    A string holds UTF-8 bytes; case mapping and trimming work on the
    characters (code points) the bytes encode. *)

Definition byte (c : ascii) : Z := Z.of_nat (nat_of_ascii c).

(** A continuation byte, [10xxxxxx]. *)
Definition continues (c : ascii) : bool :=
  (128 <=? byte c)%Z && (byte c <=? 191)%Z.

(** The character of a well-formed sequence of two, three or four bytes at
    the head of [s]: no overlong form, no surrogate, nothing above
    U+10FFFF. *)
Definition two (s : string) : option Z :=
  match s with
  | String c0 (String c1 _) =>
      if (194 <=? byte c0)%Z && (byte c0 <=? 223)%Z && continues c1
      then Some ((byte c0 - 192) * 64 + (byte c1 - 128))%Z
      else None
  | _ => None
  end.

Definition three (s : string) : option Z :=
  match s with
  | String c0 (String c1 (String c2 _)) =>
      let cp := ((byte c0 - 224) * 4096 + (byte c1 - 128) * 64
                 + (byte c2 - 128))%Z in
      if (224 <=? byte c0)%Z && (byte c0 <=? 239)%Z
         && continues c1 && continues c2
         && (2048 <=? cp)%Z && negb ((55296 <=? cp)%Z && (cp <=? 57343)%Z)
      then Some cp else None
  | _ => None
  end.

Definition four (s : string) : option Z :=
  match s with
  | String c0 (String c1 (String c2 (String c3 _))) =>
      let cp := ((byte c0 - 240) * 262144 + (byte c1 - 128) * 4096
                 + (byte c2 - 128) * 64 + (byte c3 - 128))%Z in
      if (240 <=? byte c0)%Z && (byte c0 <=? 244)%Z
         && continues c1 && continues c2 && continues c3
         && (65536 <=? cp)%Z && (cp <=? 1114111)%Z
      then Some cp else None
  | _ => None
  end.

(** The character at the head of [s] and the number of bytes it takes.  A
    byte that starts no well-formed sequence stands for itself, as
    0x110000 plus the byte: no string of the program holds one, and the
    functions below keep it as it is. *)
Definition decode1 (s : string) : Z * nat :=
  match s with
  | EmptyString => (0%Z, O)
  | String c0 _ =>
      if (byte c0 <? 128)%Z then (byte c0, 1%nat)
      else match two s, three s, four s with
           | Some cp, _, _ => (cp, 2%nat)
           | None, Some cp, _ => (cp, 3%nat)
           | None, None, Some cp => (cp, 4%nat)
           | None, None, None => ((1114112 + byte c0)%Z, 1%nat)
           end
  end.

(** The characters of [s], once the next [skip] bytes, which belong to the
    character before, are passed. *)
Fixpoint decodeFrom (skip : nat) (s : string) : list Z :=
  match s with
  | EmptyString => []
  | String _ r =>
      match skip with
      | S k => decodeFrom k r
      | O => fst (decode1 s) :: decodeFrom (snd (decode1 s) - 1) r
      end
  end.

Definition decode (s : string) : list Z := decodeFrom 0 s.

Definition ofByte (b : Z) : ascii := ascii_of_nat (Z.to_nat b).

Definition encode1 (cp : Z) : string :=
  if (cp <? 128)%Z then String (ofByte cp) EmptyString
  else if (cp <? 2048)%Z then
    String (ofByte (192 + cp / 64))
      (String (ofByte (128 + cp mod 64)) EmptyString)
  else if (cp <? 65536)%Z then
    String (ofByte (224 + cp / 4096))
      (String (ofByte (128 + (cp / 64) mod 64))
         (String (ofByte (128 + cp mod 64)) EmptyString))
  else if (cp <? 1114112)%Z then
    String (ofByte (240 + cp / 262144))
      (String (ofByte (128 + (cp / 4096) mod 64))
         (String (ofByte (128 + (cp / 64) mod 64))
            (String (ofByte (128 + cp mod 64)) EmptyString)))
  else String (ofByte (cp - 1114112)) EmptyString.

Fixpoint encode (l : list Z) : string :=
  match l with
  | [] => EmptyString
  | cp :: r => encode1 cp ++ encode r
  end.

(** *** Unicode case data

    The tables of the Unicode Character Database, version 14.0, that
    [toLowerCase] reads, as ranges of code points. *)

(** The simple lowercase mappings: [(first, last, step, delta)] maps
    [first], [first + step], ... up to [last] to themselves plus [delta].
    U+0130 has a mapping of its own (two characters). *)
Definition lowerRanges : list (Z * Z * Z * Z) :=
  [
    (65, 90, 1, 32); (192, 214, 1, 32); (216, 222, 1, 32); (256, 302, 2, 1);
    (306, 310, 2, 1); (313, 327, 2, 1); (330, 374, 2, 1); (376, 376, 1, -121);
    (377, 381, 2, 1); (385, 385, 1, 210); (386, 388, 2, 1);
    (390, 390, 1, 206); (391, 391, 1, 1); (393, 394, 1, 205);
    (395, 395, 1, 1); (398, 398, 1, 79); (399, 399, 1, 202);
    (400, 400, 1, 203); (401, 401, 1, 1); (403, 403, 1, 205);
    (404, 404, 1, 207); (406, 406, 1, 211); (407, 407, 1, 209);
    (408, 408, 1, 1); (412, 412, 1, 211); (413, 413, 1, 213);
    (415, 415, 1, 214); (416, 420, 2, 1); (422, 422, 1, 218);
    (423, 423, 1, 1); (425, 425, 1, 218); (428, 428, 1, 1);
    (430, 430, 1, 218); (431, 431, 1, 1); (433, 434, 1, 217);
    (435, 437, 2, 1); (439, 439, 1, 219); (440, 440, 1, 1); (444, 444, 1, 1);
    (452, 452, 1, 2); (453, 453, 1, 1); (455, 455, 1, 2); (456, 456, 1, 1);
    (458, 458, 1, 2); (459, 475, 2, 1); (478, 494, 2, 1); (497, 497, 1, 2);
    (498, 500, 2, 1); (502, 502, 1, -97); (503, 503, 1, -56);
    (504, 542, 2, 1); (544, 544, 1, -130); (546, 562, 2, 1);
    (570, 570, 1, 10795); (571, 571, 1, 1); (573, 573, 1, -163);
    (574, 574, 1, 10792); (577, 577, 1, 1); (579, 579, 1, -195);
    (580, 580, 1, 69); (581, 581, 1, 71); (582, 590, 2, 1); (880, 882, 2, 1);
    (886, 886, 1, 1); (895, 895, 1, 116); (902, 902, 1, 38);
    (904, 906, 1, 37); (908, 908, 1, 64); (910, 911, 1, 63);
    (913, 929, 1, 32); (931, 939, 1, 32); (975, 975, 1, 8); (984, 1006, 2, 1);
    (1012, 1012, 1, -60); (1015, 1015, 1, 1); (1017, 1017, 1, -7);
    (1018, 1018, 1, 1); (1021, 1023, 1, -130); (1024, 1039, 1, 80);
    (1040, 1071, 1, 32); (1120, 1152, 2, 1); (1162, 1214, 2, 1);
    (1216, 1216, 1, 15); (1217, 1229, 2, 1); (1232, 1326, 2, 1);
    (1329, 1366, 1, 48); (4256, 4293, 1, 7264); (4295, 4295, 1, 7264);
    (4301, 4301, 1, 7264); (5024, 5103, 1, 38864); (5104, 5109, 1, 8);
    (7312, 7354, 1, -3008); (7357, 7359, 1, -3008); (7680, 7828, 2, 1);
    (7838, 7838, 1, -7615); (7840, 7934, 2, 1); (7944, 7951, 1, -8);
    (7960, 7965, 1, -8); (7976, 7983, 1, -8); (7992, 7999, 1, -8);
    (8008, 8013, 1, -8); (8025, 8031, 2, -8); (8040, 8047, 1, -8);
    (8072, 8079, 1, -8); (8088, 8095, 1, -8); (8104, 8111, 1, -8);
    (8120, 8121, 1, -8); (8122, 8123, 1, -74); (8124, 8124, 1, -9);
    (8136, 8139, 1, -86); (8140, 8140, 1, -9); (8152, 8153, 1, -8);
    (8154, 8155, 1, -100); (8168, 8169, 1, -8); (8170, 8171, 1, -112);
    (8172, 8172, 1, -7); (8184, 8185, 1, -128); (8186, 8187, 1, -126);
    (8188, 8188, 1, -9); (8486, 8486, 1, -7517); (8490, 8490, 1, -8383);
    (8491, 8491, 1, -8262); (8498, 8498, 1, 28); (8544, 8559, 1, 16);
    (8579, 8579, 1, 1); (9398, 9423, 1, 26); (11264, 11311, 1, 48);
    (11360, 11360, 1, 1); (11362, 11362, 1, -10743); (11363, 11363, 1, -3814);
    (11364, 11364, 1, -10727); (11367, 11371, 2, 1);
    (11373, 11373, 1, -10780); (11374, 11374, 1, -10749);
    (11375, 11375, 1, -10783); (11376, 11376, 1, -10782);
    (11378, 11378, 1, 1); (11381, 11381, 1, 1); (11390, 11391, 1, -10815);
    (11392, 11490, 2, 1); (11499, 11501, 2, 1); (11506, 11506, 1, 1);
    (42560, 42604, 2, 1); (42624, 42650, 2, 1); (42786, 42798, 2, 1);
    (42802, 42862, 2, 1); (42873, 42875, 2, 1); (42877, 42877, 1, -35332);
    (42878, 42886, 2, 1); (42891, 42891, 1, 1); (42893, 42893, 1, -42280);
    (42896, 42898, 2, 1); (42902, 42920, 2, 1); (42922, 42922, 1, -42308);
    (42923, 42923, 1, -42319); (42924, 42924, 1, -42315);
    (42925, 42925, 1, -42305); (42926, 42926, 1, -42308);
    (42928, 42928, 1, -42258); (42929, 42929, 1, -42282);
    (42930, 42930, 1, -42261); (42931, 42931, 1, 928); (42932, 42946, 2, 1);
    (42948, 42948, 1, -48); (42949, 42949, 1, -42307);
    (42950, 42950, 1, -35384); (42951, 42953, 2, 1); (42960, 42960, 1, 1);
    (42966, 42968, 2, 1); (42997, 42997, 1, 1); (65313, 65338, 1, 32);
    (66560, 66599, 1, 40); (66736, 66771, 1, 40); (66928, 66964, 2, 39);
    (66929, 66938, 1, 39); (66941, 66954, 1, 39); (66957, 66962, 1, 39);
    (66965, 66965, 1, 39); (68736, 68786, 1, 64); (71840, 71871, 1, 32);
    (93760, 93791, 1, 32); (125184, 125217, 1, 34)
  ]%Z.

(** The characters with the property Case_Ignorable. *)
Definition caseIgnorableRanges : list (Z * Z) :=
  [
    (39, 39); (46, 46); (58, 58); (94, 94); (96, 96); (168, 168); (173, 173);
    (175, 175); (180, 180); (183, 184); (688, 879); (884, 885); (890, 890);
    (900, 901); (903, 903); (1155, 1161); (1369, 1369); (1375, 1375);
    (1425, 1469); (1471, 1471); (1473, 1474); (1476, 1477); (1479, 1479);
    (1524, 1524); (1536, 1541); (1552, 1562); (1564, 1564); (1600, 1600);
    (1611, 1631); (1648, 1648); (1750, 1757); (1759, 1768); (1770, 1773);
    (1807, 1807); (1809, 1809); (1840, 1866); (1958, 1968); (2027, 2037);
    (2042, 2042); (2045, 2045); (2070, 2093); (2137, 2139); (2184, 2184);
    (2192, 2193); (2200, 2207); (2249, 2306); (2362, 2362); (2364, 2364);
    (2369, 2376); (2381, 2381); (2385, 2391); (2402, 2403); (2417, 2417);
    (2433, 2433); (2492, 2492); (2497, 2500); (2509, 2509); (2530, 2531);
    (2558, 2558); (2561, 2562); (2620, 2620); (2625, 2626); (2631, 2632);
    (2635, 2637); (2641, 2641); (2672, 2673); (2677, 2677); (2689, 2690);
    (2748, 2748); (2753, 2757); (2759, 2760); (2765, 2765); (2786, 2787);
    (2810, 2815); (2817, 2817); (2876, 2876); (2879, 2879); (2881, 2884);
    (2893, 2893); (2901, 2902); (2914, 2915); (2946, 2946); (3008, 3008);
    (3021, 3021); (3072, 3072); (3076, 3076); (3132, 3132); (3134, 3136);
    (3142, 3144); (3146, 3149); (3157, 3158); (3170, 3171); (3201, 3201);
    (3260, 3260); (3263, 3263); (3270, 3270); (3276, 3277); (3298, 3299);
    (3328, 3329); (3387, 3388); (3393, 3396); (3405, 3405); (3426, 3427);
    (3457, 3457); (3530, 3530); (3538, 3540); (3542, 3542); (3633, 3633);
    (3636, 3642); (3654, 3662); (3761, 3761); (3764, 3772); (3782, 3782);
    (3784, 3789); (3864, 3865); (3893, 3893); (3895, 3895); (3897, 3897);
    (3953, 3966); (3968, 3972); (3974, 3975); (3981, 3991); (3993, 4028);
    (4038, 4038); (4141, 4144); (4146, 4151); (4153, 4154); (4157, 4158);
    (4184, 4185); (4190, 4192); (4209, 4212); (4226, 4226); (4229, 4230);
    (4237, 4237); (4253, 4253); (4348, 4348); (4957, 4959); (5906, 5908);
    (5938, 5939); (5970, 5971); (6002, 6003); (6068, 6069); (6071, 6077);
    (6086, 6086); (6089, 6099); (6103, 6103); (6109, 6109); (6155, 6159);
    (6211, 6211); (6277, 6278); (6313, 6313); (6432, 6434); (6439, 6440);
    (6450, 6450); (6457, 6459); (6679, 6680); (6683, 6683); (6742, 6742);
    (6744, 6750); (6752, 6752); (6754, 6754); (6757, 6764); (6771, 6780);
    (6783, 6783); (6823, 6823); (6832, 6862); (6912, 6915); (6964, 6964);
    (6966, 6970); (6972, 6972); (6978, 6978); (7019, 7027); (7040, 7041);
    (7074, 7077); (7080, 7081); (7083, 7085); (7142, 7142); (7144, 7145);
    (7149, 7149); (7151, 7153); (7212, 7219); (7222, 7223); (7288, 7293);
    (7376, 7378); (7380, 7392); (7394, 7400); (7405, 7405); (7412, 7412);
    (7416, 7417); (7468, 7530); (7544, 7544); (7579, 7679); (8125, 8125);
    (8127, 8129); (8141, 8143); (8157, 8159); (8173, 8175); (8189, 8190);
    (8203, 8207); (8216, 8217); (8228, 8228); (8231, 8231); (8234, 8238);
    (8288, 8292); (8294, 8303); (8305, 8305); (8319, 8319); (8336, 8348);
    (8400, 8432); (11388, 11389); (11503, 11505); (11631, 11631);
    (11647, 11647); (11744, 11775); (11823, 11823); (12293, 12293);
    (12330, 12333); (12337, 12341); (12347, 12347); (12441, 12446);
    (12540, 12542); (40981, 40981); (42232, 42237); (42508, 42508);
    (42607, 42610); (42612, 42621); (42623, 42623); (42652, 42655);
    (42736, 42737); (42752, 42785); (42864, 42864); (42888, 42890);
    (42994, 42996); (43000, 43001); (43010, 43010); (43014, 43014);
    (43019, 43019); (43045, 43046); (43052, 43052); (43204, 43205);
    (43232, 43249); (43263, 43263); (43302, 43309); (43335, 43345);
    (43392, 43394); (43443, 43443); (43446, 43449); (43452, 43453);
    (43471, 43471); (43493, 43494); (43561, 43566); (43569, 43570);
    (43573, 43574); (43587, 43587); (43596, 43596); (43632, 43632);
    (43644, 43644); (43696, 43696); (43698, 43700); (43703, 43704);
    (43710, 43711); (43713, 43713); (43741, 43741); (43756, 43757);
    (43763, 43764); (43766, 43766); (43867, 43871); (43881, 43883);
    (44005, 44005); (44008, 44008); (44013, 44013); (64286, 64286);
    (64434, 64450); (65024, 65039); (65043, 65043); (65056, 65071);
    (65106, 65106); (65109, 65109); (65279, 65279); (65287, 65287);
    (65294, 65294); (65306, 65306); (65342, 65342); (65344, 65344);
    (65392, 65392); (65438, 65439); (65507, 65507); (65529, 65531);
    (66045, 66045); (66272, 66272); (66422, 66426); (67456, 67461);
    (67463, 67504); (67506, 67514); (68097, 68099); (68101, 68102);
    (68108, 68111); (68152, 68154); (68159, 68159); (68325, 68326);
    (68900, 68903); (69291, 69292); (69446, 69456); (69506, 69509);
    (69633, 69633); (69688, 69702); (69744, 69744); (69747, 69748);
    (69759, 69761); (69811, 69814); (69817, 69818); (69821, 69821);
    (69826, 69826); (69837, 69837); (69888, 69890); (69927, 69931);
    (69933, 69940); (70003, 70003); (70016, 70017); (70070, 70078);
    (70089, 70092); (70095, 70095); (70191, 70193); (70196, 70196);
    (70198, 70199); (70206, 70206); (70367, 70367); (70371, 70378);
    (70400, 70401); (70459, 70460); (70464, 70464); (70502, 70508);
    (70512, 70516); (70712, 70719); (70722, 70724); (70726, 70726);
    (70750, 70750); (70835, 70840); (70842, 70842); (70847, 70848);
    (70850, 70851); (71090, 71093); (71100, 71101); (71103, 71104);
    (71132, 71133); (71219, 71226); (71229, 71229); (71231, 71232);
    (71339, 71339); (71341, 71341); (71344, 71349); (71351, 71351);
    (71453, 71455); (71458, 71461); (71463, 71467); (71727, 71735);
    (71737, 71738); (71995, 71996); (71998, 71998); (72003, 72003);
    (72148, 72151); (72154, 72155); (72160, 72160); (72193, 72202);
    (72243, 72248); (72251, 72254); (72263, 72263); (72273, 72278);
    (72281, 72283); (72330, 72342); (72344, 72345); (72752, 72758);
    (72760, 72765); (72767, 72767); (72850, 72871); (72874, 72880);
    (72882, 72883); (72885, 72886); (73009, 73014); (73018, 73018);
    (73020, 73021); (73023, 73029); (73031, 73031); (73104, 73105);
    (73109, 73109); (73111, 73111); (73459, 73460); (78896, 78904);
    (92912, 92916); (92976, 92982); (92992, 92995); (94031, 94031);
    (94095, 94111); (94176, 94177); (94179, 94180); (110576, 110579);
    (110581, 110587); (110589, 110590); (113821, 113822); (113824, 113827);
    (118528, 118573); (118576, 118598); (119143, 119145); (119155, 119170);
    (119173, 119179); (119210, 119213); (119362, 119364); (121344, 121398);
    (121403, 121452); (121461, 121461); (121476, 121476); (121499, 121503);
    (121505, 121519); (122880, 122886); (122888, 122904); (122907, 122913);
    (122915, 122916); (122918, 122922); (123184, 123197); (123566, 123566);
    (123628, 123631); (125136, 125142); (125252, 125259); (127995, 127999);
    (917505, 917505); (917536, 917631); (917760, 917999)
  ]%Z.

(** The characters with the property Cased that are not Case_Ignorable
    (a character with both counts as case-ignorable where the two are
    told apart). *)
Definition casedRanges : list (Z * Z) :=
  [
    (65, 90); (97, 122); (170, 170); (181, 181); (186, 186); (192, 214);
    (216, 246); (248, 442); (444, 447); (452, 659); (661, 687); (880, 883);
    (886, 887); (891, 893); (895, 895); (902, 902); (904, 906); (908, 908);
    (910, 929); (931, 1013); (1015, 1153); (1162, 1327); (1329, 1366);
    (1376, 1416); (4256, 4293); (4295, 4295); (4301, 4301); (4304, 4346);
    (4349, 4351); (5024, 5109); (5112, 5117); (7296, 7304); (7312, 7354);
    (7357, 7359); (7424, 7467); (7531, 7543); (7545, 7578); (7680, 7957);
    (7960, 7965); (7968, 8005); (8008, 8013); (8016, 8023); (8025, 8025);
    (8027, 8027); (8029, 8029); (8031, 8061); (8064, 8116); (8118, 8124);
    (8126, 8126); (8130, 8132); (8134, 8140); (8144, 8147); (8150, 8155);
    (8160, 8172); (8178, 8180); (8182, 8188); (8450, 8450); (8455, 8455);
    (8458, 8467); (8469, 8469); (8473, 8477); (8484, 8484); (8486, 8486);
    (8488, 8488); (8490, 8493); (8495, 8500); (8505, 8505); (8508, 8511);
    (8517, 8521); (8526, 8526); (8544, 8575); (8579, 8580); (9398, 9449);
    (11264, 11387); (11390, 11492); (11499, 11502); (11506, 11507);
    (11520, 11557); (11559, 11559); (11565, 11565); (42560, 42605);
    (42624, 42651); (42786, 42863); (42865, 42887); (42891, 42894);
    (42896, 42954); (42960, 42961); (42963, 42963); (42965, 42969);
    (42997, 42998); (43002, 43002); (43824, 43866); (43872, 43880);
    (43888, 43967); (64256, 64262); (64275, 64279); (65313, 65338);
    (65345, 65370); (66560, 66639); (66736, 66771); (66776, 66811);
    (66928, 66938); (66940, 66954); (66956, 66962); (66964, 66965);
    (66967, 66977); (66979, 66993); (66995, 67001); (67003, 67004);
    (68736, 68786); (68800, 68850); (71840, 71903); (93760, 93823);
    (119808, 119892); (119894, 119964); (119966, 119967); (119970, 119970);
    (119973, 119974); (119977, 119980); (119982, 119993); (119995, 119995);
    (119997, 120003); (120005, 120069); (120071, 120074); (120077, 120084);
    (120086, 120092); (120094, 120121); (120123, 120126); (120128, 120132);
    (120134, 120134); (120138, 120144); (120146, 120485); (120488, 120512);
    (120514, 120538); (120540, 120570); (120572, 120596); (120598, 120628);
    (120630, 120654); (120656, 120686); (120688, 120712); (120714, 120744);
    (120746, 120770); (120772, 120779); (122624, 122633); (122635, 122654);
    (125184, 125251); (127280, 127305); (127312, 127337); (127344, 127369)
  ]%Z.

Definition inRanges (ranges : list (Z * Z)) (c : Z) : bool :=
  existsb (fun r => (fst r <=? c)%Z && (c <=? snd r)%Z) ranges.

Definition caseIgnorable (c : Z) : bool := inRanges caseIgnorableRanges c.

(** Cased, for a character that is not case-ignorable. *)
Definition cased (c : Z) : bool := inRanges casedRanges c.

Fixpoint mapped (ranges : list (Z * Z * Z * Z)) (c : Z) : Z :=
  match ranges with
  | [] => c
  | (first, last, step, delta) :: rest =>
      if (first <=? c)%Z && (c <=? last)%Z && ((c - first) mod step =? 0)%Z
      then (c + delta)%Z else mapped rest c
  end.

Definition lowerOf (c : Z) : Z := mapped lowerRanges c.

(** A cased letter follows, after case-ignorable characters only. *)
Fixpoint casedAhead (l : list Z) : bool :=
  match l with
  | [] => false
  | c :: r => if caseIgnorable c then casedAhead r else cased c
  end.

(** A cased letter stands behind, with case-ignorable characters only
    since: [behind] before [c], and the same once [c] is read. *)
Definition after (behind : bool) (c : Z) : bool :=
  if caseIgnorable c then behind else cased c.

(** The lowercase of a run of characters.  Each character maps by the
    table; U+0130 maps to [i] and a combining dot; capital sigma maps to
    the final form when a cased letter stands behind it and none ahead. *)
Fixpoint lowerAll (behind : bool) (l : list Z) : list Z :=
  match l with
  | [] => []
  | c :: r =>
      (if (c =? 931)%Z
       then [if behind && negb (casedAhead r) then 962%Z else 963%Z]
       else if (c =? 304)%Z then [105%Z; 775%Z]
       else [lowerOf c])
      ++ lowerAll (after behind c) r
  end.

(** [s.toLowerCase()] *)
Definition toLowerCase (s : string) : string :=
  encode (lowerAll false (decode s)).

(** *** White space *)

(** WhiteSpace and LineTerminator, as [trim] and [parseInt] see them. *)
Definition isWhite (c : Z) : bool :=
  ((9 <=? c) && (c <=? 13) || (c =? 32) || (c =? 160) || (c =? 5760)
   || (8192 <=? c) && (c <=? 8202) || (c =? 8232) || (c =? 8233)
   || (c =? 8239) || (c =? 8287) || (c =? 12288) || (c =? 65279))%Z.

(** The number of bytes of the white space character at the head of [s];
    0 when there is none. *)
Definition whiteAt (s : string) : nat :=
  if isWhite (fst (decode1 s)) then snd (decode1 s) else O.

Fixpoint trimStartFrom (skip : nat) (s : string) : string :=
  match s with
  | EmptyString => EmptyString
  | String _ r =>
      match skip with
      | S k => trimStartFrom k r
      | O => match whiteAt s with
             | O => s
             | S k => trimStartFrom k r
             end
      end
  end.

(** [s.trimStart()] *)
Definition trimStart (s : string) : string := trimStartFrom 0 s.

(** [s.trimEnd()]: [s] up to the place from which only white space
    follows. *)
Fixpoint trimEnd (s : string) : string :=
  match s with
  | EmptyString => EmptyString
  | String c r =>
      match trimStart s with
      | EmptyString => EmptyString
      | _ => String c (trimEnd r)
      end
  end.

(** [s.trim()] *)
Definition trim (s : string) : string := trimEnd (trimStart s).

(** A value is truthy: for a string, it is not empty. *)
Definition truthy (s : string) : bool :=
  match s with EmptyString => false | _ => true end.

(** [a || b] on two results of [match]: an array is always truthy. *)
Definition or_else {A : Type} (a b : option A) : option A :=
  match a with Some _ => a | None => b end.

(** *** Numbers *)

(** A number of the program: an integer that is a double, [NaN] or an
    infinity.  (No fraction arises, and minus zero is not told from
    zero.) *)
Inductive number : Type :=
| NaN
| Finite (z : Z)
| Infinity (negative : bool).

(** The double nearest to the integer [n], not negative: itself below
    2^53, and above it [n] cut to 53 significant bits, a tie going to the
    even neighbour. *)
Definition nearest (n : Z) : Z :=
  if (n <? 2 ^ 53)%Z then n
  else
    let e := (Z.log2 n - 52)%Z in
    let q := Z.shiftr n e in
    let r := (n - Z.shiftl q e)%Z in
    let half := Z.shiftl 1 (e - 1) in
    let q' := if (half <? r)%Z || (r =? half)%Z && Z.odd q
              then (q + 1)%Z else q in
    Z.shiftl q' e.

(** The number an integer value becomes: the nearest double, an infinity
    from 2^1024 - 2^970 on. *)
Definition toNumber (z : Z) : number :=
  let m := nearest (Z.abs z) in
  if (m <? 2 ^ 1024)%Z then Finite (Z.sgn z * m) else Infinity (z <? 0)%Z.

Definition decimal (n : Z) : string :=
  NilEmpty.string_of_uint (N.to_uint (Z.to_N n)).

(** The shortest decimal that reads back as the double [x]: the multiples
    of 10^m next to [x] are tried for m = [m], [m] - 1, ... down to 0; of
    two that read back as [x] the nearer is taken, the even one on a
    tie. *)
Fixpoint shortest (x : Z) (m : nat) : Z :=
  let p := (10 ^ Z.of_nat m)%Z in
  let lo := (x / p * p)%Z in
  let hi := (lo + p)%Z in
  let ok := fun y => (nearest y =? x)%Z in
  let found :=
    if ok lo && ok hi then
      Some (if (x - lo <? hi - x)%Z then lo
            else if (hi - x <? x - lo)%Z then hi
            else if Z.even (x / p) then lo else hi)
    else if ok lo then Some lo
    else if ok hi then Some hi
    else None in
  match found, m with
  | Some y, _ => y
  | None, O => x
  | None, S m' => shortest x m'
  end.

Fixpoint dropZeros (s : string) : string :=
  match s with
  | EmptyString => EmptyString
  | String c r =>
      match dropZeros r with
      | EmptyString => if Ascii.eqb c "0" then EmptyString else String c EmptyString
      | t => String c t
      end
  end.

(** [`${x}`] for a positive double that is an integer: all the digits
    below 10^21, the exponent form from there on. *)
Definition positiveToString (x : Z) : string :=
  let y := shortest x (String.length (decimal x) - 1) in
  let ds := decimal y in
  if (y <? 10 ^ 21)%Z then ds
  else
    let exponent := "e+" ++ decimal (Z.of_nat (String.length ds - 1)) in
    match dropZeros ds with
    | String d EmptyString => String d exponent
    | String d rest => String d ("." ++ rest ++ exponent)
    | EmptyString => ds
    end.

(** [`${x}`] for a number. *)
Definition toString (x : number) : string :=
  match x with
  | NaN => "NaN"
  | Infinity false => "Infinity"
  | Infinity true => "-Infinity"
  | Finite 0 => "0"
  | Finite (Zpos p) => positiveToString (Zpos p)
  | Finite (Zneg p) => "-" ++ positiveToString (Zpos p)
  end.

(** [`${n}`] for a non-negative integer. *)
Definition ofNat (n : nat) : string := NilEmpty.string_of_uint (Nat.to_uint n).

(** [`${z}`] for the number read from an integer of the store. *)
Definition ofZ (z : Z) : string := toString (toNumber z).

Definition isDigit (c : ascii) : bool := between 48 57 c.

(** The value of a digit in a radix up to 36, as [parseInt] reads it. *)
Definition digitValue (c : ascii) : option Z :=
  let n := nat_of_ascii c in
  if between 48 57 c then Some (Z.of_nat (n - 48))
  else if between 97 122 c then Some (Z.of_nat (n - 87))
  else if between 65 90 c then Some (Z.of_nat (n - 55))
  else None.

(** The longest run of digits of the radix at the head of [s], folded into
    [acc]; [seen] tells whether a digit was read. *)
Fixpoint readDigits (radix : Z) (s : string) (seen : bool) (acc : Z) : option Z :=
  match s with
  | EmptyString => if seen then Some acc else None
  | String c s' =>
      match digitValue c with
      | Some d =>
          if (d <? radix)%Z then readDigits radix s' true (acc * radix + d)%Z
          else if seen then Some acc else None
      | None => if seen then Some acc else None
      end
  end.

(** [parseInt(s)] with no radix: leading white space, a sign, [0x] for
    radix 16, then digits; the integer read becomes a number, so it is
    rounded above 2^53 and is an infinity from 309 digits or so.  No digit
    gives [NaN]. *)
Definition parseInt (s : string) : number :=
  let s0 := trimStart s in
  let '(neg, s1) :=
    match s0 with
    | String "-" r => (true, r)
    | String "+" r => (false, r)
    | _ => (false, s0)
    end in
  let r :=
    if startsWith s1 "0x" || startsWith s1 "0X"
    then readDigits 16 (drop 2 s1) false 0
    else readDigits 10 s1 false 0 in
  match r with
  | Some z => toNumber (if neg then Z.opp z else z)
  | None => NaN
  end.

End Js.

(** ** Regular expressions of the parser *)

Module Regex.

(** A line terminator stands at the head of [s]: LF, CR, U+2028 or U+2029
    (the last two are the bytes E2 80 A8 and E2 80 A9). *)
Definition lineTerminatorAt (s : string) : bool :=
  match s with
  | String c r =>
      match nat_of_ascii c with
      | 10 | 13 => true
      | 226 =>
          match r with
          | String c1 (String c2 _) =>
              (nat_of_ascii c1 =? 128)%nat
              && ((nat_of_ascii c2 =? 168)%nat || (nat_of_ascii c2 =? 169)%nat)
          | _ => false
          end
      | _ => false
      end
  | EmptyString => false
  end.

(** [(.*?)close] from the head of [s]: the shortest run of characters that
    are no line terminator and are followed by [close]; the run is the
    captured group. *)
Fixpoint dotLazy (close s : string) : option string :=
  if Js.startsWith s close then Some EmptyString
  else match s with
       | EmptyString => None
       | String c s' =>
           if lineTerminatorAt s then None
           else option_map (String c) (dotLazy close s')
       end.

(** [/open(.*?)close/] matched at the head of [s]. *)
Definition group1At (open close s : string) : option string :=
  if Js.startsWith s open
  then dotLazy close (Js.drop (String.length open) s) else None.

(** [s.match(/open(.*?)close/)]: group 1 of the leftmost match. *)
Fixpoint group1 (open close s : string) : option string :=
  match group1At open close s with
  | Some g => Some g
  | None =>
      match s with
      | EmptyString => None
      | String _ s' => group1 open close s'
      end
  end.

(** [([\s\S]*?)close] from the head of [s]: the shortest run of any
    characters followed by [close]. *)
Fixpoint anyLazy (close s : string) : option string :=
  if Js.startsWith s close then Some EmptyString
  else match s with
       | EmptyString => None
       | String c s' => option_map (String c) (anyLazy close s')
       end.

(** [/<item>([\s\S]*?)<\/item>/] matched at the head of [s]: the text
    of the match. *)
Definition itemAt (s : string) : option string :=
  if Js.startsWith s "<item>"
  then option_map (fun body => "<item>" ++ body ++ "</item>")
         (anyLazy "</item>" (Js.drop 6 s))
  else None.

(** [s.match(/<item>([\s\S]*?)<\/item>/g)]: every match, left to right, the
    search resuming where the last match ended.  [skip] counts the
    characters of the last match that are still ahead. *)
Fixpoint items (skip : nat) (s : string) : list string :=
  match s with
  | EmptyString => []
  | String _ s' =>
      match skip with
      | S k => items k s'
      | O =>
          match itemAt s with
          | Some m => m :: items (String.length m - 1) s'
          | None => items 0 s'
          end
      end
  end.

(** The longest run of decimal digits at the head of [s], and what follows. *)
Fixpoint digits (s : string) : string * string :=
  match s with
  | String c s' =>
      if Js.isDigit c then let '(d, r) := digits s' in (String c d, r)
      else (EmptyString, s)
  | EmptyString => (EmptyString, EmptyString)
  end.

(** [/post-(\d+)-/] matched at the head of [s]: the digits run as far as
    they can, and a shorter run would be followed by a digit, not by [-]. *)
Definition postIdAt (s : string) : option string :=
  if Js.startsWith s "post-"
  then let '(d, r) := digits (Js.drop 5 s) in
       if Js.truthy d && Js.startsWith r "-" then Some d else None
  else None.

(** [s.match(/post-(\d+)-/)]: group 1 of the leftmost match. *)
Fixpoint postId (s : string) : option string :=
  match postIdAt s with
  | Some d => Some d
  | None =>
      match s with
      | EmptyString => None
      | String _ s' => postId s'
      end
  end.

End Regex.

(** ** Records *)

Module RSSPost.
Record t := mk {
  id : string;
  title : string;
  description : string;
  pubDate : string;
  category : string;
  creator : string
}.
End RSSPost.

(** A row of [posts].  [post_id] is NULL when the feed item had no numeric
    identifier (the schema is not part of the source; the column is taken to
    accept NULL); [created_at] is the store's time stamp, kept as a number. *)
Module DBPost.
Record t := mk {
  id : Z;
  post_id : option Z;
  title : string;
  content : string;
  pub_date : string;
  category : string;
  creator : string;
  is_push : Z;
  created_at : nat
}.
End DBPost.

(** A row of [users] (the columns the monitor reads). *)
Module User.
Record t := mk {
  id : Z;
  chat_id : Z;
  is_active : Z
}.
End User.

(** A row of [keywords_sub]. *)
Module KeywordSub.
Record t := mk {
  id : Z;
  user_id : Z;
  keywords_count : Z;
  keyword1 : option string;
  keyword2 : option string;
  keyword3 : option string;
  is_active : Z
}.
End KeywordSub.

(** A row of [push_logs]. *)
Module PushLog.
Record t := mk {
  id : Z;
  user_id : Z;
  chat_id : Z;
  post_id : option Z;
  sub_id : Z;
  push_status : Z;
  error_message : option string;
  created_at : nat
}.
End PushLog.

(** A row of the dispatcher's query: [pl.*] and the joined columns.  Two
    columns are named [chat_id]; the row object keeps the last one,
    [u.chat_id]. *)
Module PendingLog.
Record t := mk {
  id : Z;
  user_id : Z;
  sub_id : Z;
  push_status : Z;
  error_message : option string;
  created_at : nat;
  title : string;
  content : string;
  category : string;
  creator : string;
  post_id : Z;
  keyword1 : option string;
  keyword2 : option string;
  keyword3 : option string;
  chat_id : Z
}.
End PendingLog.

(** A thrown value, by what the code reads of it: [error.message],
    [error.description] and [String(error)]. *)
Module JsError.
Record t := mk {
  message : option string;
  description : option string;
  toString : string
}.
End JsError.

(** ** The feed parser *)

(** The element [tag] of an item: the CDATA form first, the plain form
    second; [None] when neither is found. *)
Definition element (tag item : string) : option string :=
  Js.or_else
    (Regex.group1 ("<" ++ tag ++ "><![CDATA[") ("]]></" ++ tag ++ ">") item)
    (Regex.group1 ("<" ++ tag ++ ">") ("</" ++ tag ++ ">") item).

Definition trimmedOr (dflt : string) (m : option string) : string :=
  match m with Some g => Js.trim g | None => dflt end.

(** The body of [items.forEach((item, index) => ...)]. *)
Definition parseItem (item : string) (index : nat) : RSSPost.t :=
  let titleMatch := element "title" item in
  let linkMatch := Regex.group1 "<link>" "</link>" item in
  let descriptionMatch := element "description" item in
  let pubDateMatch := Regex.group1 "<pubDate>" "</pubDate>" item in
  let categoryMatch := element "category" item in
  let creatorMatch := element "dc:creator" item in
  let link := match linkMatch with Some l => l | None => "" end in
  let idMatch := Regex.postId link in
  {| RSSPost.id :=
       match idMatch with Some d => d | None => "item-" ++ Js.ofNat index end;
     RSSPost.title := trimmedOr "无标题" titleMatch;
     RSSPost.description := trimmedOr "" descriptionMatch;
     RSSPost.pubDate := trimmedOr "" pubDateMatch;
     RSSPost.category := trimmedOr "未分类" categoryMatch;
     RSSPost.creator := trimmedOr "未知作者" creatorMatch |}.

Fixpoint forEachIndexed (its : list string) (index : nat) : list RSSPost.t :=
  match its with
  | [] => []
  | item :: rest => parseItem item index :: forEachIndexed rest (S index)
  end.

(** No step of the body throws on a string, so the [catch] branch of the
    source is never taken. *)
Definition parseRSSXML (xmlText : string) : list RSSPost.t :=
  forEachIndexed (Regex.items 0 xmlText) 0.

(** ** The matcher *)

Definition searchTextOf (post : DBPost.t) : string :=
  Js.toLowerCase
    (DBPost.title post ++ " " ++ DBPost.content post ++ " "
     ++ DBPost.category post ++ " " ++ DBPost.creator post).

Definition matchKeywords (post : DBPost.t) (keywords : KeywordSub.t) : bool :=
  let searchText := searchTextOf post in
  let keyword1 := option_map Js.toLowerCase (KeywordSub.keyword1 keywords) in
  let keyword2 := option_map Js.toLowerCase (KeywordSub.keyword2 keywords) in
  let keyword3 := option_map Js.toLowerCase (KeywordSub.keyword3 keywords) in
  match keyword1 with
  | None => false
  | Some k1 =>
      if negb (Js.truthy k1) || negb (Js.includes searchText k1) then false
      else if (KeywordSub.keywords_count keywords =? 1)%Z then true
      else if (KeywordSub.keywords_count keywords =? 2)%Z then
        match keyword2 with
        | Some k2 => if Js.truthy k2 then Js.includes searchText k2 else false
        | None => false
        end
      else if (KeywordSub.keywords_count keywords =? 3)%Z then
        match keyword2, keyword3 with
        | Some k2, Some k3 =>
            if Js.truthy k2 && Js.truthy k3
            then Js.includes searchText k2 && Js.includes searchText k3
            else false
        | _, _ => false
        end
      else false
  end.

(** ** Asynchronous functions: state and exceptions *)

Inductive completion (A : Type) : Type :=
| Normal (a : A)
| Throw (e : JsError.t).
Arguments Normal {A} a.
Arguments Throw {A} e.

(** An [async] function over the state [S]: it ends normally with a value
    or throws, and leaves a state either way. *)
Definition Task (S A : Type) : Type := S -> completion A * S.

Definition ret {S A : Type} (a : A) : Task S A := fun s => (Normal a, s).

Definition bind {S A B : Type} (m : Task S A) (k : A -> Task S B) : Task S B :=
  fun s =>
    match m s with
    | (Normal a, s') => k a s'
    | (Throw e, s') => (Throw e, s')
    end.

(** [try { m } catch (error) { handler error }] *)
Definition tryCatch {S A : Type} (m : Task S A) (handler : JsError.t -> Task S A)
  : Task S A :=
  fun s =>
    match m s with
    | (Normal a, s') => (Normal a, s')
    | (Throw e, s') => handler e s'
    end.

Declare Scope task_scope.
Delimit Scope task_scope with task.
Notation "x <- m ;; k" := (bind m (fun x => k))
  (at level 100, m at next level, right associativity) : task_scope.
Notation "m ;; k" := (bind m (fun _ => k))
  (at level 100, right associativity) : task_scope.
Open Scope task_scope.

(** [for (const x of l) { body x }] *)
Fixpoint forOf {S A : Type} (l : list A) (body : A -> Task S unit) : Task S unit :=
  match l with
  | [] => ret tt
  | x :: rest => body x ;; forOf rest body
  end.

(** A function with local variables [L] beside the state [S]: the locals
    outlive an exception, as a [let] declared before the [try] does. *)
Definition onState {L S A : Type} (m : Task S A) : Task (L * S) A :=
  fun ls =>
    let '(r, s') := m (snd ls) in (r, (fst ls, s')).

Definition onLocals {L S : Type} (f : L -> L) : Task (L * S) unit :=
  fun ls => (Normal tt, (f (fst ls), snd ls)).

(** ** The store *)

Module D1.

(** The four tables, each in row order; the time stamp the next inserted
    row gets (the [created_at] default, a clock that moves with each
    insert); and the fate of the coming statements, first one first:
    [Some e] is a statement that fails with [e], [None] and the exhausted
    list are statements that run. *)
Record Database := mk {
  posts : list DBPost.t;
  users : list User.t;
  keywords_sub : list KeywordSub.t;
  push_logs : list PushLog.t;
  clock : nat;
  faults : list (option JsError.t)
}.

Definition withPosts (l : list DBPost.t) (db : Database) : Database :=
  mk l (users db) (keywords_sub db) (push_logs db) (clock db) (faults db).
Definition withUsers (l : list User.t) (db : Database) : Database :=
  mk (posts db) l (keywords_sub db) (push_logs db) (clock db) (faults db).
Definition withPushLogs (l : list PushLog.t) (db : Database) : Database :=
  mk (posts db) (users db) (keywords_sub db) l (clock db) (faults db).
Definition withClock (n : nat) (db : Database) : Database :=
  mk (posts db) (users db) (keywords_sub db) (push_logs db) n (faults db).
Definition withFaults (f : list (option JsError.t)) (db : Database) : Database :=
  mk (posts db) (users db) (keywords_sub db) (push_logs db) (clock db) f.

(** The error the coming statement fails with, if it fails. *)
Definition due (db : Database) : option JsError.t :=
  match faults db with
  | Some e :: _ => Some e
  | _ => None
  end.

(** The store once the coming statement has been sent. *)
Definition next (db : Database) : Database := withFaults (tl (faults db)) db.

(** One statement sent to the store ([first], [all] or [run]): it fails
    with the error that is due, or runs [exec]. *)
Definition statement {A : Type} (exec : Database -> A * Database) : Task Database A :=
  fun db =>
    match due db with
    | Some e => (Throw e, next db)
    | None => let '(a, db') := exec (next db) in (Normal a, db')
    end.

Definition query {A : Type} (read : Database -> A) : Task Database A :=
  statement (fun db => (read db, db)).

Definition update (write : Database -> Database) : Task Database unit :=
  statement (fun db => (tt, write db)).

(** A number bound to a statement: a finite one arrives as it is, [NaN]
    and the infinities arrive as NULL. *)
Definition bound (x : Js.number) : option Z :=
  match x with
  | Js.Finite z => Some z
  | _ => None
  end.

(** [a = b] in SQL: never true of a NULL. *)
Definition eqNull (a b : option Z) : bool :=
  match a, b with
  | Some x, Some y => (x =? y)%Z
  | _, _ => false
  end.

(** The row id of a new row: one more than the largest in the table. *)
Definition freshId (ids : list Z) : Z := (fold_right Z.max 0 ids + 1)%Z.

(** [ORDER BY]: a stable insertion sort; [before y x] tells that the row
    [y] sorts strictly before [x]. *)
Fixpoint insertSorted {A : Type} (before : A -> A -> bool) (x : A) (l : list A)
  : list A :=
  match l with
  | [] => [x]
  | y :: l' => if before y x then y :: insertSorted before x l' else x :: l
  end.

Definition orderBy {A : Type} (before : A -> A -> bool) (l : list A) : list A :=
  fold_right (insertSorted before) [] l.

End D1.

Abbreviation D1Database := D1.Database (only parsing).

(** ** Reading the feed *)

(** What [fetch] gave at this tick: it threw, or a response came. *)
Inductive FetchOutcome : Type :=
| FetchThrows (e : JsError.t)
| Response (ok : bool) (text : string).

Definition fetchRSSData (feed : FetchOutcome) : list RSSPost.t :=
  match feed with
  | Response true xmlText => parseRSSXML xmlText
  | Response false _ => []
  | FetchThrows _ => []
  end.

(** ** The subscriber registry *)

(** [SELECT * FROM users WHERE is_active = 1] *)
Definition activeUsers (db : D1Database) : list User.t :=
  filter (fun u => (User.is_active u =? 1)%Z) (D1.users db).

Definition getActiveUsers : Task D1Database (list User.t) :=
  tryCatch (D1.query activeUsers) (fun _ => ret []).

(** [SELECT * FROM keywords_sub WHERE user_id = ? AND is_active = 1] *)
Definition userKeywords (userId : Z) (db : D1Database) : list KeywordSub.t :=
  filter (fun ks => (KeywordSub.user_id ks =? userId)%Z
                    && (KeywordSub.is_active ks =? 1)%Z)
         (D1.keywords_sub db).

Definition getUserKeywords (userId : Z) : Task D1Database (list KeywordSub.t) :=
  tryCatch (D1.query (userKeywords userId)) (fun _ => ret []).

(** ** The post store *)

(** [SELECT id FROM posts WHERE post_id = ?] with [first()] *)
Definition findPost (postId : option Z) (db : D1Database) : option Z :=
  option_map DBPost.id
    (find (fun p => D1.eqNull (DBPost.post_id p) postId) (D1.posts db)).

(** The row that [INSERT INTO posts (post_id, title, content, pub_date,
    category, creator, is_push) VALUES (?, ?, ?, ?, ?, ?, 0)] adds. *)
Definition rowOfPost (post : RSSPost.t) (db : D1Database) : DBPost.t :=
  {| DBPost.id := D1.freshId (map DBPost.id (D1.posts db));
     DBPost.post_id := D1.bound (Js.parseInt (RSSPost.id post));
     DBPost.title := RSSPost.title post;
     DBPost.content := RSSPost.description post;
     DBPost.pub_date := RSSPost.pubDate post;
     DBPost.category := RSSPost.category post;
     DBPost.creator := RSSPost.creator post;
     DBPost.is_push := 0;
     DBPost.created_at := D1.clock db |}.

Definition addPost (post : RSSPost.t) (db : D1Database) : D1Database :=
  D1.withClock (S (D1.clock db))
    (D1.withPosts (D1.posts db ++ [rowOfPost post db]) db).

(** The body of the loop of [savePostsToDatabase]; the local is
    [savedCount]. *)
Definition savePost (post : RSSPost.t) : Task (nat * D1Database) unit :=
  existing <- onState (D1.query (findPost (D1.bound (Js.parseInt (RSSPost.id post))))) ;;
  match existing with
  | Some _ => ret tt
  | None =>
      onState (D1.update (addPost post)) ;;
      onLocals S
  end.

Definition savePostsToDatabase (posts : list RSSPost.t) : Task D1Database nat :=
  fun db =>
    let '(_, (savedCount, db')) :=
      tryCatch (forOf posts savePost) (fun _ => ret tt) (O, db) in
    (Normal savedCount, db').

(** [SELECT * FROM posts WHERE is_push = 0 ORDER BY created_at DESC
    LIMIT ?] *)
Definition unpushedPosts (limit : nat) (db : D1Database) : list DBPost.t :=
  firstn limit
    (D1.orderBy (fun y x => (DBPost.created_at x <? DBPost.created_at y)%nat)
       (filter (fun p => (DBPost.is_push p =? 0)%Z) (D1.posts db))).

Definition getUnpushedPosts (limit : nat) : Task D1Database (list DBPost.t) :=
  tryCatch (D1.query (unpushedPosts limit)) (fun _ => ret []).

Definition setPushed (p : DBPost.t) : DBPost.t :=
  DBPost.mk (DBPost.id p) (DBPost.post_id p) (DBPost.title p) (DBPost.content p)
    (DBPost.pub_date p) (DBPost.category p) (DBPost.creator p) 1
    (DBPost.created_at p).

(** [UPDATE posts SET is_push = 1 WHERE post_id = ?] *)
Definition markPushed (postId : option Z) (db : D1Database) : D1Database :=
  D1.withPosts
    (map (fun p => if D1.eqNull (DBPost.post_id p) postId then setPushed p else p)
         (D1.posts db))
    db.

Definition markPostAsPushed (postId : option Z) : Task D1Database unit :=
  tryCatch (D1.update (markPushed postId)) (fun _ => ret tt).

(** ** The delivery channel *)

(** [new Bot(botToken)] and [bot.api.sendMessage(chatId, message, ...)]:
    the message is delivered ([None]) or the call throws. *)
Definition BotApi : Type := string -> Z -> string -> option JsError.t.

Record Sent := mkSent {
  success : bool;
  error : option string;
  userBlocked : option bool
}.

Definition blockedErrors : list string :=
  [ "Forbidden: bot was blocked by the user";
    "Forbidden: user is deactivated";
    "Forbidden: bot was kicked from the group chat";
    "Forbidden: bot was kicked from the supergroup chat";
    "Bad Request: chat not found" ].

(** [error?.message || error?.description || String(error)] *)
Definition errorMessageOf (error : JsError.t) : string :=
  match JsError.message error with
  | Some (String c m) => String c m
  | _ =>
      match JsError.description error with
      | Some (String c d) => String c d
      | _ => JsError.toString error
      end
  end.

Definition isBlocked (errorMessage : string) : bool :=
  existsb
    (fun blockedError =>
       Js.includes (Js.toLowerCase errorMessage) (Js.toLowerCase blockedError))
    blockedErrors.

Definition newline : string := String (ascii_of_nat 10) EmptyString.

Definition sendTelegramMessage (api : BotApi) (botToken : string) (chatId : Z)
    (post : DBPost.t) (matchedKeywords : list string) : Sent :=
  let postUrl :=
    "https://www.nodeseek.com/post-"
    ++ match DBPost.post_id post with Some n => Js.ofZ n | None => "null" end
    ++ "-1" in
  let message :=
    "🎯 " ++ String.concat ", " matchedKeywords ++ newline ++ newline
    ++ "[" ++ DBPost.title post ++ "](" ++ postUrl ++ ")" in
  match api botToken chatId message with
  | None => {| success := true; error := None; userBlocked := None |}
  | Some err =>
      let errorMessage := errorMessageOf err in
      {| success := false;
         error := Some errorMessage;
         userBlocked := Some (isBlocked errorMessage) |}
  end.

(** ** Fan-out *)

(** The key of a row of [push_logs] is the one given; a NULL post never
    compares equal. *)
Definition hasKey (userId : Z) (postId : option Z) (subId : Z) (pl : PushLog.t)
  : bool :=
  (PushLog.user_id pl =? userId)%Z
  && D1.eqNull (PushLog.post_id pl) postId
  && (PushLog.sub_id pl =? subId)%Z.

(** [SELECT id FROM push_logs WHERE user_id = ? AND post_id = ? AND
    sub_id = ?] with [first()] *)
Definition findPushLog (userId : Z) (postId : option Z) (subId : Z)
    (db : D1Database) : option Z :=
  option_map PushLog.id (find (hasKey userId postId subId) (D1.push_logs db)).

(** The row that [INSERT INTO push_logs (user_id, chat_id, post_id, sub_id,
    push_status, error_message) VALUES (?, ?, ?, ?, 0, NULL)] adds. *)
Definition rowOfPushLog (userId chatId : Z) (postId : option Z) (subId : Z)
    (db : D1Database) : PushLog.t :=
  {| PushLog.id := D1.freshId (map PushLog.id (D1.push_logs db));
     PushLog.user_id := userId;
     PushLog.chat_id := chatId;
     PushLog.post_id := postId;
     PushLog.sub_id := subId;
     PushLog.push_status := 0;
     PushLog.error_message := None;
     PushLog.created_at := D1.clock db |}.

Definition addPushLog (userId chatId : Z) (postId : option Z) (subId : Z)
    (db : D1Database) : D1Database :=
  D1.withClock (S (D1.clock db))
    (D1.withPushLogs
       (D1.push_logs db ++ [rowOfPushLog userId chatId postId subId db]) db).

(** The locals of [createPushLogs]. *)
Record LogCounts := mkLogCounts { totalLogs : nat; createdLogs : nat }.

Definition incTotal (c : LogCounts) : LogCounts :=
  mkLogCounts (S (totalLogs c)) (createdLogs c).
Definition incCreated (c : LogCounts) : LogCounts :=
  mkLogCounts (totalLogs c) (S (createdLogs c)).

(** [for (const keywords of keywordSubs) { if (matchKeywords(...)) { ...
    break } }] *)
Fixpoint scanKeywords (post : DBPost.t) (user : User.t)
    (keywordSubs : list KeywordSub.t) : Task (LogCounts * D1Database) unit :=
  match keywordSubs with
  | [] => ret tt
  | keywords :: rest =>
      if matchKeywords post keywords then
        onLocals incTotal ;;
        existing <- onState
          (D1.query
             (findPushLog (User.id user) (DBPost.post_id post)
                (KeywordSub.id keywords))) ;;
        match existing with
        | Some _ => ret tt
        | None =>
            onState
              (D1.update
                 (addPushLog (User.id user) (User.chat_id user)
                    (DBPost.post_id post) (KeywordSub.id keywords))) ;;
            onLocals incCreated
        end
      else scanKeywords post user rest
  end.

(** The body of [for (const user of users)]. *)
Definition fanOutUser (post : DBPost.t) (user : User.t)
  : Task (LogCounts * D1Database) unit :=
  keywordSubs <- onState (getUserKeywords (User.id user)) ;;
  scanKeywords post user keywordSubs.

(** The body of [for (const post of posts)]. *)
Definition fanOutPost (users : list User.t) (post : DBPost.t)
  : Task (LogCounts * D1Database) unit :=
  forOf users (fanOutUser post) ;;
  onState (markPostAsPushed (DBPost.post_id post)).

(** The [try] block of [createPushLogs]. *)
Definition fanOut (posts : list DBPost.t) : Task (LogCounts * D1Database) unit :=
  users <- onState getActiveUsers ;;
  forOf posts (fanOutPost users).

Definition createPushLogs (posts : list DBPost.t) : Task D1Database LogCounts :=
  fun db =>
    let '(_, (counts, db')) :=
      tryCatch (fanOut posts) (fun _ => ret tt) (mkLogCounts 0 0, db) in
    (Normal counts, db').

(** [UPDATE users SET is_active = 0 WHERE chat_id = ?] *)
Definition deactivate (chatId : Z) (db : D1Database) : D1Database :=
  D1.withUsers
    (map (fun u => if (User.chat_id u =? chatId)%Z
                   then User.mk (User.id u) (User.chat_id u) 0 else u)
         (D1.users db))
    db.

Definition deactivateUser (chatId : Z) : Task D1Database unit :=
  tryCatch (D1.update (deactivate chatId)) (fun _ => ret tt).

(** ** The two operations *)

Inductive Stats : Type :=
| NoStats
| RssNone (rssPostsCount : nat)
| RssStats (rssPostsCount savedNewPosts unpushedPosts keywordMatches
            createdPushLogs : nat)
| PushStats (pushAttempts successfulPushes failedPushes : nat).

Module Result.
Record t := mk {
  success : bool;
  message : string;
  stats : Stats
}.
End Result.

(** Locals declared inside a [try]: they start at [init] and are read at
    the end of a normal run. *)
Definition withLocals {L S A : Type} (init : L) (m : Task (L * S) A)
  : Task S (A * L) :=
  fun s =>
    match m (init, s) with
    | (Normal a, (l, s')) => (Normal (a, l), s')
    | (Throw e, (_, s')) => (Throw e, s')
    end.

Definition rssMonitorTask (feed : FetchOutcome) : Task D1Database Result.t :=
  tryCatch
    (let rssPosts := fetchRSSData feed in
     if (length rssPosts =? 0)%nat then
       ret {| Result.success := true;
              Result.message := "未获取到新的RSS数据";
              Result.stats := RssNone 0 |}
     else
       savedCount <- savePostsToDatabase rssPosts ;;
       unpushedPosts <- getUnpushedPosts 50 ;;
       keywordMatchStats <-
         (if (0 <? length unpushedPosts)%nat
          then createPushLogs unpushedPosts
          else ret (mkLogCounts 0 0)) ;;
       ret {| Result.success := true;
              Result.message :=
                "RSS监控完成：保存 " ++ Js.ofNat savedCount
                ++ " 个新帖子，创建 "
                ++ Js.ofNat (createdLogs keywordMatchStats) ++ " 个推送记录";
              Result.stats :=
                RssStats (length rssPosts) savedCount (length unpushedPosts)
                  (totalLogs keywordMatchStats)
                  (createdLogs keywordMatchStats) |})
    (fun error =>
       ret {| Result.success := false;
              Result.message := "RSS监控任务失败: " ++ JsError.toString error;
              Result.stats := NoStats |}).

(** A row of the dispatcher's query, from the four rows it joins;
    [postId] is the [post_id] the first two agree on. *)
Definition joinedRow (pl : PushLog.t) (p : DBPost.t) (ks : KeywordSub.t)
    (u : User.t) (postId : Z) : PendingLog.t :=
  {| PendingLog.id := PushLog.id pl;
     PendingLog.user_id := PushLog.user_id pl;
     PendingLog.sub_id := PushLog.sub_id pl;
     PendingLog.push_status := PushLog.push_status pl;
     PendingLog.error_message := PushLog.error_message pl;
     PendingLog.created_at := PushLog.created_at pl;
     PendingLog.title := DBPost.title p;
     PendingLog.content := DBPost.content p;
     PendingLog.category := DBPost.category p;
     PendingLog.creator := DBPost.creator p;
     PendingLog.post_id := postId;
     PendingLog.keyword1 := KeywordSub.keyword1 ks;
     PendingLog.keyword2 := KeywordSub.keyword2 ks;
     PendingLog.keyword3 := KeywordSub.keyword3 ks;
     PendingLog.chat_id := User.chat_id u |}.

(** The rows of the dispatcher's query before [ORDER BY] and [LIMIT]: the
    join of [push_logs] with [posts], [keywords_sub] and [users], where
    [push_status = 0]. *)
Definition joinPending (db : D1Database) : list PendingLog.t :=
  flat_map (fun pl =>
    if (PushLog.push_status pl =? 0)%Z then
      flat_map (fun p =>
        match PushLog.post_id pl, DBPost.post_id p with
        | Some a, Some b =>
            if (a =? b)%Z then
              flat_map (fun ks =>
                if (PushLog.sub_id pl =? KeywordSub.id ks)%Z then
                  flat_map (fun u =>
                    if (PushLog.user_id pl =? User.id u)%Z
                    then [joinedRow pl p ks u b] else [])
                    (D1.users db)
                else [])
                (D1.keywords_sub db)
            else []
        | _, _ => []
        end)
        (D1.posts db)
    else [])
    (D1.push_logs db).

Definition pendingRows (db : D1Database) : list PendingLog.t :=
  firstn 100
    (D1.orderBy
       (fun y x => (PendingLog.created_at y <? PendingLog.created_at x)%nat)
       (joinPending db)).

(** The row once the dispatcher is done with it. *)
Definition finished (errorMessage : option string) (pl : PushLog.t) : PushLog.t :=
  PushLog.mk (PushLog.id pl) (PushLog.user_id pl) (PushLog.chat_id pl)
    (PushLog.post_id pl) (PushLog.sub_id pl) 1 errorMessage
    (PushLog.created_at pl).

(** [UPDATE push_logs SET push_status = 1, error_message = ? WHERE id = ?] *)
Definition finish (errorMessage : option string) (logId : Z) (db : D1Database)
  : D1Database :=
  D1.withPushLogs
    (map (fun pl => if (PushLog.id pl =? logId)%Z
                    then finished errorMessage pl else pl)
         (D1.push_logs db))
    db.

Definition finishPushLog (errorMessage : option string) (logId : Z)
  : Task D1Database unit :=
  D1.update (finish errorMessage logId).

(** The locals of [pushTask]. *)
Record PushCounts := mkPushCounts { successful : nat; failed : nat }.

Definition incSuccessful (c : PushCounts) : PushCounts :=
  mkPushCounts (S (successful c)) (failed c).
Definition incFailed (c : PushCounts) : PushCounts :=
  mkPushCounts (successful c) (S (failed c)).

Definition matchedKeywordsOf (log : PendingLog.t) : list string :=
  flat_map (fun k => match k with
                     | Some s => if Js.truthy s then [s] else []
                     | None => []
                     end)
    [PendingLog.keyword1 log; PendingLog.keyword2 log; PendingLog.keyword3 log].

Definition postOfLog (log : PendingLog.t) : DBPost.t :=
  {| DBPost.id := PendingLog.id log;
     DBPost.post_id := Some (PendingLog.post_id log);
     DBPost.title := PendingLog.title log;
     DBPost.content := PendingLog.content log;
     DBPost.pub_date := "";
     DBPost.category := PendingLog.category log;
     DBPost.creator := PendingLog.creator log;
     DBPost.is_push := 1;
     DBPost.created_at := 0 |}.

(** The [try] block of one turn of the dispatch loop. *)
Definition pushAttempt (api : BotApi) (botToken : string) (log : PendingLog.t)
  : Task (PushCounts * D1Database) unit :=
  let matchedKeywords := matchedKeywordsOf log in
  let post := postOfLog log in
  let sent :=
    sendTelegramMessage api botToken (PendingLog.chat_id log) post
      matchedKeywords in
  if success sent then
    onState (finishPushLog None (PendingLog.id log)) ;;
    onLocals incSuccessful
  else
    onState (finishPushLog (error sent) (PendingLog.id log)) ;;
    onLocals incFailed ;;
    match userBlocked sent with
    | Some true => onState (deactivateUser (PendingLog.chat_id log))
    | _ => ret tt
    end.

(** One turn of the dispatch loop: the [try] block and its [catch]. *)
Definition pushOne (api : BotApi) (botToken : string) (log : PendingLog.t)
  : Task (PushCounts * D1Database) unit :=
  tryCatch
    (pushAttempt api botToken log)
    (fun error =>
       onState (finishPushLog (Some (JsError.toString error)) (PendingLog.id log)) ;;
       onLocals incFailed).

Definition pushTask (api : BotApi) (botToken : string) : Task D1Database Result.t :=
  tryCatch
    (pendingLogs <- D1.query pendingRows ;;
     if (length pendingLogs =? 0)%nat then
       ret {| Result.success := true;
              Result.message := "没有待推送的记录";
              Result.stats := PushStats 0 0 0 |}
     else
       r <- withLocals (mkPushCounts 0 0)
              (forOf pendingLogs (pushOne api botToken)) ;;
       let counts := snd r in
       ret {| Result.success := true;
              Result.message :=
                "推送任务完成：处理 " ++ Js.ofNat (length pendingLogs)
                ++ " 条记录，成功 " ++ Js.ofNat (successful counts)
                ++ " 条，失败 " ++ Js.ofNat (failed counts) ++ " 条";
              Result.stats :=
                PushStats (length pendingLogs) (successful counts)
                  (failed counts) |})
    (fun error =>
       ret {| Result.success := false;
              Result.message := "推送任务失败: " ++ JsError.toString error;
              Result.stats := NoStats |}).

(** ** Notions used to state the properties *)

(** [t] occurs in [s]. *)
Definition occursIn (t s : string) : Prop :=
  exists a b : string, s = a ++ t ++ b.

(** A keyword slot is filled and its keyword occurs, case folded, in the
    search text. *)
Definition slotPresent (searchText : string) (slot : option string) : Prop :=
  exists k : string,
    slot = Some k /\ k <> "" /\ occursIn (Js.toLowerCase k) searchText.

(** The check the matcher makes of one keyword slot. *)
Definition slotCheck (searchText : string) (slot : option string) : bool :=
  match option_map Js.toLowerCase slot with
  | Some k => Js.truthy k && Js.includes searchText k
  | None => false
  end.

(** Every character of [s] is a decimal digit. *)
Fixpoint allDigits (s : string) : bool :=
  match s with
  | EmptyString => true
  | String c s' => Js.isDigit c && allDigits s'
  end.

(** The item holds an element [<tag>...</tag>]; the CDATA form is one. *)
Definition hasTag (tag item : string) : Prop :=
  exists a g b : string,
    item = a ++ ("<" ++ tag ++ ">") ++ g ++ ("</" ++ tag ++ ">") ++ b.

(** [d] is a numeric token of a link of the item: [post-d-] stands inside
    a [<link>...</link>]. *)
Definition linkToken (d item : string) : Prop :=
  d <> "" /\ allDigits d = true /\
  exists a u v b : string,
    item = a ++ "<link>" ++ (u ++ "post-" ++ d ++ "-" ++ v) ++ "</link>" ++ b.

(** The identifier of the item at [index] when its link gives none. *)
Definition fallbackId (index : nat) : string := "item-" ++ Js.ofNat index.

(** A map over the rows of [push_logs] that leaves a row as it is or
    finishes it. *)
Definition settles (f : PushLog.t -> PushLog.t) : Prop :=
  forall pl, f pl = pl \/ exists m, f pl = finished m pl.

(** What the loop over the filters does once it meets a filter that
    matches. *)
Definition recordMatch (post : DBPost.t) (user : User.t) (keywords : KeywordSub.t)
    (s : LogCounts * D1Database) : completion unit * (LogCounts * D1Database) :=
  let counts := incTotal (fst s) in
  let db := snd s in
  match D1.due db with
  | Some e => (Throw e, (counts, D1.next db))
  | None =>
      match findPushLog (User.id user) (DBPost.post_id post)
              (KeywordSub.id keywords) db with
      | Some _ => (Normal tt, (counts, D1.next db))
      | None =>
          match D1.due (D1.next db) with
          | Some e => (Throw e, (counts, D1.next (D1.next db)))
          | None =>
              (Normal tt,
               (incCreated counts,
                addPushLog (User.id user) (User.chat_id user)
                  (DBPost.post_id post) (KeywordSub.id keywords)
                  (D1.next (D1.next db))))
          end
      end
  end.

(** What marking every post of a batch does to one row of [posts]. *)
Definition markedBy (batch : list DBPost.t) (r : DBPost.t) : DBPost.t :=
  if existsb (fun p => D1.eqNull (DBPost.post_id r) (DBPost.post_id p)) batch
  then setPushed r else r.

(** ** Entry points *)

(** The worker's cron entry: ingestion, then dispatch. *)
Definition scheduled (feed : FetchOutcome) (api : BotApi) (botToken : string)
  : Task D1Database unit :=
  tryCatch
    (rssResult <- rssMonitorTask feed ;;
     pushResult <- pushTask api botToken ;;
     ret tt)
    (fun _ => ret tt).

(** The manual trigger kept for compatibility: ingestion only. *)
Definition handleScheduled (feed : FetchOutcome) : Task D1Database unit :=
  result <- rssMonitorTask feed ;;
  ret tt.

(** ** Notions used to state further properties *)

(** The filter with another count, and with other second and third
    keywords. *)
Definition withCount (n : Z) (ks : KeywordSub.t) : KeywordSub.t :=
  KeywordSub.mk (KeywordSub.id ks) (KeywordSub.user_id ks) n
    (KeywordSub.keyword1 ks) (KeywordSub.keyword2 ks) (KeywordSub.keyword3 ks)
    (KeywordSub.is_active ks).

Definition withSlots (k2 k3 : option string) (ks : KeywordSub.t) : KeywordSub.t :=
  KeywordSub.mk (KeywordSub.id ks) (KeywordSub.user_id ks)
    (KeywordSub.keywords_count ks) (KeywordSub.keyword1 ks) k2 k3
    (KeywordSub.is_active ks).

(** A post is unmatched. *)
Definition unmatched (p : DBPost.t) : bool := (DBPost.is_push p =? 0)%Z.

(** The link that a message carries for the post [n]. *)
Definition postUrl (n : Z) : string :=
  "https://www.nodeseek.com/post-" ++ Js.ofZ n ++ "-1".

(** The text made of the gaps and the items in turn: a gap, an item, a
    gap, and so on, ending with a gap. *)
Fixpoint weave (gaps items : list string) : string :=
  match gaps with
  | [] => ""
  | g :: gaps' =>
      g ++ match items with
           | [] => ""
           | m :: items' => m ++ weave gaps' items'
           end
  end.

(** The row is the pending obligation of the user for the post by the
    filter. *)
Definition obligationOf (u : User.t) (p : DBPost.t) (ks : KeywordSub.t)
    (row : PushLog.t) : Prop :=
  PushLog.user_id row = User.id u
  /\ PushLog.chat_id row = User.chat_id u
  /\ PushLog.post_id row = DBPost.post_id p
  /\ PushLog.sub_id row = KeywordSub.id ks
  /\ PushLog.push_status row = 0%Z
  /\ PushLog.error_message row = None.

(** The row is the obligation of one of the users for a post of the batch
    by an active filter of that user that matches the post. *)
Definition madeFor (users : list User.t) (subs : list KeywordSub.t)
    (batch : list DBPost.t) (row : PushLog.t) : Prop :=
  exists u p ks,
    In u users /\ In p batch /\ In ks subs
    /\ KeywordSub.user_id ks = User.id u
    /\ KeywordSub.is_active ks = 1%Z
    /\ matchKeywords p ks = true
    /\ obligationOf u p ks row.

(** A map over the rows of [posts] that leaves a row as it is or marks it
    as matched. *)
Definition marks (g : DBPost.t -> DBPost.t) : Prop :=
  forall r, g r = r \/ g r = setPushed r.

(** The key of a row of the ledger: subscriber, post and filter. *)
Definition keyOf (pl : PushLog.t) : Z * option Z * Z :=
  (PushLog.user_id pl, PushLog.post_id pl, PushLog.sub_id pl).

(** What fan-out for the users and the batch may do between two states of
    [createPushLogs]. *)
Definition fansOut (users : list User.t) (batch : list DBPost.t)
    (s s' : LogCounts * D1Database) : Prop :=
  D1.users (snd s') = D1.users (snd s)
  /\ D1.keywords_sub (snd s') = D1.keywords_sub (snd s)
  /\ (exists new,
        D1.push_logs (snd s') = (D1.push_logs (snd s) ++ new)%list
        /\ createdLogs (fst s') = createdLogs (fst s) + length new
        /\ totalLogs (fst s) + length new <= totalLogs (fst s')
        /\ Forall (madeFor users (D1.keywords_sub (snd s)) batch) new)
  /\ (exists g, marks g /\ D1.posts (snd s') = map g (D1.posts (snd s)))
  /\ ((forall p, In p batch -> DBPost.post_id p <> None) ->
      NoDup (map keyOf (D1.push_logs (snd s))) ->
      NoDup (map keyOf (D1.push_logs (snd s')))).

(** The send for a row of the dispatcher's query is reported blocked. *)
Definition blockedFor (api : BotApi) (botToken : string) (log : PendingLog.t)
  : Prop :=
  userBlocked
    (sendTelegramMessage api botToken (PendingLog.chat_id log) (postOfLog log)
       (matchedKeywordsOf log)) = Some true.

(** A map over the rows of [push_logs] that leaves a row as it is or
    finishes it, and finishes only rows of the obligations [batch]. *)
Definition finishes (batch : list PendingLog.t) (f : PushLog.t -> PushLog.t)
  : Prop :=
  forall pl,
    f pl = pl
    \/ (In (PushLog.id pl) (map PendingLog.id batch)
        /\ exists m, f pl = finished m pl).

(** A map over the rows of [users] that leaves a row as it is or sets its
    [is_active] to 0, and does so only for the chat of an obligation of
    [batch] whose send is reported blocked. *)
Definition switchesOff (api : BotApi) (botToken : string)
    (batch : list PendingLog.t) (h : User.t -> User.t) : Prop :=
  forall u,
    h u = u
    \/ (h u = User.mk (User.id u) (User.chat_id u) 0
        /\ exists log, In log batch
             /\ PendingLog.chat_id log = User.chat_id u
             /\ blockedFor api botToken log).

(** What a run of the dispatch loop over [batch] may change. *)
Definition dispatches (api : BotApi) (botToken : string)
    (batch : list PendingLog.t) (db db' : D1Database) : Prop :=
  D1.posts db' = D1.posts db
  /\ D1.keywords_sub db' = D1.keywords_sub db
  /\ (exists f, finishes batch f
        /\ D1.push_logs db' = map f (D1.push_logs db))
  /\ (exists h, switchesOff api botToken batch h
        /\ D1.users db' = map h (D1.users db)).

(** The sends of [batch] that succeed. *)
Definition delivered (api : BotApi) (botToken : string)
    (batch : list PendingLog.t) : list PendingLog.t :=
  filter (fun log =>
            success (sendTelegramMessage api botToken (PendingLog.chat_id log)
                       (postOfLog log) (matchedKeywordsOf log)))
    batch.

(** The ledger of [db] holds the obligation that fan-out would make for
    [u] and [p]: a row with the key of [u], [p] and the first active filter
    of [u] that matches [p], when there is one. *)
Definition covered (db : D1Database) (u : User.t) (p : DBPost.t) : Prop :=
  forall pre ks rest,
    userKeywords (User.id u) db = (pre ++ ks :: rest)%list ->
    Forall (fun k => matchKeywords p k = false) pre ->
    matchKeywords p ks = true ->
    exists pl, In pl (D1.push_logs db)
               /\ hasKey (User.id u) (DBPost.post_id p) (KeywordSub.id ks) pl
                  = true.

(** Every byte of [s] is an ASCII character. *)
Fixpoint ascii7 (s : string) : bool :=
  match s with
  | EmptyString => true
  | String c r => (Js.byte c <? 128)%Z && ascii7 r
  end.

(** The small letter of an ASCII capital; any other character as it is. *)
Definition smallLetter (c : ascii) : ascii :=
  if (65 <=? nat_of_ascii c)%nat && (nat_of_ascii c <=? 90)%nat
  then ascii_of_nat (nat_of_ascii c + 32)
  else c.

(** [s] with its ASCII capitals made small: what folding the case comes to
    on a text of ASCII characters. *)
Fixpoint smallLetters (s : string) : string :=
  match s with
  | EmptyString => EmptyString
  | String c r => String (smallLetter c) (smallLetters r)
  end.

(** ** Sample inputs *)

Module Sample.

(** A feed of one item, titled Hello, whose link holds the identifier 42. *)
Definition helloFeed : string :=
  "<rss><channel><item><title><![CDATA[ Hello ]]></title><link>https://www.nodeseek.com/post-42-1</link><dc:creator>bob</dc:creator></item></channel></rss>".

Definition helloItem : string :=
  "<item><title><![CDATA[ Hello ]]></title><link>https://www.nodeseek.com/post-42-1</link><dc:creator>bob</dc:creator></item>".

(** The item number [i] of a generated feed: titled Hello, identifier [i]. *)
Definition itemOf (i : nat) : string :=
  "<item><title>Hello " ++ Js.ofNat i
  ++ "</title><link>https://www.nodeseek.com/post-" ++ Js.ofNat i
  ++ "-1</link></item>".

(** A feed of [n] items with the identifiers 1 to [n]. *)
Definition feedOf (n : nat) : string :=
  "<rss><channel>" ++ String.concat "" (map itemOf (seq 1 n))
  ++ "</channel></rss>".

Definition post1 : RSSPost.t := RSSPost.mk "1" "Hello 1" "" "" "未分类" "未知作者".
Definition post2 : RSSPost.t := RSSPost.mk "2" "Hello 2" "" "" "未分类" "未知作者".

(** One active subscriber with one active filter, the keyword hello. *)
Definition subscriber : User.t := User.mk 7 1001 1.
Definition helloFilter : KeywordSub.t :=
  KeywordSub.mk 3 7 1 (Some "hello") None None 1.

(** A store with the subscriber and no post, and the given fate of the
    coming statements. *)
Definition freshStore (faults : list (option JsError.t)) : D1Database :=
  D1.mk [] [subscriber] [helloFilter] [] 0 faults.

(** The store after the two posts were saved and before they are fanned
    out. *)
Definition savedStore (faults : list (option JsError.t)) : D1Database :=
  D1.mk
    [ DBPost.mk 1 (Some 1%Z) "Hello 1" "" "" "未分类" "未知作者" 0 0;
      DBPost.mk 2 (Some 2%Z) "Hello 2" "" "" "未分类" "未知作者" 0 1 ]
    [subscriber] [helloFilter] [] 2 faults.

(** The store after [helloFeed] was ingested: post 42 is matched and one
    obligation is pending. *)
Definition pendingStore (faults : list (option JsError.t)) : D1Database :=
  D1.mk
    [ DBPost.mk 1 (Some 42%Z) "Hello" "" "" "未分类" "bob" 1 0 ]
    [subscriber] [helloFilter]
    [ PushLog.mk 1 7 1001 (Some 42%Z) 3 0 None 1 ]
    2 faults.

(** The row the dispatcher reads from [pendingStore]. *)
Definition pendingLog : PendingLog.t :=
  PendingLog.mk 1 7 3 0 None 1 "Hello" "" "未分类" "bob" 42 (Some "hello") None
    None 1001.

(** An error of the store. *)
Definition storeError : JsError.t :=
  JsError.mk (Some "D1_ERROR: no such table") None "Error: D1_ERROR: no such table".

(** A channel that delivers every message. *)
Definition delivers : BotApi := fun _ _ _ => None.

(** A channel whose recipient has blocked the bot. *)
Definition blocked : BotApi :=
  fun _ _ _ =>
    Some (JsError.mk
            (Some "Call to 'sendMessage' failed! (403: Forbidden: bot was blocked by the user)")
            (Some "Forbidden: bot was blocked by the user")
            "GrammyError: Call to 'sendMessage' failed! (403: Forbidden: bot was blocked by the user)").

(** A channel that refuses with the same words in capitals, one K being
    the Kelvin sign (U+212A). *)
Definition shouting : BotApi :=
  fun _ _ _ =>
    Some (JsError.mk
            (Some "FORBIDDEN: BOT WAS BLOCKED BY THE USER")
            None
            "GrammyError: FORBIDDEN: BOT WAS BLOCKED BY THE USER").

(** A feed of one item that has no link, so no identifier. *)
Definition noLinkFeed : string :=
  "<rss><channel><item><title>Hello</title></item></channel></rss>".

(** The store after three runs of ingestion on a feed of 101 items: 101
    obligations are pending. *)
Definition busyStore : D1Database :=
  let run := fun db => snd (rssMonitorTask (Response true (feedOf 101)) db) in
  run (run (run (freshStore []))).

End Sample.

(** ** Tactics *)

(** Brings nested appends of strings to one shape, given the lemma of
    associativity. *)
Ltac str_assoc assoc := repeat (progress (cbn [append]; rewrite ?assoc)).

(** * Properties *)

(** ** Strings *)

Lemma startsWith_app (p r : string) : Js.startsWith (p ++ r) p = true.
Proof.
  induction p as [|c p IH]; simpl.
  - destruct r; reflexivity.
  - now rewrite Ascii.eqb_refl.
Qed.

Lemma startsWith_inv (s p : string) :
  Js.startsWith s p = true -> exists r, s = p ++ r.
Proof.
  revert s; induction p as [|c p IH]; intros s H.
  - now exists s.
  - destruct s as [|d s]; simpl in H; [discriminate|].
    destruct (Ascii.eqb c d) eqn:E; [|discriminate].
    apply Ascii.eqb_eq in E; subst d.
    destruct (IH _ H) as [r ->]. now exists r.
Qed.

Lemma includes_iff (s t : string) : Js.includes s t = true <-> occursIn t s.
Proof.
  unfold occursIn. induction s as [|c s IH]; cbn [Js.includes].
  - destruct (Js.startsWith "" t) eqn:E.
    + split; [intros _|reflexivity].
      apply startsWith_inv in E. destruct E as [r E]. now exists "", r.
    + split; [discriminate|]. intros (a & b & H).
      destruct a; cbn in H; [|discriminate].
      rewrite H, startsWith_app in E. discriminate.
  - destruct (Js.startsWith (String c s) t) eqn:E.
    + split; [intros _|reflexivity].
      apply startsWith_inv in E. destruct E as [r E]. now exists "", r.
    + rewrite IH. split.
      * intros (a & b & ->). now exists (String c a), b.
      * intros (a & b & H). destruct a as [|d a]; cbn in H.
        -- rewrite H, startsWith_app in E. discriminate.
        -- injection H as _ ->. now exists a, b.
Qed.

Lemma truthy_iff (s : string) : Js.truthy s = true <-> s <> "".
Proof. destruct s; simpl; split; congruence. Qed.

Lemma encode1_cons (cp : Z) : exists a t, Js.encode1 cp = String a t.
Proof.
  unfold Js.encode1.
  repeat match goal with |- context [if ?b then _ else _] => destruct b end;
    eexists _, _; reflexivity.
Qed.

Lemma encode_cons (cp : Z) (l : list Z) :
  exists a t, Js.encode (cp :: l) = String a t.
Proof.
  cbn [Js.encode]. destruct (encode1_cons cp) as (a & t & ->).
  now exists a, (t ++ Js.encode l).
Qed.

Lemma lowerAll_cons (behind : bool) (c : Z) (l : list Z) :
  exists c' l', Js.lowerAll behind (c :: l) = c' :: l'.
Proof.
  cbn [Js.lowerAll].
  destruct (c =? 931)%Z; [|destruct (c =? 304)%Z]; eexists _, _; reflexivity.
Qed.

Lemma truthy_toLowerCase (s : string) : Js.truthy (Js.toLowerCase s) = Js.truthy s.
Proof.
  destruct s as [|c r]; [reflexivity|].
  unfold Js.toLowerCase, Js.decode. cbn [Js.decodeFrom].
  destruct (lowerAll_cons false (fst (Js.decode1 (String c r)))
              (Js.decodeFrom (snd (Js.decode1 (String c r)) - 1) r))
    as (c' & l' & ->).
  now destruct (encode_cons c' l') as (a & t & ->).
Qed.

Lemma app_assoc_s (a b c : string) : (a ++ b) ++ c = a ++ b ++ c.
Proof. induction a as [|x a IH]; simpl; [reflexivity|now rewrite IH]. Qed.

Lemma length_app_s (a b : string) :
  String.length (a ++ b) = String.length a + String.length b.
Proof. induction a as [|x a IH]; simpl; [reflexivity|now rewrite IH]. Qed.

(** ** Case folding *)

Open Scope list_scope.

Lemma continues_ascii (c : ascii) :
  (Js.byte c <? 128)%Z = true -> Js.continues c = false.
Proof.
  unfold Js.continues. intros H. apply Z.ltb_lt in H.
  destruct (Z.leb_spec 128 (Js.byte c)); [lia|reflexivity].
Qed.

(** A character is read the same whatever follows it, once an ASCII
    character follows: the bytes of one character never run into it. *)
Lemma decode1_before_ascii (a : string) (c : ascii) (b : string) :
  a <> ""%string -> (Js.byte c <? 128)%Z = true ->
  Js.decode1 (a ++ String c b) = Js.decode1 a.
Proof.
  intros N A. pose proof (continues_ascii c A) as K.
  destruct a as [|c0 [|c1 [|c2 [|c3 a]]]]; [now elim N|..];
    destruct b as [|d0 [|d1 [|d2 b]]];
    unfold Js.decode1, Js.two, Js.three, Js.four; cbn [append];
    repeat first [rewrite K | rewrite andb_false_r | progress (cbn [andb])];
    reflexivity.
Qed.

Lemma decode1_length (s : string) : snd (Js.decode1 s) <= String.length s.
Proof.
  destruct s as [|c0 r]; [apply Nat.le_refl|].
  unfold Js.decode1. destruct (Js.byte c0 <? 128)%Z; [cbn; lia|].
  destruct (Js.two (String c0 r)) eqn:T2.
  { destruct r as [|c1 r]; [discriminate T2|cbn; lia]. }
  destruct (Js.three (String c0 r)) eqn:T3.
  { destruct r as [|c1 [|c2 r]]; try discriminate T3. cbn; lia. }
  destruct (Js.four (String c0 r)) eqn:T4.
  { destruct r as [|c1 [|c2 [|c3 r]]]; try discriminate T4. cbn; lia. }
  cbn; lia.
Qed.

Lemma decodeFrom_before_ascii (a : string) (c : ascii) (b : string) (k : nat) :
  (Js.byte c <? 128)%Z = true -> k <= String.length a ->
  Js.decodeFrom k (a ++ String c b)
  = Js.decodeFrom k a ++ Js.decode (String c b).
Proof.
  intros A. revert k. induction a as [|c0 a IH]; intros k L.
  - cbn [String.length] in L. assert (k = 0) by lia. subst k. reflexivity.
  - cbn [String.length] in L. cbn [append Js.decodeFrom]. destruct k as [|k].
    + change (String c0 (a ++ String c b)) with (String c0 a ++ String c b)%string.
      rewrite (decode1_before_ascii (String c0 a) c b); [|discriminate|exact A].
      rewrite <- app_comm_cons. f_equal. apply IH.
      pose proof (decode1_length (String c0 a)) as H. cbn [String.length] in H.
      lia.
    + apply IH. lia.
Qed.

Lemma decode_ascii (c : ascii) (b : string) :
  (Js.byte c <? 128)%Z = true ->
  Js.decode (String c b) = Js.byte c :: Js.decode b.
Proof.
  intros A. unfold Js.decode. cbn [Js.decodeFrom]. unfold Js.decode1.
  rewrite A. reflexivity.
Qed.

Lemma encode_app (l1 l2 : list Z) :
  Js.encode (l1 ++ l2) = (Js.encode l1 ++ Js.encode l2)%string.
Proof.
  induction l1 as [|c l1 IH]; [reflexivity|].
  rewrite <- app_comm_cons. cbn [Js.encode]. now rewrite IH, app_assoc_s.
Qed.

(** Lower-casing goes through a space: the space is neither cased nor
    case-ignorable, so no letter on one side of it sees a letter on the
    other. *)
Lemma casedAhead_space (l l2 : list Z) :
  Js.casedAhead (l ++ 32%Z :: l2) = Js.casedAhead l.
Proof.
  induction l as [|c l IH]; [reflexivity|].
  rewrite <- app_comm_cons. cbn [Js.casedAhead]. now rewrite IH.
Qed.

Lemma lowerAll_space (behind : bool) (l l2 : list Z) :
  Js.lowerAll behind (l ++ 32%Z :: l2)
  = Js.lowerAll behind l ++ 32%Z :: Js.lowerAll false l2.
Proof.
  revert behind. induction l as [|c l IH]; intros behind.
  - change (Js.lowerAll behind ([] ++ 32%Z :: l2))
      with ([Js.lowerOf 32] ++ Js.lowerAll (Js.after behind 32) l2).
    change (Js.after behind 32) with false.
    change (Js.lowerOf 32) with 32%Z. reflexivity.
  - rewrite <- app_comm_cons. cbn [Js.lowerAll].
    rewrite IH, casedAhead_space. now rewrite <- app_assoc.
Qed.

Lemma toLowerCase_space (a b : string) :
  Js.toLowerCase (a ++ " " ++ b)
  = (Js.toLowerCase a ++ " " ++ Js.toLowerCase b)%string.
Proof.
  unfold Js.toLowerCase, Js.decode.
  change (" " ++ b)%string with (String " " b).
  rewrite (decodeFrom_before_ascii a " " b 0 eq_refl (Nat.le_0_l _)).
  rewrite (decode_ascii " " b eq_refl).
  change (Js.byte " ") with 32%Z.
  rewrite lowerAll_space, encode_app. reflexivity.
Qed.

Lemma searchTextOf_case (post post' : DBPost.t) :
  Js.toLowerCase (DBPost.title post) = Js.toLowerCase (DBPost.title post') ->
  Js.toLowerCase (DBPost.content post) = Js.toLowerCase (DBPost.content post') ->
  Js.toLowerCase (DBPost.category post) = Js.toLowerCase (DBPost.category post') ->
  Js.toLowerCase (DBPost.creator post) = Js.toLowerCase (DBPost.creator post') ->
  searchTextOf post = searchTextOf post'.
Proof.
  intros T C G A. unfold searchTextOf. rewrite !toLowerCase_space.
  now rewrite T, C, G, A.
Qed.

Lemma lowerAll_prefix (behind : bool) (l1 l2 : list Z) :
  exists pre behind',
    Js.lowerAll behind (l1 ++ l2) = pre ++ Js.lowerAll behind' l2.
Proof.
  revert behind. induction l1 as [|c l1 IH]; intros behind.
  - now exists [], behind.
  - rewrite <- app_comm_cons. cbn [Js.lowerAll].
    destruct (IH (Js.after behind c)) as (pre & b' & ->).
    eexists _, b'. now rewrite app_assoc.
Qed.

Lemma lowerAll_ascii (behind : bool) (p : string) (l2 : list Z) :
  ascii7 p = true ->
  exists behind',
    Js.lowerAll behind (map Js.byte (list_ascii_of_string p) ++ l2)
    = map Js.lowerOf (map Js.byte (list_ascii_of_string p))
      ++ Js.lowerAll behind' l2.
Proof.
  revert behind. induction p as [|c p IH]; intros behind A.
  - now exists behind.
  - cbn [ascii7] in A. apply andb_true_iff in A. destruct A as [C A].
    apply Z.ltb_lt in C.
    cbn [list_ascii_of_string map]. rewrite <- app_comm_cons.
    cbn [Js.lowerAll].
    destruct (Z.eqb_spec (Js.byte c) 931); [lia|].
    destruct (Z.eqb_spec (Js.byte c) 304); [lia|].
    destruct (IH (Js.after behind (Js.byte c)) A) as (b' & ->). now exists b'.
Qed.

Lemma decode_ascii7 (p b : string) :
  ascii7 p = true ->
  Js.decode (p ++ b) = map Js.byte (list_ascii_of_string p) ++ Js.decode b.
Proof.
  induction p as [|c p IH]; intros A; [reflexivity|].
  cbn [ascii7] in A. apply andb_true_iff in A. destruct A as [C A].
  cbn [append list_ascii_of_string map].
  rewrite (decode_ascii c (p ++ b) C), (IH A). reflexivity.
Qed.

Lemma append_nil_r (s : string) : (s ++ "")%string = s.
Proof. induction s as [|c s IH]; cbn [append]; [reflexivity|now rewrite IH]. Qed.

(** Lower-casing a text that holds an ASCII phrase gives a text that holds
    the lower-cased phrase: an ASCII letter maps the same way wherever it
    stands. *)
Lemma toLowerCase_within (a p b : string) :
  ascii7 p = true -> p <> ""%string ->
  occursIn (Js.toLowerCase p) (Js.toLowerCase (a ++ p ++ b)).
Proof.
  intros A N. unfold occursIn, Js.toLowerCase.
  assert (E : Js.decode (a ++ p ++ b)
              = Js.decode a ++ map Js.byte (list_ascii_of_string p)
                ++ Js.decode b).
  { rewrite <- (decode_ascii7 p b A).
    destruct p as [|c p]; [now elim N|].
    cbn [ascii7] in A. apply andb_true_iff in A. destruct A as [C _].
    cbn [append]. unfold Js.decode at 1.
    now rewrite (decodeFrom_before_ascii a c (p ++ b) 0 C (Nat.le_0_l _)). }
  rewrite E.
  destruct (lowerAll_prefix false (Js.decode a)
              (map Js.byte (list_ascii_of_string p) ++ Js.decode b))
    as (pre & b1 & ->).
  destruct (lowerAll_ascii b1 p (Js.decode b) A) as (b2 & ->).
  assert (P : Js.decode p = map Js.byte (list_ascii_of_string p) ++ []).
  { rewrite <- (append_nil_r p) at 1. now rewrite (decode_ascii7 p "" A). }
  rewrite P. destruct (lowerAll_ascii false p [] A) as (b3 & ->).
  cbn [Js.lowerAll]. rewrite app_nil_r, !encode_app.
  eexists _, _. reflexivity.
Qed.

(** On a text of ASCII characters lower-casing makes the capitals small
    and nothing else. *)
Lemma encode1_lowerOf_ascii (c : ascii) :
  (Js.byte c <? 128)%Z = true ->
  Js.encode1 (Js.lowerOf (Js.byte c)) = String (smallLetter c) EmptyString.
Proof.
  destruct c as [b0 b1 b2 b3 b4 b5 b6 b7].
  destruct b7; [intros H; exfalso; revert H;
                destruct b0, b1, b2, b3, b4, b5, b6; vm_compute; discriminate|].
  intros _. destruct b0, b1, b2, b3, b4, b5, b6; vm_compute; reflexivity.
Qed.

Lemma toLowerCase_ascii7 (s : string) :
  ascii7 s = true -> Js.toLowerCase s = smallLetters s.
Proof.
  intros A. unfold Js.toLowerCase.
  assert (P : Js.decode s = map Js.byte (list_ascii_of_string s) ++ []).
  { rewrite <- (append_nil_r s) at 1. now rewrite (decode_ascii7 s ""%string A). }
  rewrite P. destruct (lowerAll_ascii false s [] A) as (b & ->).
  cbn [Js.lowerAll]. rewrite app_nil_r. clear P b.
  induction s as [|c s IH]; [reflexivity|].
  cbn [ascii7] in A. apply andb_true_iff in A. destruct A as [C A].
  cbn [list_ascii_of_string map Js.encode smallLetters].
  rewrite (encode1_lowerOf_ascii c C), (IH A). reflexivity.
Qed.

Open Scope string_scope.

(** ** The matcher *)

Lemma slot_check (searchText : string) (slot : option string) :
  match option_map Js.toLowerCase slot with
  | Some k => Js.truthy k && Js.includes searchText k
  | None => false
  end = true <-> slotPresent searchText slot.
Proof.
  unfold slotPresent. destruct slot as [k|]; simpl.
  - rewrite andb_true_iff, truthy_toLowerCase, truthy_iff, includes_iff.
    split.
    + intros [H1 H2]. now exists k.
    + intros (k' & E & H1 & H2). injection E as <-. now split.
  - split; [discriminate|]. intros (k & E & _). discriminate.
Qed.

Lemma matchKeywords_slots (post : DBPost.t) (keywords : KeywordSub.t) :
  matchKeywords post keywords =
  slotCheck (searchTextOf post) (KeywordSub.keyword1 keywords)
  && (if (KeywordSub.keywords_count keywords =? 1)%Z then true
      else if (KeywordSub.keywords_count keywords =? 2)%Z
           then slotCheck (searchTextOf post) (KeywordSub.keyword2 keywords)
      else if (KeywordSub.keywords_count keywords =? 3)%Z
           then slotCheck (searchTextOf post) (KeywordSub.keyword2 keywords)
                && slotCheck (searchTextOf post) (KeywordSub.keyword3 keywords)
      else false).
Proof.
  unfold matchKeywords, slotCheck.
  destruct (option_map Js.toLowerCase (KeywordSub.keyword1 keywords)) as [k1|];
    [|reflexivity].
  destruct (Js.truthy k1); [|reflexivity].
  destruct (Js.includes (searchTextOf post) k1); [|reflexivity].
  cbn [negb orb andb].
  destruct (KeywordSub.keywords_count keywords =? 1)%Z; [reflexivity|].
  destruct (KeywordSub.keywords_count keywords =? 2)%Z.
  { destruct (option_map Js.toLowerCase (KeywordSub.keyword2 keywords)) as [k2|];
      [|reflexivity].
    now destruct (Js.truthy k2). }
  destruct (KeywordSub.keywords_count keywords =? 3)%Z; [|reflexivity].
  destruct (option_map Js.toLowerCase (KeywordSub.keyword2 keywords)) as [k2|];
    [|reflexivity].
  destruct (option_map Js.toLowerCase (KeywordSub.keyword3 keywords)) as [k3|].
  - destruct (Js.truthy k2), (Js.truthy k3); cbn [andb]; try reflexivity.
    now rewrite andb_false_r.
  - now rewrite andb_false_r.
Qed.

(** C3. [matchKeywords] folds the case of title, content, category and
    creator, joined by spaces, into one search text.  It answers true
    exactly when keyword 1 is filled and occurs in it and the count is 1, or
    the count is 2 and keyword 2 is filled and occurs, or the count is 3 and
    keywords 2 and 3 are both filled and both occur.  Any other count, and
    any required slot that is empty, gives false.  Letter case plays no
    part: a post and a filter whose texts and keywords are those of [post]
    and [keywords] in another letter case (the same once lower-cased) get
    the same answer; and when the texts and a keyword are ASCII, the
    keyword is present exactly when it occurs in the texts once the
    capitals of both are made small. *)
Theorem matchKeywords_iff (post : DBPost.t) (keywords : KeywordSub.t) :
  let text :=
    DBPost.title post ++ " " ++ DBPost.content post ++ " "
    ++ DBPost.category post ++ " " ++ DBPost.creator post in
  let searchText := Js.toLowerCase text in
  (matchKeywords post keywords = true <->
   slotPresent searchText (KeywordSub.keyword1 keywords) /\
   (KeywordSub.keywords_count keywords = 1%Z
    \/ (KeywordSub.keywords_count keywords = 2%Z
        /\ slotPresent searchText (KeywordSub.keyword2 keywords))
    \/ (KeywordSub.keywords_count keywords = 3%Z
        /\ slotPresent searchText (KeywordSub.keyword2 keywords)
        /\ slotPresent searchText (KeywordSub.keyword3 keywords))))
  /\ (forall (post' : DBPost.t) (keywords' : KeywordSub.t),
        Js.toLowerCase (DBPost.title post') = Js.toLowerCase (DBPost.title post) ->
        Js.toLowerCase (DBPost.content post')
        = Js.toLowerCase (DBPost.content post) ->
        Js.toLowerCase (DBPost.category post')
        = Js.toLowerCase (DBPost.category post) ->
        Js.toLowerCase (DBPost.creator post')
        = Js.toLowerCase (DBPost.creator post) ->
        KeywordSub.keywords_count keywords'
        = KeywordSub.keywords_count keywords ->
        option_map Js.toLowerCase (KeywordSub.keyword1 keywords')
        = option_map Js.toLowerCase (KeywordSub.keyword1 keywords) ->
        option_map Js.toLowerCase (KeywordSub.keyword2 keywords')
        = option_map Js.toLowerCase (KeywordSub.keyword2 keywords) ->
        option_map Js.toLowerCase (KeywordSub.keyword3 keywords')
        = option_map Js.toLowerCase (KeywordSub.keyword3 keywords) ->
        matchKeywords post' keywords' = matchKeywords post keywords)
  /\ (forall k : string,
        ascii7 text = true -> ascii7 k = true ->
        (slotPresent searchText (Some k)
         <-> k <> "" /\ occursIn (smallLetters k) (smallLetters text))).
Proof.
  intros text searchText. split; [|split].
  - rewrite <- !slot_check.
    fold (slotCheck searchText (KeywordSub.keyword1 keywords)).
    fold (slotCheck searchText (KeywordSub.keyword2 keywords)).
    fold (slotCheck searchText (KeywordSub.keyword3 keywords)).
    rewrite matchKeywords_slots. fold text. fold searchText.
    rewrite andb_true_iff.
    destruct (Z.eqb_spec (KeywordSub.keywords_count keywords) 1) as [E1|N1].
    { rewrite E1. intuition. }
    destruct (Z.eqb_spec (KeywordSub.keywords_count keywords) 2) as [E2|N2].
    { rewrite E2. intuition (try lia). }
    destruct (Z.eqb_spec (KeywordSub.keywords_count keywords) 3) as [E3|N3].
    { rewrite E3, andb_true_iff. intuition (try lia). }
    intuition (try lia; try discriminate).
  - intros post' keywords' T C G A N K1 K2 K3. unfold matchKeywords.
    now rewrite (searchTextOf_case post' post T C G A), N, K1, K2, K3.
  - intros k At Ak. unfold slotPresent. subst searchText.
    rewrite (toLowerCase_ascii7 text At). split.
    + intros (k0 & E & Ne & O). injection E as <-.
      rewrite (toLowerCase_ascii7 k Ak) in O. now split.
    + intros [Ne O]. exists k. rewrite (toLowerCase_ascii7 k Ak). auto.
Qed.

(** ** The feed parser *)

Lemma drop_app (a b : string) : Js.drop (String.length a) (a ++ b) = b.
Proof. induction a as [|x a IH]; simpl; [now destruct b|exact IH]. Qed.

Lemma dotLazy_inv (close s g : string) :
  Regex.dotLazy close s = Some g -> exists b, s = g ++ close ++ b.
Proof.
  revert g; induction s as [|c s IH]; intros g; cbn [Regex.dotLazy].
  - destruct (Js.startsWith "" close) eqn:E; [|discriminate].
    intros [= <-]. apply startsWith_inv in E. exact E.
  - destruct (Js.startsWith (String c s) close) eqn:E.
    + intros [= <-]. apply startsWith_inv in E. exact E.
    + destruct (Regex.lineTerminatorAt (String c s)); [discriminate|].
      destruct (Regex.dotLazy close s) as [g'|]; [|discriminate].
      intros [= <-]. destruct (IH g' eq_refl) as [b ->]. now exists b.
Qed.

Lemma anyLazy_inv (close s g : string) :
  Regex.anyLazy close s = Some g -> exists b, s = g ++ close ++ b.
Proof.
  revert g; induction s as [|c s IH]; intros g; cbn [Regex.anyLazy].
  - destruct (Js.startsWith "" close) eqn:E; [|discriminate].
    intros [= <-]. apply startsWith_inv in E. exact E.
  - destruct (Js.startsWith (String c s) close) eqn:E.
    + intros [= <-]. apply startsWith_inv in E. exact E.
    + destruct (Regex.anyLazy close s) as [g'|]; [|discriminate].
      intros [= <-]. destruct (IH g' eq_refl) as [b ->]. now exists b.
Qed.

Lemma group1At_inv (open close s g : string) :
  Regex.group1At open close s = Some g -> exists b, s = open ++ g ++ close ++ b.
Proof.
  unfold Regex.group1At. intros H.
  destruct (Js.startsWith s open) eqn:E; [|discriminate].
  apply startsWith_inv in E. destruct E as [r ->].
  rewrite drop_app in H. apply dotLazy_inv in H. destruct H as [b ->].
  now exists b.
Qed.

Lemma group1_inv (open close s g : string) :
  Regex.group1 open close s = Some g ->
  exists a b, s = a ++ open ++ g ++ close ++ b.
Proof.
  induction s as [|c s IH]; cbn [Regex.group1].
  - destruct (Regex.group1At open close "") eqn:E; [|discriminate].
    intros [= ->]. destruct (group1At_inv _ _ _ _ E) as [b Hb]. now exists "", b.
  - destruct (Regex.group1At open close (String c s)) eqn:E.
    + intros [= ->]. destruct (group1At_inv _ _ _ _ E) as [b Hb]. now exists "", b.
    + intros H. destruct (IH H) as (a & b & ->). now exists (String c a), b.
Qed.

Lemma element_hasTag (tag item g : string) :
  element tag item = Some g -> hasTag tag item.
Proof.
  unfold element, Js.or_else, hasTag.
  destruct (Regex.group1 ("<" ++ tag ++ "><![CDATA[") ("]]></" ++ tag ++ ">") item)
    as [g1|] eqn:E1.
  - intros _. apply group1_inv in E1. destruct E1 as (a & b & ->).
    exists a, ("<![CDATA[" ++ g1 ++ "]]>"), b.
    now str_assoc app_assoc_s.
  - intros H. apply group1_inv in H. destruct H as (a & b & ->).
    now exists a, g, b.
Qed.

Lemma element_absent (tag item : string) :
  ~ hasTag tag item -> element tag item = None.
Proof.
  intros H. destruct (element tag item) as [g|] eqn:E; [|reflexivity].
  exfalso. eauto using element_hasTag.
Qed.

Lemma itemAt_inv (s m : string) :
  Regex.itemAt s = Some m ->
  exists body b, m = "<item>" ++ body ++ "</item>" /\ s = m ++ b.
Proof.
  unfold Regex.itemAt. intros H.
  destruct (Js.startsWith s "<item>") eqn:P; [|discriminate].
  apply startsWith_inv in P. destruct P as [r ->].
  cbn [Js.drop append] in H.
  destruct (Regex.anyLazy "</item>" r) as [body|] eqn:E; [|discriminate].
  injection H as <-. apply anyLazy_inv in E. destruct E as [b ->].
  exists body, b. split; [reflexivity|now str_assoc app_assoc_s].
Qed.

Lemma items_bound (s : string) (skip : nat) :
  13 * length (Regex.items skip s) <= String.length s - skip.
Proof.
  revert skip; induction s as [|c s IH]; intros skip; cbn [Regex.items].
  - simpl; lia.
  - destruct skip as [|k].
    + destruct (Regex.itemAt (String c s)) as [m|] eqn:E.
      * destruct (itemAt_inv _ _ E) as (body & b & -> & Hs).
        specialize (IH (String.length ("<item>" ++ body ++ "</item>") - 1)).
        assert (L : String.length (String c s)
                    = String.length (("<item>" ++ body ++ "</item>") ++ b))
          by now rewrite Hs.
        cbn [length]. rewrite !length_app_s in *. cbn [String.length] in *. lia.
      * specialize (IH 0). cbn [length String.length]. lia.
    + specialize (IH k). cbn [String.length]. lia.
Qed.

Lemma items_occurs (s : string) (skip : nat) :
  Regex.items skip s <> [] -> occursIn "<item>" s /\ occursIn "</item>" s.
Proof.
  revert skip; induction s as [|c s IH]; intros skip; cbn [Regex.items].
  - congruence.
  - assert (Tail : forall k, Regex.items k s <> [] ->
              occursIn "<item>" (String c s) /\ occursIn "</item>" (String c s)).
    { intros k H. destruct (IH k H) as [(a & b & E) (a' & b' & E')].
      split; [exists (String c a), b|exists (String c a'), b'];
        cbn [append]; now f_equal. }
    destruct skip as [|k]; [|apply Tail].
    destruct (Regex.itemAt (String c s)) as [m|] eqn:E; [|apply Tail].
    intros _. destruct (itemAt_inv _ _ E) as (body & b & -> & ->). split.
    + exists "", (body ++ "</item>" ++ b). now str_assoc app_assoc_s.
    + exists ("<item>" ++ body), b. now str_assoc app_assoc_s.
Qed.

Lemma forEachIndexed_length (its : list string) (k : nat) :
  length (forEachIndexed its k) = length its.
Proof. revert k; induction its; intros; simpl; auto. Qed.

Lemma forEachIndexed_nth (its : list string) (k i : nat) :
  nth_error (forEachIndexed its k) i =
  option_map (fun item => parseItem item (k + i)) (nth_error its i).
Proof.
  revert k i; induction its as [|x its IH]; intros k [|i]; simpl; auto.
  - now rewrite Nat.add_0_r.
  - rewrite IH. now rewrite Nat.add_succ_r.
Qed.

(** C8. For every input string the parser returns a list of posts, one
    for each item the text holds, at most one for every thirteen characters;
    the list is empty for the empty string and for any text that lacks an
    opening or a closing item tag.  No input makes it raise. *)
Theorem parseRSSXML_total (xmlText : string) :
  exists posts : list RSSPost.t,
    parseRSSXML xmlText = posts
    /\ length posts = length (Regex.items 0 xmlText)
    /\ 13 * length posts <= String.length xmlText
    /\ (xmlText = "" -> posts = [])
    /\ (~ occursIn "<item>" xmlText -> posts = [])
    /\ (~ occursIn "</item>" xmlText -> posts = []).
Proof.
  exists (parseRSSXML xmlText). unfold parseRSSXML.
  assert (Empty : Regex.items 0 xmlText = [] -> forEachIndexed (Regex.items 0 xmlText) 0 = [])
    by (now intros ->).
  repeat split.
  - apply forEachIndexed_length.
  - rewrite forEachIndexed_length. pose proof (items_bound xmlText 0). lia.
  - now intros ->.
  - intros H. apply Empty.
    destruct (Regex.items 0 xmlText) eqn:E; [reflexivity|].
    exfalso. apply H. apply (items_occurs xmlText 0). congruence.
  - intros H. apply Empty.
    destruct (Regex.items 0 xmlText) eqn:E; [reflexivity|].
    exfalso. apply H. apply (items_occurs xmlText 0). congruence.
Qed.

Lemma digits_inv (s d r : string) :
  Regex.digits s = (d, r) -> s = d ++ r /\ allDigits d = true.
Proof.
  revert d r; induction s as [|c s IH]; intros d r; cbn [Regex.digits].
  - intros [= <- <-]. now split.
  - destruct (Js.isDigit c) eqn:D.
    + destruct (Regex.digits s) as [d' r'].
      intros [= <- <-]. destruct (IH d' r' eq_refl) as [-> A].
      cbn [allDigits append]. now rewrite D, A.
    + intros [= <- <-]. now split.
Qed.

Lemma digits_app (d v : string) :
  allDigits d = true -> Regex.digits (d ++ String "-" v) = (d, String "-" v).
Proof.
  induction d as [|c d IH]; cbn [allDigits append Regex.digits].
  - reflexivity.
  - rewrite andb_true_iff. intros [D A]. now rewrite D, (IH A).
Qed.

Lemma postIdAt_inv (s d : string) :
  Regex.postIdAt s = Some d ->
  d <> "" /\ allDigits d = true /\ exists v, s = "post-" ++ d ++ "-" ++ v.
Proof.
  unfold Regex.postIdAt. intros H.
  destruct (Js.startsWith s "post-") eqn:P; [|discriminate].
  apply startsWith_inv in P. destruct P as [r ->].
  cbn [Js.drop append] in H.
  destruct (Regex.digits r) as [d0 r0] eqn:E.
  apply digits_inv in E. destruct E as [-> A].
  destruct (Js.truthy d0) eqn:T; [|discriminate].
  destruct (Js.startsWith r0 "-") eqn:Q; [|discriminate].
  cbn [andb] in H. injection H as ->.
  apply startsWith_inv in Q. destruct Q as [v ->].
  apply truthy_iff in T. repeat split; auto. now exists v.
Qed.

Lemma postId_inv (s d : string) :
  Regex.postId s = Some d ->
  d <> "" /\ allDigits d = true
  /\ exists u v, s = u ++ "post-" ++ d ++ "-" ++ v.
Proof.
  induction s as [|c s IH]; cbn [Regex.postId].
  - destruct (Regex.postIdAt "") eqn:E; [|discriminate].
    intros [= ->]. destruct (postIdAt_inv _ _ E) as (N & A & v & Hv).
    repeat split; auto. now exists "", v.
  - destruct (Regex.postIdAt (String c s)) eqn:E.
    + intros [= ->]. destruct (postIdAt_inv _ _ E) as (N & A & v & Hv).
      repeat split; auto. now exists "", v.
    + intros H. destruct (IH H) as (N & A & u & v & ->).
      repeat split; auto. now exists (String c u), v.
Qed.

Lemma postIdAt_here (d v : string) :
  d <> "" -> allDigits d = true ->
  Regex.postIdAt ("post-" ++ d ++ "-" ++ v) = Some d.
Proof.
  intros N A. unfold Regex.postIdAt.
  rewrite startsWith_app.
  change 5 with (String.length "post-"). rewrite drop_app.
  cbn [append]. rewrite (digits_app d v A).
  apply truthy_iff in N. cbn iota beta. rewrite N. reflexivity.
Qed.

Lemma postId_unfold (s : string) :
  Regex.postId s =
  match Regex.postIdAt s with
  | Some d => Some d
  | None => match s with
            | EmptyString => None
            | String _ s' => Regex.postId s'
            end
  end.
Proof. now destruct s. Qed.

Lemma postId_found (u d v : string) :
  d <> "" -> allDigits d = true ->
  Regex.postId (u ++ "post-" ++ d ++ "-" ++ v) <> None.
Proof.
  intros N A.
  induction u as [|c u IH].
  - cbn [append]. rewrite postId_unfold.
    change (String "p" (String "o" (String "s" (String "t" (String "-" (d ++ String "-" v))))))
      with ("post-" ++ d ++ "-" ++ v).
    rewrite (postIdAt_here d v N A). congruence.
  - rewrite postId_unfold.
    destruct (Regex.postIdAt _); [congruence|exact IH].
Qed.

Lemma fallbackId_inj (i j : nat) : fallbackId i = fallbackId j -> i = j.
Proof.
  unfold fallbackId, Js.ofNat. cbn [append]. intros [= H].
  apply DecimalNat.Unsigned.to_uint_inj.
  assert (E : NilEmpty.uint_of_string (NilEmpty.string_of_uint (Nat.to_uint i))
            = NilEmpty.uint_of_string (NilEmpty.string_of_uint (Nat.to_uint j)))
    by now rewrite H.
  rewrite !NilEmpty.usu in E. congruence.
Qed.

Lemma fallbackId_not_digits (i : nat) (d : string) :
  d <> "" -> allDigits d = true -> d <> fallbackId i.
Proof.
  intros N A ->. unfold fallbackId in A. cbn in A. discriminate.
Qed.

Lemma parseItem_id (item : string) (index : nat) :
  (linkToken (RSSPost.id (parseItem item index)) item
   /\ exists l, Regex.group1 "<link>" "</link>" item = Some l
                /\ Regex.postId l = Some (RSSPost.id (parseItem item index)))
  \/ (RSSPost.id (parseItem item index) = fallbackId index
      /\ Regex.postId
           (match Regex.group1 "<link>" "</link>" item with
            | Some l => l | None => "" end) = None).
Proof.
  unfold parseItem; cbn [RSSPost.id].
  destruct (Regex.group1 "<link>" "</link>" item) as [l|] eqn:L.
  - destruct (Regex.postId l) as [d|] eqn:P; [left|right; now split].
    split; [|now exists l].
    destruct (postId_inv _ _ P) as (N & A & u & v & ->).
    apply group1_inv in L. destruct L as (a & b & ->).
    repeat split; auto. now exists a, u, v, b.
  - right. split; reflexivity.
Qed.

(** C9. The post made from the item at [index] takes each field from its
    own element, and a field whose element is absent gets its default
    whatever the other elements are: the title, the category and the author
    their placeholders, the description the empty string.  Its identifier is
    a numeric token of the item's link, or else the fallback made from the
    index.  It is the fallback when the item has no such token, and a token
    of the first link of the item when that link holds one.  A fallback
    identifier is borne by no other post of the same parse. *)
Theorem parseRSSXML_item (xmlText : string) (index : nat) (item : string) :
  nth_error (Regex.items 0 xmlText) index = Some item ->
  exists post : RSSPost.t,
    nth_error (parseRSSXML xmlText) index = Some post
    /\ (~ hasTag "title" item -> RSSPost.title post = "无标题")
    /\ (~ hasTag "description" item -> RSSPost.description post = "")
    /\ (~ hasTag "category" item -> RSSPost.category post = "未分类")
    /\ (~ hasTag "dc:creator" item -> RSSPost.creator post = "未知作者")
    /\ (linkToken (RSSPost.id post) item \/ RSSPost.id post = fallbackId index)
    /\ ((forall d, ~ linkToken d item) -> RSSPost.id post = fallbackId index)
    /\ (forall l u d v,
          Regex.group1 "<link>" "</link>" item = Some l ->
          l = u ++ "post-" ++ d ++ "-" ++ v ->
          d <> "" -> allDigits d = true ->
          RSSPost.id post <> "" /\ allDigits (RSSPost.id post) = true
          /\ exists u' v', l = u' ++ "post-" ++ RSSPost.id post ++ "-" ++ v')
    /\ (forall j post',
          j <> index ->
          nth_error (parseRSSXML xmlText) j = Some post' ->
          RSSPost.id post = fallbackId index ->
          RSSPost.id post' <> RSSPost.id post).
Proof.
  intros Hitem. exists (parseItem item index).
  assert (Nth : forall j, nth_error (parseRSSXML xmlText) j =
            option_map (fun it => parseItem it j) (nth_error (Regex.items 0 xmlText) j))
    by (intros j; unfold parseRSSXML; now rewrite forEachIndexed_nth).
  split; [now rewrite Nth, Hitem|].
  split.
  { intros H. unfold parseItem; cbn [RSSPost.title].
    now rewrite (element_absent _ _ H). }
  split.
  { intros H. unfold parseItem; cbn [RSSPost.description].
    now rewrite (element_absent _ _ H). }
  split.
  { intros H. unfold parseItem; cbn [RSSPost.category].
    now rewrite (element_absent _ _ H). }
  split.
  { intros H. unfold parseItem; cbn [RSSPost.creator].
    now rewrite (element_absent _ _ H). }
  split.
  { destruct (parseItem_id item index) as [[T _]|[F _]]; auto. }
  split.
  { intros H. destruct (parseItem_id item index) as [[T _]|[F _]]; auto.
    now apply H in T. }
  split.
  { intros l u d v L -> N A.
    destruct (parseItem_id item index) as [[_ (l' & L' & P)]|[_ F]].
    - rewrite L in L'. injection L' as <-.
      destruct (postId_inv _ _ P) as (N' & A' & u' & v' & E).
      split; [exact N'|]. split; [exact A'|]. now exists u', v'.
    - rewrite L in F. now apply postId_found in F. }
  intros j post' Hj Hnth F E. rewrite Nth in Hnth.
  destruct (nth_error (Regex.items 0 xmlText) j) as [item'|]; [|discriminate].
  injection Hnth as <-. rewrite F in E.
  destruct (parseItem_id item' j) as [[(N & A & _) _]|[F' _]].
  - rewrite E in A. now apply (fallbackId_not_digits index) in A.
  - rewrite F' in E. now apply fallbackId_inj in E.
Qed.

(** ** Loops and statements *)

Open Scope list_scope.

Lemma forOf_app {S A : Type} (l1 l2 : list A) (body : A -> Task S unit) (s : S) :
  forOf (l1 ++ l2) body s =
  match forOf l1 body s with
  | (Normal _, s') => forOf l2 body s'
  | (Throw e, s') => (Throw e, s')
  end.
Proof.
  revert s; induction l1 as [|x l1 IH]; intros s; simpl.
  - reflexivity.
  - unfold bind. destruct (body x s) as [[u|e] s']; [apply IH|reflexivity].
Qed.

Lemma due_no_faults (db : D1Database) : D1.faults db = [] -> D1.due db = None.
Proof. unfold D1.due. now intros ->. Qed.

Lemma next_no_faults (db : D1Database) : D1.faults db = [] -> D1.next db = db.
Proof. destruct db; cbn. now intros ->. Qed.

(** ** The post store *)

Lemma savePost_eq (post : RSSPost.t) (n : nat) (db : D1Database) :
  savePost post (n, db) =
  match D1.due db with
  | Some e => (Throw e, (n, D1.next db))
  | None =>
      match findPost (D1.bound (Js.parseInt (RSSPost.id post))) db with
      | Some _ => (Normal tt, (n, D1.next db))
      | None =>
          match D1.due (D1.next db) with
          | Some e => (Throw e, (n, D1.next (D1.next db)))
          | None => (Normal tt, (S n, addPost post (D1.next (D1.next db))))
          end
      end
  end.
Proof.
  unfold savePost, bind, onState, onLocals, D1.query, D1.update, D1.statement.
  cbn [fst snd]. destruct (D1.due db); [reflexivity|].
  change (findPost (D1.bound (Js.parseInt (RSSPost.id post))) (D1.next db))
    with (findPost (D1.bound (Js.parseInt (RSSPost.id post))) db).
  destruct (findPost (D1.bound (Js.parseInt (RSSPost.id post))) db); [reflexivity|].
  cbn [fst snd]. destruct (D1.due (D1.next db)); reflexivity.
Qed.

Lemma findPost_none (key : option Z) (db : D1Database) :
  findPost key db = None ->
  forall r, In r (D1.posts db) -> D1.eqNull (DBPost.post_id r) key = false.
Proof.
  unfold findPost. intros H r Hr.
  destruct (find _ (D1.posts db)) eqn:F; [discriminate|].
  exact (find_none _ _ F r Hr).
Qed.

Lemma findPost_some (k : Z) (db : D1Database) :
  findPost (Some k) db <> None ->
  exists r, In r (D1.posts db) /\ DBPost.post_id r = Some k.
Proof.
  unfold findPost. intros H.
  destruct (find _ (D1.posts db)) as [r|] eqn:F; [|now elim H].
  apply find_some in F. destruct F as [Hr E]. exists r. split; [exact Hr|].
  unfold D1.eqNull in E. destruct (DBPost.post_id r); [|discriminate].
  apply Z.eqb_eq in E. now subst.
Qed.

Lemma save_loop (posts : list RSSPost.t) (n : nat) (db : D1Database) :
  exists r n' db' new,
    forOf posts savePost (n, db) = (r, (n', db'))
    /\ D1.posts db' = D1.posts db ++ new
    /\ n' = n + length new
    /\ D1.users db' = D1.users db
    /\ D1.keywords_sub db' = D1.keywords_sub db
    /\ D1.push_logs db' = D1.push_logs db
    /\ (forall before row after,
          new = before ++ row :: after ->
          (exists post st, In post posts /\ row = rowOfPost post st)
          /\ forall r, In r (D1.posts db ++ before) ->
               D1.eqNull (DBPost.post_id r) (DBPost.post_id row) = false).
Proof.
  revert n db; induction posts as [|post posts IH]; intros n db.
  - exists (Normal tt), n, db, []. cbn [forOf]. unfold ret.
    rewrite app_nil_r, Nat.add_0_r. repeat split; auto.
    all: destruct before; discriminate.
  - cbn [forOf]. unfold bind. rewrite savePost_eq.
    assert (Stop : forall e db1,
      D1.posts db1 = D1.posts db -> D1.users db1 = D1.users db ->
      D1.keywords_sub db1 = D1.keywords_sub db ->
      D1.push_logs db1 = D1.push_logs db ->
      exists r n' db' new,
        (@Throw unit e, (n, db1)) = (r, (n', db'))
        /\ D1.posts db' = D1.posts db ++ new
        /\ n' = n + length new
        /\ D1.users db' = D1.users db
        /\ D1.keywords_sub db' = D1.keywords_sub db
        /\ D1.push_logs db' = D1.push_logs db
        /\ (forall before row after,
              new = before ++ row :: after ->
              (exists post0 st, In post0 (post :: posts) /\ row = rowOfPost post0 st)
              /\ forall r, In r (D1.posts db ++ before) ->
                   D1.eqNull (DBPost.post_id r) (DBPost.post_id row) = false)).
    { intros e db1 H1 H2 H3 H4. exists (Throw e), n, db1, [].
      rewrite app_nil_r, Nat.add_0_r. repeat split; auto.
      all: destruct before; discriminate. }
    destruct (D1.due db) as [e|]; [now apply Stop|].
    destruct (findPost (D1.bound (Js.parseInt (RSSPost.id post))) db) as [i|] eqn:F.
    + destruct (IH n (D1.next db)) as (r & n' & db' & new & E & P & N & U & K & L & Fr).
      exists r, n', db', new. repeat split; auto.
      * destruct (Fr _ _ _ H) as [(p0 & st & I & R) _]. exists p0, st.
        split; [now right|exact R].
      * intros r0 Hr. now apply (Fr _ _ _ H).
    + destruct (D1.due (D1.next db)) as [e|]; [now apply Stop|].
      set (db1 := addPost post (D1.next (D1.next db))).
      destruct (IH (S n) db1) as (r & n' & db' & new & E & P & N & U & K & L & Fr).
      exists r, n', db', (rowOfPost post (D1.next (D1.next db)) :: new).
      split; [exact E|].
      split; [rewrite P; subst db1; cbn; now rewrite <- app_assoc|].
      split; [cbn [length]; lia|].
      do 3 (split; [assumption|]).
      intros before row after H. destruct before as [|b0 before].
      * cbn [app] in H. injection H as <- <-. split.
        -- exists post, (D1.next (D1.next db)). split; [now left|reflexivity].
        -- rewrite app_nil_r. intros r0 Hr. cbn [rowOfPost DBPost.post_id].
           now apply (findPost_none _ _ F).
      * cbn [app] in H. injection H as <- ->.
        destruct (Fr _ _ _ eq_refl) as [(p0 & st & I & R) Old]. split.
        -- exists p0, st. split; [now right|exact R].
        -- intros r0 Hr. apply Old. subst db1. cbn.
           rewrite <- app_assoc. exact Hr.
Qed.

Lemma save_loop_complete (posts : list RSSPost.t) (n : nat) (db : D1Database) :
  D1.faults db = [] ->
  exists n' db',
    forOf posts savePost (n, db) = (Normal tt, (n', db'))
    /\ D1.faults db' = []
    /\ (forall r, In r (D1.posts db) -> In r (D1.posts db'))
    /\ forall post k, In post posts -> D1.bound (Js.parseInt (RSSPost.id post)) = Some k ->
         exists r, In r (D1.posts db') /\ DBPost.post_id r = Some k.
Proof.
  revert n db; induction posts as [|post posts IH]; intros n db NF.
  - exists n, db. cbn [forOf]. unfold ret. repeat split; auto.
    intros post k [].
  - cbn [forOf]. unfold bind. rewrite savePost_eq.
    rewrite (next_no_faults db NF), (due_no_faults db NF).
    rewrite (next_no_faults db NF).
    destruct (findPost (D1.bound (Js.parseInt (RSSPost.id post))) db) as [i|] eqn:F.
    + destruct (IH n db NF) as (n' & db' & E & NF' & Keep & All).
      exists n', db'. repeat split; auto.
      intros p k [<-|I] Hk; [|now apply (All p k)].
      destruct (findPost_some k db) as (r & Hr & Er); [rewrite <- Hk; congruence|].
      exists r. split; [now apply Keep|exact Er].
    + set (db1 := addPost post db).
      assert (NF1 : D1.faults db1 = []) by (subst db1; cbn; exact NF).
      destruct (IH (S n) db1 NF1) as (n' & db' & E & NF' & Keep & All).
      exists n', db'. repeat split; auto.
      * intros r Hr. apply Keep. subst db1. cbn. apply in_or_app. now left.
      * intros p k [<-|I] Hk; [|now apply (All p k)].
        exists (rowOfPost post db). split.
        -- apply Keep. subst db1. cbn. apply in_or_app. right. now left.
        -- exact Hk.
Qed.

Lemma savePostsToDatabase_eq (posts : list RSSPost.t) (db : D1Database) :
  savePostsToDatabase posts db =
  (Normal (fst (snd (forOf posts savePost (0, db)))),
   snd (snd (forOf posts savePost (0, db)))).
Proof.
  unfold savePostsToDatabase, tryCatch, ret.
  destruct (forOf posts savePost (0, db)) as [[u|e] [n db']]; reflexivity.
Qed.

Lemma eqNull_false_neq (a b : option Z) :
  D1.eqNull a b = false -> b <> None -> a <> b.
Proof.
  destruct a as [x|], b as [y|]; cbn; intros H Hn E; try congruence.
  injection E as ->. rewrite Z.eqb_refl in H. discriminate.
Qed.

(** X29. [savePostsToDatabase] only appends rows to [posts]: the rows that
    were there keep every field, and the other tables are untouched.  The
    number it returns is the number of rows appended.  Each appended row is
    made from a post of the batch and, when it has a [post_id], no row of
    the table, old or just appended, had the same when it was inserted.
    When no statement fails, every post of the batch whose identifier is
    stored as a number has a row afterwards. *)
Theorem savePostsToDatabase_upsert (posts : list RSSPost.t) (db : D1Database) :
  exists (savedCount : nat) (db' : D1Database) (new : list DBPost.t),
    savePostsToDatabase posts db = (Normal savedCount, db')
    /\ D1.posts db' = D1.posts db ++ new
    /\ savedCount = length new
    /\ D1.users db' = D1.users db
    /\ D1.keywords_sub db' = D1.keywords_sub db
    /\ D1.push_logs db' = D1.push_logs db
    /\ (forall before row after,
          new = before ++ row :: after ->
          (exists post st, In post posts /\ row = rowOfPost post st)
          /\ forall r, In r (D1.posts db ++ before) ->
               DBPost.post_id row <> None ->
               DBPost.post_id r <> DBPost.post_id row)
    /\ (D1.faults db = [] ->
        forall post k,
          In post posts -> D1.bound (Js.parseInt (RSSPost.id post)) = Some k ->
          exists r, In r (D1.posts db') /\ DBPost.post_id r = Some k).
Proof.
  rewrite savePostsToDatabase_eq.
  destruct (save_loop posts 0 db) as (r & n' & db' & new & E & P & N & U & K & L & Fr).
  exists n', db', new. rewrite E. cbn [fst snd].
  do 6 (split; [auto|]). split.
  { intros before row after H. destruct (Fr before row after H) as [A B].
    split; [exact A|]. intros r0 I Hn. exact (eqNull_false_neq _ _ (B r0 I) Hn). }
  intros NF. destruct (save_loop_complete posts 0 db NF) as (n2 & db2 & E2 & _ & _ & All).
  rewrite E in E2. injection E2 as _ _ <-. exact All.
Qed.

(** ** Fan-out *)

Lemma first_match (post : DBPost.t) (subs : list KeywordSub.t) :
  Forall (fun k => matchKeywords post k = false) subs
  \/ exists pre keywords rest,
       subs = pre ++ keywords :: rest
       /\ Forall (fun k => matchKeywords post k = false) pre
       /\ matchKeywords post keywords = true.
Proof.
  induction subs as [|k subs IH]; [now left|].
  destruct (matchKeywords post k) eqn:M.
  - right. exists [], k, subs. repeat split; auto.
  - destruct IH as [N|(pre & k' & rest & -> & N & M')].
    + left. now constructor.
    + right. exists (k :: pre), k', rest. repeat split; auto.
Qed.

Lemma first_match_unique (post : DBPost.t) (pre pre' : list KeywordSub.t)
    (k k' : KeywordSub.t) (rest rest' : list KeywordSub.t) :
  pre ++ k :: rest = pre' ++ k' :: rest' ->
  Forall (fun x => matchKeywords post x = false) pre ->
  Forall (fun x => matchKeywords post x = false) pre' ->
  matchKeywords post k = true -> matchKeywords post k' = true ->
  pre = pre' /\ k = k' /\ rest = rest'.
Proof.
  revert pre'; induction pre as [|x pre IH]; intros [|x' pre'] E N N' M M';
    cbn [app] in E.
  - now injection E as -> ->.
  - injection E as -> _. inversion N'; congruence.
  - injection E as -> _. inversion N; congruence.
  - injection E as -> E. inversion N; inversion N'; subst.
    destruct (IH pre' E) as (-> & -> & ->); auto.
Qed.

Lemma scanKeywords_none (post : DBPost.t) (user : User.t)
    (subs : list KeywordSub.t) (s : LogCounts * D1Database) :
  Forall (fun k => matchKeywords post k = false) subs ->
  scanKeywords post user subs s = (Normal tt, s).
Proof.
  induction 1 as [|k subs M _ IH]; simpl; [reflexivity|].
  now rewrite M.
Qed.

Lemma scanKeywords_first (post : DBPost.t) (user : User.t)
    (pre : list KeywordSub.t) (keywords : KeywordSub.t)
    (rest : list KeywordSub.t) (s : LogCounts * D1Database) :
  Forall (fun k => matchKeywords post k = false) pre ->
  matchKeywords post keywords = true ->
  scanKeywords post user (pre ++ keywords :: rest) s
  = recordMatch post user keywords s.
Proof.
  intros N M. induction N as [|k pre Mk _ IH]; simpl.
  - rewrite M. destruct s as [counts db].
    unfold recordMatch, bind, onState, onLocals, D1.query, D1.update, D1.statement.
    cbn [fst snd]. destruct (D1.due db); [reflexivity|].
    change (findPushLog (User.id user) (DBPost.post_id post)
              (KeywordSub.id keywords) (D1.next db))
      with (findPushLog (User.id user) (DBPost.post_id post)
              (KeywordSub.id keywords) db).
    destruct (findPushLog _ _ _ db); [reflexivity|].
    cbn [fst snd]. destruct (D1.due (D1.next db)); reflexivity.
  - now rewrite Mk.
Qed.

Lemma fanOutUser_eq (post : DBPost.t) (user : User.t) (counts : LogCounts)
    (db : D1Database) :
  fanOutUser post user (counts, db) =
  scanKeywords post user
    (match D1.due db with
     | Some _ => []
     | None => userKeywords (User.id user) db
     end)
    (counts, D1.next db).
Proof.
  unfold fanOutUser, bind, onState, getUserKeywords, tryCatch, D1.query,
    D1.statement, ret.
  cbn [fst snd]. destruct (D1.due db); reflexivity.
Qed.

Lemma findPushLog_none (userId : Z) (postId : option Z) (subId : Z)
    (db : D1Database) :
  findPushLog userId postId subId db = None ->
  forall pl, In pl (D1.push_logs db) -> hasKey userId postId subId pl = false.
Proof.
  unfold findPushLog. intros H pl Hpl.
  destruct (find _ (D1.push_logs db)) eqn:F; [discriminate|].
  exact (find_none _ _ F pl Hpl).
Qed.

Lemma findPushLog_absent (userId : Z) (postId : option Z) (subId : Z)
    (db : D1Database) :
  (forall pl, In pl (D1.push_logs db) -> hasKey userId postId subId pl = false) ->
  findPushLog userId postId subId db = None.
Proof.
  unfold findPushLog. intros H.
  destruct (find _ (D1.push_logs db)) as [pl|] eqn:F; [|reflexivity].
  apply find_some in F. destruct F as [I K]. rewrite (H pl I) in K. discriminate.
Qed.

Lemma hasKey_keyOf (userId postId subId : Z) (pl : PushLog.t) :
  hasKey userId (Some postId) subId pl = true
  <-> keyOf pl = (userId, Some postId, subId).
Proof.
  unfold hasKey, keyOf, D1.eqNull.
  rewrite !andb_true_iff, !Z.eqb_eq.
  destruct (PushLog.post_id pl) as [k|].
  - rewrite Z.eqb_eq. split.
    + intros [[-> ->] ->]. reflexivity.
    + intros E. injection E as -> -> ->. auto.
  - split; [intros [[_ H] _]; discriminate|intros E; discriminate].
Qed.

Lemma findPushLog_none_key (userId postId subId : Z) (db : D1Database) :
  findPushLog userId (Some postId) subId db = None ->
  ~ In (userId, Some postId, subId) (map keyOf (D1.push_logs db)).
Proof.
  intros F I. apply in_map_iff in I. destruct I as (pl & K & I).
  apply hasKey_keyOf in K. rewrite (findPushLog_none _ _ _ _ F pl I) in K.
  discriminate.
Qed.

Lemma findPushLog_absent_key (userId : Z) (postId : option Z) (subId : Z)
    (db : D1Database) :
  ~ In (userId, postId, subId) (map keyOf (D1.push_logs db)) ->
  findPushLog userId postId subId db = None.
Proof.
  intros Abs. apply findPushLog_absent. intros pl I.
  destruct (hasKey userId postId subId pl) eqn:H; [|reflexivity].
  exfalso. apply Abs. apply in_map_iff. exists pl. split; [|exact I].
  destruct postId as [k|]; [now apply hasKey_keyOf|].
  unfold hasKey, D1.eqNull in H.
  destruct (PushLog.post_id pl); rewrite andb_false_r in H; discriminate.
Qed.

(** X28. For one post and one subscriber, fan-out adds at most one row to
    [push_logs] and touches no other table.  When it adds a row, the row is
    for the first filter that matches among the subscriber's active filters
    taken in table order (the filters before it do not match, and the ones
    after it are not looked at), it holds the subscriber, the post and that
    filter, it is pending, and, when the post has an identifier, no row of
    the table had the same subscriber, post and filter.  When no statement
    fails, the row is added whenever such a first match exists and no row
    of the table has that key. *)
Theorem fanOutUser_one_obligation (post : DBPost.t) (user : User.t)
    (counts : LogCounts) (db : D1Database) :
  exists r counts' db',
    fanOutUser post user (counts, db) = (r, (counts', db'))
    /\ D1.posts db' = D1.posts db
    /\ D1.users db' = D1.users db
    /\ D1.keywords_sub db' = D1.keywords_sub db
    /\ (D1.push_logs db' = D1.push_logs db
        \/ exists pre keywords rest row,
             userKeywords (User.id user) db = pre ++ keywords :: rest
             /\ Forall (fun k => matchKeywords post k = false) pre
             /\ matchKeywords post keywords = true
             /\ (DBPost.post_id post <> None ->
                 ~ In (User.id user, DBPost.post_id post, KeywordSub.id keywords)
                      (map keyOf (D1.push_logs db)))
             /\ D1.push_logs db' = D1.push_logs db ++ [row]
             /\ PushLog.user_id row = User.id user
             /\ PushLog.chat_id row = User.chat_id user
             /\ PushLog.post_id row = DBPost.post_id post
             /\ PushLog.sub_id row = KeywordSub.id keywords
             /\ PushLog.push_status row = 0%Z
             /\ PushLog.error_message row = None)
    /\ (D1.faults db = [] ->
        forall pre keywords rest,
          userKeywords (User.id user) db = pre ++ keywords :: rest ->
          Forall (fun k => matchKeywords post k = false) pre ->
          matchKeywords post keywords = true ->
          ~ In (User.id user, DBPost.post_id post, KeywordSub.id keywords)
               (map keyOf (D1.push_logs db)) ->
          exists row,
            D1.push_logs db' = D1.push_logs db ++ [row]
            /\ PushLog.sub_id row = KeywordSub.id keywords).
Proof.
  rewrite fanOutUser_eq.
  destruct (D1.due db) as [e|] eqn:Due.
  { exists (Normal tt), counts, (D1.next db). cbn [scanKeywords]. unfold ret.
    repeat split; auto.
    intros NF. rewrite (due_no_faults db NF) in Due. discriminate. }
  destruct (first_match post (userKeywords (User.id user) db))
    as [N|(pre & keywords & rest & E & N & M)].
  { rewrite (scanKeywords_none _ _ _ _ N).
    exists (Normal tt), counts, (D1.next db). repeat split; auto.
    intros NF pre keywords rest E N' M _. rewrite E in N.
    apply Forall_app in N. destruct N as [_ N]. inversion N; congruence. }
  rewrite E, (scanKeywords_first _ _ _ _ _ _ N M).
  unfold recordMatch. cbn [fst snd].
  destruct (D1.due (D1.next db)) as [e|] eqn:Due1.
  { exists (Throw e), (incTotal counts), (D1.next (D1.next db)).
    repeat split; auto.
    intros NF. rewrite (next_no_faults db NF), (due_no_faults db NF) in Due1.
    discriminate. }
  change (findPushLog (User.id user) (DBPost.post_id post)
            (KeywordSub.id keywords) (D1.next db))
    with (findPushLog (User.id user) (DBPost.post_id post)
            (KeywordSub.id keywords) db).
  destruct (findPushLog (User.id user) (DBPost.post_id post)
              (KeywordSub.id keywords) db) as [i|] eqn:F.
  { exists (Normal tt), (incTotal counts), (D1.next (D1.next db)).
    repeat split; auto.
    intros NF pre' k' rest' E' N' M' Abs.
    destruct (first_match_unique post _ _ _ _ _ _ E' N N' M M') as (_ & <- & _).
    rewrite (findPushLog_absent_key _ _ _ _ Abs) in F. discriminate. }
  destruct (D1.due (D1.next (D1.next db))) as [e|] eqn:Due2.
  { exists (Throw e), (incTotal counts), (D1.next (D1.next (D1.next db))).
    repeat split; auto.
    intros NF. rewrite !(next_no_faults db NF), (due_no_faults db NF) in Due2.
    discriminate. }
  eexists (Normal tt), (incCreated (incTotal counts)), _.
  split; [reflexivity|]. do 3 (split; [reflexivity|]). split.
  - right. exists pre, keywords, rest. eexists.
    split; [reflexivity|]. split; [exact N|]. split; [exact M|].
    split; [|repeat split; reflexivity].
    intros Hk. destruct (DBPost.post_id post) as [k|]; [|now destruct Hk].
    now apply findPushLog_none_key.
  - intros NF pre' k' rest' E' N' M' Abs.
    destruct (first_match_unique post _ _ _ _ _ _ E' N N' M M') as (_ & <- & _).
    eexists. split; reflexivity.
Qed.

(** ** A failing statement ends the batch *)

Lemma forOf_throw_app {S A : Type} (l1 l2 : list A) (body : A -> Task S unit)
    (s st : S) (e : JsError.t) :
  forOf l1 body s = (Throw e, st) -> forOf (l1 ++ l2) body s = (Throw e, st).
Proof. intros H. now rewrite forOf_app, H. Qed.

Lemma getActiveUsers_eq (db : D1Database) :
  getActiveUsers db =
  (Normal (match D1.due db with Some _ => [] | None => activeUsers db end),
   D1.next db).
Proof.
  unfold getActiveUsers, tryCatch, D1.query, D1.statement, ret.
  destruct (D1.due db); reflexivity.
Qed.

Lemma getUserKeywords_eq (userId : Z) (db : D1Database) :
  getUserKeywords userId db =
  (Normal (match D1.due db with Some _ => [] | None => userKeywords userId db end),
   D1.next db).
Proof.
  unfold getUserKeywords, tryCatch, D1.query, D1.statement, ret.
  destruct (D1.due db); reflexivity.
Qed.

Lemma markPostAsPushed_eq (postId : option Z) (db : D1Database) :
  markPostAsPushed postId db =
  (Normal tt,
   match D1.due db with
   | Some _ => D1.next db
   | None => markPushed postId (D1.next db)
   end).
Proof.
  unfold markPostAsPushed, tryCatch, D1.update, D1.statement, ret.
  destruct (D1.due db); reflexivity.
Qed.

Lemma deactivateUser_eq (chatId : Z) (db : D1Database) :
  deactivateUser chatId db =
  (Normal tt,
   match D1.due db with
   | Some _ => D1.next db
   | None => deactivate chatId (D1.next db)
   end).
Proof.
  unfold deactivateUser, tryCatch, D1.update, D1.statement, ret.
  destruct (D1.due db); reflexivity.
Qed.

Lemma createPushLogs_eq (posts : list DBPost.t) (db : D1Database) :
  createPushLogs posts db =
  (Normal (fst (snd (fanOut posts (mkLogCounts 0 0, db)))),
   snd (snd (fanOut posts (mkLogCounts 0 0, db)))).
Proof.
  unfold createPushLogs, tryCatch, ret. fold (fanOut posts).
  destruct (fanOut posts (mkLogCounts 0 0, db)) as [[u|e] [n db']]; reflexivity.
Qed.

Lemma fanOutUser_first (post : DBPost.t) (user : User.t) (counts : LogCounts)
    (db : D1Database) (pre : list KeywordSub.t) (keywords : KeywordSub.t)
    (rest : list KeywordSub.t) :
  D1.due db = None ->
  userKeywords (User.id user) db = pre ++ keywords :: rest ->
  Forall (fun k => matchKeywords post k = false) pre ->
  matchKeywords post keywords = true ->
  fanOutUser post user (counts, db)
  = recordMatch post user keywords (counts, D1.next db).
Proof.
  intros Due E N M. rewrite fanOutUser_eq, Due, E.
  now apply scanKeywords_first.
Qed.

Lemma createPushLogs_cut (donePosts restPosts : list DBPost.t) (post : DBPost.t)
    (doneUsers restUsers : list User.t) (user : User.t) (db : D1Database)
    (s1 s2 st : LogCounts * D1Database) (e : JsError.t) :
  D1.due db = None ->
  activeUsers db = doneUsers ++ user :: restUsers ->
  forOf donePosts (fanOutPost (activeUsers db)) (mkLogCounts 0 0, D1.next db)
  = (Normal tt, s1) ->
  forOf doneUsers (fanOutUser post) s1 = (Normal tt, s2) ->
  fanOutUser post user s2 = (Throw e, st) ->
  createPushLogs (donePosts ++ post :: restPosts) db = (Normal (fst st), snd st).
Proof.
  intros Due Us P U T.
  assert (F : fanOutPost (activeUsers db) post s1 = (Throw e, st)).
  { unfold fanOutPost, bind. rewrite Us, forOf_app, U. cbn [forOf].
    unfold bind. now rewrite T. }
  assert (G : forOf (donePosts ++ post :: restPosts)
                (fanOutPost (activeUsers db)) (mkLogCounts 0 0, D1.next db)
              = (Throw e, st)).
  { rewrite forOf_app, P. cbn [forOf]. unfold bind. now rewrite F. }
  rewrite createPushLogs_eq.
  unfold fanOut, bind, onState. cbn [fst snd]. rewrite getActiveUsers_eq, Due.
  now rewrite G.
Qed.

(** C6, as the code has it.  A statement that fails while a row is checked
    or inserted ends the batch at that row.  In [savePostsToDatabase], when
    the posts before a post were handled and the SELECT for that post
    fails, or finds nothing and the INSERT fails, the run returns the count
    reached before that post and the store as it was then: the posts after
    it are not attempted.  In [createPushLogs], when the posts before a
    post and the subscribers before a subscriber were handled, a filter of
    that subscriber matches the post and the SELECT on [push_logs] fails,
    or finds nothing and the INSERT fails, the run returns the counts
    reached there and the store as it was then: the subscribers after it
    get no row for that post, the post is not marked, and the posts after
    it are not looked at.  Reading the active subscribers, reading one
    subscriber's filters and marking a post never throw: a failure there is
    absorbed and the loop goes on. *)
Theorem failing_row_ends_batch :
  (forall (done rest : list RSSPost.t) (post : RSSPost.t) (db db1 : D1Database)
          (n : nat) (e : JsError.t),
      forOf done savePost (0, db) = (Normal tt, (n, db1)) ->
      (D1.due db1 = Some e ->
       savePostsToDatabase (done ++ post :: rest) db = (Normal n, D1.next db1))
      /\ (D1.due db1 = None ->
          findPost (D1.bound (Js.parseInt (RSSPost.id post))) db1 = None ->
          D1.due (D1.next db1) = Some e ->
          savePostsToDatabase (done ++ post :: rest) db
          = (Normal n, D1.next (D1.next db1))))
  /\ (forall (donePosts restPosts : list DBPost.t) (post : DBPost.t)
             (doneUsers restUsers : list User.t) (user : User.t)
             (db db2 : D1Database) (s1 : LogCounts * D1Database)
             (counts : LogCounts) (pre : list KeywordSub.t)
             (keywords : KeywordSub.t) (rest : list KeywordSub.t)
             (e : JsError.t),
        D1.due db = None ->
        activeUsers db = doneUsers ++ user :: restUsers ->
        forOf donePosts (fanOutPost (activeUsers db))
          (mkLogCounts 0 0, D1.next db) = (Normal tt, s1) ->
        forOf doneUsers (fanOutUser post) s1 = (Normal tt, (counts, db2)) ->
        D1.due db2 = None ->
        userKeywords (User.id user) db2 = pre ++ keywords :: rest ->
        Forall (fun k => matchKeywords post k = false) pre ->
        matchKeywords post keywords = true ->
        (D1.due (D1.next db2) = Some e ->
         createPushLogs (donePosts ++ post :: restPosts) db
         = (Normal (incTotal counts), D1.next (D1.next db2)))
        /\ (D1.due (D1.next db2) = None ->
            findPushLog (User.id user) (DBPost.post_id post)
              (KeywordSub.id keywords) db2 = None ->
            D1.due (D1.next (D1.next db2)) = Some e ->
            createPushLogs (donePosts ++ post :: restPosts) db
            = (Normal (incTotal counts), D1.next (D1.next (D1.next db2)))))
  /\ (forall db, exists users, getActiveUsers db = (Normal users, D1.next db))
  /\ (forall userId db,
        exists subs, getUserKeywords userId db = (Normal subs, D1.next db))
  /\ (forall postId db, exists db', markPostAsPushed postId db = (Normal tt, db')).
Proof.
  split; [|split; [|split; [|split]]].
  - intros done rest post db db1 n e H.
    rewrite savePostsToDatabase_eq, forOf_app, H. cbn [forOf]. unfold bind.
    rewrite savePost_eq. split.
    + intros ->. reflexivity.
    + intros -> -> ->. reflexivity.
  - intros donePosts restPosts post doneUsers restUsers user db db2 s1 counts
      pre keywords rest e Due Us P U Due2 E N M.
    pose proof (fanOutUser_first post user counts db2 pre keywords rest Due2 E N M)
      as F.
    unfold recordMatch in F. cbn [fst snd] in F.
    change (findPushLog (User.id user) (DBPost.post_id post)
              (KeywordSub.id keywords) (D1.next db2))
      with (findPushLog (User.id user) (DBPost.post_id post)
              (KeywordSub.id keywords) db2) in F.
    split.
    + intros D. rewrite D in F.
      exact (createPushLogs_cut donePosts restPosts post doneUsers restUsers user
               db s1 _ _ e Due Us P U F).
    + intros D Abs D'. rewrite D, Abs, D' in F.
      exact (createPushLogs_cut donePosts restPosts post doneUsers restUsers user
               db s1 _ _ e Due Us P U F).
  - intros db. rewrite getActiveUsers_eq. eauto.
  - intros userId db. rewrite getUserKeywords_eq. eauto.
  - intros postId db. rewrite markPostAsPushed_eq. eauto.
Qed.

(** ** The dispatcher *)

Lemma pushOne_eq (api : BotApi) (botToken : string) (log : PendingLog.t)
    (counts : PushCounts) (db : D1Database) :
  pushOne api botToken log (counts, db) =
  let sent :=
    sendTelegramMessage api botToken (PendingLog.chat_id log) (postOfLog log)
      (matchedKeywordsOf log) in
  match D1.due db with
  | None =>
      if success sent then
        (Normal tt,
         (incSuccessful counts, finish None (PendingLog.id log) (D1.next db)))
      else
        (Normal tt,
         (incFailed counts,
          let db1 := finish (error sent) (PendingLog.id log) (D1.next db) in
          match userBlocked sent with
          | Some true => snd (deactivateUser (PendingLog.chat_id log) db1)
          | _ => db1
          end))
  | Some e =>
      match D1.due (D1.next db) with
      | None =>
          (Normal tt,
           (incFailed counts,
            finish (Some (JsError.toString e)) (PendingLog.id log)
              (D1.next (D1.next db))))
      | Some e' => (Throw e', (counts, D1.next (D1.next db)))
      end
  end.
Proof.
  unfold pushOne, pushAttempt, tryCatch.
  cbv zeta.
  destruct (success (sendTelegramMessage api botToken (PendingLog.chat_id log)
                       (postOfLog log) (matchedKeywordsOf log))).
  - unfold bind, onState, onLocals, finishPushLog, D1.update, D1.statement.
    cbn [fst snd]. destruct (D1.due db) as [e|]; [|reflexivity].
    cbn [fst snd]. destruct (D1.due (D1.next db)); reflexivity.
  - unfold bind, onState, onLocals, finishPushLog, D1.update, D1.statement.
    cbn [fst snd]. destruct (D1.due db) as [e|].
    + cbn [fst snd]. destruct (D1.due (D1.next db)); reflexivity.
    + cbn [fst snd].
      destruct (userBlocked _) as [[|]|]; try reflexivity.
      rewrite !deactivateUser_eq. reflexivity.
Qed.

Lemma pushAttempt_throws (api : BotApi) (botToken : string) (log : PendingLog.t)
    (counts : PushCounts) (db : D1Database) (e : JsError.t)
    (st : PushCounts * D1Database) :
  pushAttempt api botToken log (counts, db) = (Throw e, st) ->
  D1.due db = Some e /\ st = (counts, D1.next db).
Proof.
  unfold pushAttempt. cbv zeta.
  destruct (success _).
  - unfold bind, onState, onLocals, finishPushLog, D1.update, D1.statement.
    cbn [fst snd]. destruct (D1.due db) as [e0|]; [|discriminate].
    intros [= -> <-]. now split.
  - unfold bind, onState, onLocals, finishPushLog, D1.update, D1.statement.
    cbn [fst snd]. destruct (D1.due db) as [e0|].
    + intros [= -> <-]. now split.
    + cbn [fst snd]. destruct (userBlocked _) as [[|]|]; try discriminate.
      rewrite deactivateUser_eq. discriminate.
Qed.

Lemma settles_id : settles (fun pl => pl).
Proof. intros pl. now left. Qed.

Lemma settles_finish (m : option string) (logId : Z) :
  settles (fun pl => if (PushLog.id pl =? logId)%Z then finished m pl else pl).
Proof. intros pl. destruct (_ =? _)%Z; [right; now exists m|now left]. Qed.

Lemma settles_compose (f g : PushLog.t -> PushLog.t) :
  settles f -> settles g -> settles (fun pl => g (f pl)).
Proof.
  intros Hf Hg pl. destruct (Hf pl) as [->|[m ->]]; [apply Hg|].
  right. destruct (Hg (finished m pl)) as [->|[m' ->]]; [now exists m|].
  now exists m'.
Qed.

(** One turn of the loop maps the ledger row by row; when it ends normally
    the rows of its obligation are finished. *)
Lemma pushOne_settles (api : BotApi) (botToken : string) (log : PendingLog.t)
    (counts : PushCounts) (db : D1Database) :
  exists r counts' db' f,
    pushOne api botToken log (counts, db) = (r, (counts', db'))
    /\ settles f
    /\ D1.push_logs db' = map f (D1.push_logs db)
    /\ D1.posts db' = D1.posts db
    /\ D1.keywords_sub db' = D1.keywords_sub db
    /\ (r = Normal tt ->
        forall pl, PushLog.id pl = PendingLog.id log ->
                   exists m, f pl = finished m pl).
Proof.
  rewrite pushOne_eq. cbv zeta.
  assert (Fin : forall m pl, PushLog.id pl = PendingLog.id log ->
            exists m0, (if (PushLog.id pl =? PendingLog.id log)%Z
                        then finished m pl else pl) = finished m0 pl).
  { intros m pl ->. rewrite Z.eqb_refl. now exists m. }
  destruct (D1.due db) as [e|].
  - destruct (D1.due (D1.next db)) as [e'|].
    + exists (Throw e'), counts, (D1.next (D1.next db)), (fun pl => pl).
      repeat split; auto using settles_id.
      * cbn. now rewrite map_id.
      * discriminate.
    + eexists (Normal tt), _, _, _. split; [reflexivity|].
      split; [apply (settles_finish (Some (JsError.toString e)) (PendingLog.id log))|].
      repeat split; auto.
  - set (sent := sendTelegramMessage api botToken (PendingLog.chat_id log)
                    (postOfLog log) (matchedKeywordsOf log)).
    destruct (success sent).
    + eexists (Normal tt), _, _, _. split; [reflexivity|].
      split; [apply (settles_finish None (PendingLog.id log))|].
      repeat split; auto.
    + eexists (Normal tt), _, _, _. split; [reflexivity|].
      split; [apply (settles_finish (error sent) (PendingLog.id log))|].
      destruct (userBlocked sent) as [[|]|]; try (repeat split; auto).
      all: rewrite deactivateUser_eq; cbn [snd].
      all: destruct (D1.due _); reflexivity.
Qed.

Lemma push_loop_settles (api : BotApi) (botToken : string)
    (logs : list PendingLog.t) (counts : PushCounts) (db : D1Database) :
  exists r counts' db' f,
    forOf logs (pushOne api botToken) (counts, db) = (r, (counts', db'))
    /\ settles f
    /\ D1.push_logs db' = map f (D1.push_logs db)
    /\ (r = Normal tt ->
        forall log pl, In log logs -> PushLog.id pl = PendingLog.id log ->
                       exists m, f pl = finished m pl).
Proof.
  revert counts db; induction logs as [|log logs IH]; intros counts db.
  - exists (Normal tt), counts, db, (fun pl => pl). cbn [forOf]. unfold ret.
    repeat split; auto using settles_id.
    + now rewrite map_id.
    + intros _ log pl [].
  - cbn [forOf]. unfold bind.
    destruct (pushOne_settles api botToken log counts db)
      as (r & c1 & db1 & f & E & Sf & L & _ & _ & Fin).
    rewrite E. destruct r as [[]|e].
    + destruct (IH c1 db1) as (r & c2 & db2 & g & E2 & Sg & L2 & Fin2).
      exists r, c2, db2, (fun pl => g (f pl)). split; [exact E2|].
      split; [now apply settles_compose|].
      split; [now rewrite L2, L, map_map|].
      intros -> log0 pl [<-|I] Hid.
      * destruct (Fin eq_refl pl Hid) as [m ->].
        destruct (Sg (finished m pl)) as [->|[m' ->]]; [now exists m|now exists m'].
      * destruct (Sf pl) as [->|[m Hm]]; [now apply (Fin2 eq_refl log0)|].
        rewrite Hm.
        destruct (Sg (finished m pl)) as [->|[m' ->]]; [now exists m|now exists m'].
    + exists (Throw e), c1, db1, f. repeat split; auto. discriminate.
Qed.

Lemma pushTask_eq (api : BotApi) (botToken : string) (db : D1Database) :
  pushTask api botToken db =
  match D1.due db with
  | Some e =>
      (Normal {| Result.success := false;
                 Result.message := ("推送任务失败: " ++ JsError.toString e)%string;
                 Result.stats := NoStats |},
       D1.next db)
  | None =>
      if (length (pendingRows db) =? 0)%nat then
        (Normal {| Result.success := true;
                   Result.message := "没有待推送的记录";
                   Result.stats := PushStats 0 0 0 |},
         D1.next db)
      else
        match forOf (pendingRows db) (pushOne api botToken)
                (mkPushCounts 0 0, D1.next db) with
        | (Normal _, (counts, db')) =>
            (Normal {| Result.success := true;
                       Result.message :=
                         ("推送任务完成：处理 " ++ Js.ofNat (length (pendingRows db))
                          ++ " 条记录，成功 " ++ Js.ofNat (successful counts)
                          ++ " 条，失败 " ++ Js.ofNat (failed counts) ++ " 条")%string;
                       Result.stats :=
                         PushStats (length (pendingRows db)) (successful counts)
                           (failed counts) |},
             db')
        | (Throw e, (_, db')) =>
            (Normal {| Result.success := false;
                       Result.message := ("推送任务失败: " ++ JsError.toString e)%string;
                       Result.stats := NoStats |},
             db')
        end
  end.
Proof.
  unfold pushTask, tryCatch, bind, D1.query, D1.statement, withLocals, ret.
  destruct (D1.due db); [reflexivity|].
  change (pendingRows (D1.next db)) with (pendingRows db).
  destruct (length (pendingRows db) =? 0)%nat; [reflexivity|].
  destruct (forOf (pendingRows db) (pushOne api botToken)
              (mkPushCounts 0 0, D1.next db)) as [[u|e] [c db']]; reflexivity.
Qed.

(** C1, as the code has it.  When a dispatch run completes (it reports
    success), every ledger row whose obligation was in the pending batch is
    finished: its [push_status] is 1, not 0, with the error field empty
    (sent) or holding a text (failed); the other rows are finished or
    untouched.  When the [try] block of one obligation throws and the
    update of the [catch] goes through, the obligation is finished with the
    text of the error, the count of failures goes up by one, and the loop
    goes on with the rest of the batch.  When the update of the [catch]
    fails too, the run stops there and reports failure; the ledger is as
    the obligations before this one left it. *)
Theorem pushTask_terminal (api : BotApi) (botToken : string) :
  (forall (db : D1Database) res db',
      pushTask api botToken db = (Normal res, db') ->
      Result.success res = true ->
      exists f,
        settles f
        /\ D1.push_logs db' = map f (D1.push_logs db)
        /\ forall log pl,
             In log (pendingRows db) -> PushLog.id pl = PendingLog.id log ->
             PushLog.push_status (f pl) = 1%Z
             /\ exists m, f pl = finished m pl)
  /\ (forall (log : PendingLog.t) counts (db : D1Database) e st,
        pushAttempt api botToken log (counts, db) = (Throw e, st) ->
        D1.due (snd st) = None ->
        forall rest,
          forOf (log :: rest) (pushOne api botToken) (counts, db)
          = forOf rest (pushOne api botToken)
              (incFailed counts,
               finish (Some (JsError.toString e)) (PendingLog.id log)
                 (D1.next (snd st))))
  /\ (forall (db : D1Database) done log rest counts dbk e e',
        D1.due db = None ->
        pendingRows db = done ++ log :: rest ->
        forOf done (pushOne api botToken) (mkPushCounts 0 0, D1.next db)
        = (Normal tt, (counts, dbk)) ->
        D1.due dbk = Some e -> D1.due (D1.next dbk) = Some e' ->
        exists res db',
          pushTask api botToken db = (Normal res, db')
          /\ Result.success res = false
          /\ D1.push_logs db' = D1.push_logs dbk).
Proof.
  split; [|split].
  - intros db res db' H S. rewrite pushTask_eq in H.
    destruct (D1.due db) as [e|]; [injection H as <- _; discriminate|].
    destruct (length (pendingRows db) =? 0)%nat eqn:Len.
    + injection H as _ <-. exists (fun pl => pl).
      split; [apply settles_id|]. split; [cbn; now rewrite map_id|].
      intros log pl I. apply Nat.eqb_eq in Len.
      destruct (pendingRows db); [destruct I|discriminate].
    + destruct (push_loop_settles api botToken (pendingRows db)
                  (mkPushCounts 0 0) (D1.next db))
        as (r & c & db1 & f & E & Sf & L & Fin).
      rewrite E in H. destruct r as [[]|e]; [|injection H as <- _; discriminate].
      injection H as _ <-. exists f. split; [exact Sf|]. split; [exact L|].
      intros log pl I Hid. destruct (Fin eq_refl log pl I Hid) as [m Hm].
      split; [now rewrite Hm|now exists m].
  - intros log counts db e st H Due rest.
    destruct (pushAttempt_throws _ _ _ _ _ _ _ H) as [D ->]. cbn [snd] in *.
    cbn [forOf]. unfold bind. rewrite pushOne_eq. cbv zeta.
    now rewrite D, Due.
  - intros db done log rest counts dbk e e' D0 Batch Done D1 D2.
    rewrite pushTask_eq, D0, Batch.
    rewrite length_app. cbn [length]. rewrite Nat.add_succ_r. cbn [Nat.eqb].
    rewrite forOf_app, Done. cbn [forOf]. unfold bind.
    rewrite pushOne_eq. cbv zeta. rewrite D1, D2.
    eexists _, _. split; [reflexivity|]. split; reflexivity.
Qed.

(** ** Deactivation *)

Lemma isBlocked_iff (errorMessage : string) :
  isBlocked errorMessage = true <->
  exists phrase,
    In phrase blockedErrors
    /\ occursIn (Js.toLowerCase phrase) (Js.toLowerCase errorMessage).
Proof.
  unfold isBlocked. rewrite existsb_exists.
  split; intros (phrase & I & H); exists phrase; split; auto;
    now apply includes_iff.
Qed.

Lemma sendTelegramMessage_failed (api : BotApi) (botToken : string) (chatId : Z)
    (post : DBPost.t) (matchedKeywords : list string) :
  success (sendTelegramMessage api botToken chatId post matchedKeywords) = false ->
  exists errorMessage,
    error (sendTelegramMessage api botToken chatId post matchedKeywords)
    = Some errorMessage
    /\ userBlocked (sendTelegramMessage api botToken chatId post matchedKeywords)
       = Some (isBlocked errorMessage).
Proof.
  unfold sendTelegramMessage. destruct (api botToken chatId _) as [err|].
  - intros _. now exists (errorMessageOf err).
  - discriminate.
Qed.

Lemma blockedErrors_ascii (phrase : string) :
  In phrase blockedErrors -> ascii7 phrase = true /\ phrase <> ""%string.
Proof.
  unfold blockedErrors. intros I.
  repeat (destruct I as [<-|I]; [split; [reflexivity|discriminate]|]).
  destruct I.
Qed.

(** C7, as the code has it.  When the send of a dispatched obligation
    fails, the channel's message is recognised exactly when it holds one of
    the five phrases, both lower-cased; so it is recognised whenever a
    phrase stands anywhere in it in any letter case; in an ASCII message
    that is when the phrase occurs once the capitals of both are made
    small.  An unrecognised message leaves [users] as it was.  A recognised one sets [is_active] to 0 for the users with
    the obligation's chat, provided the update that records the failure
    and the update of [users] both go through; when either of the two
    fails, [users] is as it was. *)
Theorem deactivation_trigger (api : BotApi) (botToken : string)
    (log : PendingLog.t) (counts : PushCounts) (db : D1Database) :
  let sent :=
    sendTelegramMessage api botToken (PendingLog.chat_id log) (postOfLog log)
      (matchedKeywordsOf log) in
  let db' := snd (snd (pushOne api botToken log (counts, db))) in
  success sent = false ->
  exists errorMessage,
    error sent = Some errorMessage
    /\ userBlocked sent = Some (isBlocked errorMessage)
    /\ (isBlocked errorMessage = true <->
        exists phrase,
          In phrase blockedErrors
          /\ occursIn (Js.toLowerCase phrase) (Js.toLowerCase errorMessage))
    /\ (forall phrase a b,
          In phrase blockedErrors ->
          Js.toLowerCase errorMessage
          = Js.toLowerCase (a ++ phrase ++ b)%string ->
          isBlocked errorMessage = true)
    /\ (forall phrase a b,
          In phrase blockedErrors ->
          ascii7 errorMessage = true ->
          smallLetters errorMessage = (a ++ smallLetters phrase ++ b)%string ->
          isBlocked errorMessage = true)
    /\ (isBlocked errorMessage = false -> D1.users db' = D1.users db)
    /\ (isBlocked errorMessage = true ->
        D1.due db = None -> D1.due (D1.next db) = None ->
        D1.users db' =
        map (fun u => if (User.chat_id u =? PendingLog.chat_id log)%Z
                      then User.mk (User.id u) (User.chat_id u) 0 else u)
            (D1.users db))
    /\ (D1.due db <> None \/ D1.due (D1.next db) <> None ->
        D1.users db' = D1.users db).
Proof.
  intros sent db' F.
  destruct (sendTelegramMessage_failed _ _ _ _ _ F) as (msg & E & B).
  fold sent in E, B. exists msg.
  split; [exact E|]. split; [exact B|]. split; [apply isBlocked_iff|].
  split.
  { intros phrase a b I Ea. apply isBlocked_iff. exists phrase.
    split; [exact I|]. rewrite Ea.
    destruct (blockedErrors_ascii phrase I) as [As Ne].
    now apply toLowerCase_within. }
  split.
  { intros phrase a b I Am Ea. apply isBlocked_iff. exists phrase.
    split; [exact I|].
    destruct (blockedErrors_ascii phrase I) as [As _].
    rewrite (toLowerCase_ascii7 phrase As), (toLowerCase_ascii7 msg Am).
    now exists a, b. }
  subst db'. rewrite pushOne_eq. cbv zeta. fold sent. rewrite F, B.
  split; [|split].
  - intros NB. rewrite NB.
    destruct (D1.due db); [destruct (D1.due (D1.next db))|]; reflexivity.
  - intros Bl D0 D1. rewrite Bl, D0. cbn [snd].
    rewrite deactivateUser_eq. cbn [snd].
    change (D1.due (finish (error sent) (PendingLog.id log) (D1.next db)))
      with (D1.due (D1.next db)).
    now rewrite D1.
  - intros H. destruct (D1.due db) as [e|] eqn:D0.
    + destruct (D1.due (D1.next db)); reflexivity.
    + destruct H as [H|H]; [now elim H|].
      cbn [snd]. destruct (isBlocked msg); [|reflexivity].
      rewrite deactivateUser_eq. cbn [snd].
      change (D1.due (finish (error sent) (PendingLog.id log) (D1.next db)))
        with (D1.due (D1.next db)).
      destruct (D1.due (D1.next db)); [reflexivity|now elim H].
Qed.

(** ** The ledger's status values *)

Lemma insertSorted_perm {A : Type} (before : A -> A -> bool) (x : A) (l : list A) :
  Permutation (D1.insertSorted before x l) (x :: l).
Proof.
  induction l as [|y l IH]; cbn [D1.insertSorted]; [reflexivity|].
  destruct (before y x); [|reflexivity].
  rewrite IH. apply perm_swap.
Qed.

Lemma orderBy_perm {A : Type} (before : A -> A -> bool) (l : list A) :
  Permutation (D1.orderBy before l) l.
Proof.
  unfold D1.orderBy. induction l as [|x l IH]; cbn [fold_right]; [reflexivity|].
  rewrite insertSorted_perm. now constructor.
Qed.

Lemma firstn_in {A : Type} (n : nat) (l : list A) (x : A) :
  In x (firstn n l) -> In x l.
Proof.
  intros H. rewrite <- (firstn_skipn n l). apply in_or_app. now left.
Qed.

Lemma pendingRows_in (db : D1Database) (log : PendingLog.t) :
  In log (pendingRows db) -> In log (joinPending db).
Proof.
  unfold pendingRows. intros H. apply firstn_in in H.
  now apply (Permutation_in _ (orderBy_perm _ _)) in H.
Qed.

Lemma pendingRows_all (db : D1Database) :
  length (joinPending db) <= 100 ->
  forall log, In log (joinPending db) -> In log (pendingRows db).
Proof.
  intros L log H. unfold pendingRows. rewrite firstn_all2.
  - now apply (Permutation_in _ (Permutation_sym (orderBy_perm _ _))).
  - now rewrite (Permutation_length (orderBy_perm _ _)).
Qed.

Lemma joinPending_iff (db : D1Database) (log : PendingLog.t) :
  In log (joinPending db) <->
  exists pl p ks u k,
    In pl (D1.push_logs db) /\ In p (D1.posts db)
    /\ In ks (D1.keywords_sub db) /\ In u (D1.users db)
    /\ PushLog.push_status pl = 0%Z
    /\ PushLog.post_id pl = Some k /\ DBPost.post_id p = Some k
    /\ PushLog.sub_id pl = KeywordSub.id ks
    /\ PushLog.user_id pl = User.id u
    /\ log = joinedRow pl p ks u k.
Proof.
  unfold joinPending. rewrite in_flat_map. split.
  - intros (pl & Ipl & H).
    destruct (Z.eqb_spec (PushLog.push_status pl) 0) as [S0|]; [|destruct H].
    rewrite in_flat_map in H. destruct H as (p & Ip & H).
    destruct (PushLog.post_id pl) as [a|] eqn:Ea; [|destruct H].
    destruct (DBPost.post_id p) as [b|] eqn:Eb; [|destruct H].
    destruct (Z.eqb_spec a b) as [->|]; [|destruct H].
    rewrite in_flat_map in H. destruct H as (ks & Iks & H).
    destruct (Z.eqb_spec (PushLog.sub_id pl) (KeywordSub.id ks)) as [Es|];
      [|destruct H].
    rewrite in_flat_map in H. destruct H as (u & Iu & H).
    destruct (Z.eqb_spec (PushLog.user_id pl) (User.id u)) as [Eu|];
      [|destruct H].
    destruct H as [<-|[]]. exists pl, p, ks, u, b. repeat split; auto.
  - intros (pl & p & ks & u & k & Ipl & Ip & Iks & Iu & S0 & Ea & Eb & Es & Eu & ->).
    exists pl. split; [exact Ipl|]. rewrite S0. cbn [Z.eqb].
    rewrite in_flat_map. exists p. split; [exact Ip|].
    rewrite Ea, Eb, Z.eqb_refl.
    rewrite in_flat_map. exists ks. split; [exact Iks|].
    rewrite Es, Z.eqb_refl.
    rewrite in_flat_map. exists u. split; [exact Iu|].
    rewrite Eu, Z.eqb_refl. now left.
Qed.

Lemma finish_push_logs_next (m : option string) (logId : Z) (db : D1Database) :
  D1.push_logs (finish m logId (D1.next db)) = D1.push_logs (finish m logId db).
Proof. reflexivity. Qed.

(** C10, as the code has it.  The dispatcher's query returns only rows
    whose [push_status] is 0: at most 100 of the pending rows that join a
    post, a filter and a user, and all of them when they are at most 100.
    Whatever the outcome, the row of an obligation is updated to
    [push_status = 1]: with a NULL error after a successful send, with the
    channel's text after a failed one, with the text of the exception when
    the update itself had thrown.  After a run every row of the ledger is
    as it was or has [push_status = 1]; sent and failed rows differ only in
    the error field. *)
Theorem ledger_status_values (api : BotApi) (botToken : string) :
  (forall (db : D1Database) log,
      In log (pendingRows db) ->
      PendingLog.push_status log = 0%Z
      /\ exists pl, In pl (D1.push_logs db)
                    /\ PushLog.id pl = PendingLog.id log
                    /\ PushLog.push_status pl = 0%Z)
  /\ (forall db : D1Database, length (pendingRows db) <= 100)
  /\ (forall db : D1Database,
        length (joinPending db) <= 100 ->
        forall log, In log (joinPending db) -> In log (pendingRows db))
  /\ (forall (db : D1Database) log,
        In log (joinPending db) <->
        exists pl p ks u k,
          In pl (D1.push_logs db) /\ In p (D1.posts db)
          /\ In ks (D1.keywords_sub db) /\ In u (D1.users db)
          /\ PushLog.push_status pl = 0%Z
          /\ PushLog.post_id pl = Some k /\ DBPost.post_id p = Some k
          /\ PushLog.sub_id pl = KeywordSub.id ks
          /\ PushLog.user_id pl = User.id u
          /\ log = joinedRow pl p ks u k)
  /\ (forall m pl,
        PushLog.push_status (finished m pl) = 1%Z
        /\ PushLog.error_message (finished m pl) = m)
  /\ (forall (log : PendingLog.t) counts (db : D1Database),
        let sent :=
          sendTelegramMessage api botToken (PendingLog.chat_id log)
            (postOfLog log) (matchedKeywordsOf log) in
        D1.due db = None ->
        D1.push_logs (snd (snd (pushOne api botToken log (counts, db))))
        = D1.push_logs (finish (error sent) (PendingLog.id log) db)
        /\ (success sent = true -> error sent = None)
        /\ (success sent = false -> exists text, error sent = Some text))
  /\ (forall (log : PendingLog.t) counts (db : D1Database) e,
        D1.due db = Some e -> D1.due (D1.next db) = None ->
        D1.push_logs (snd (snd (pushOne api botToken log (counts, db))))
        = D1.push_logs
            (finish (Some (JsError.toString e)) (PendingLog.id log) db))
  /\ (forall db : D1Database,
        exists f,
          settles f
          /\ D1.push_logs (snd (pushTask api botToken db))
             = map f (D1.push_logs db)).
Proof.
  split; [|split; [|split; [|split; [|split; [|split; [|split]]]]]].
  - intros db log H. apply pendingRows_in, joinPending_iff in H.
    destruct H as (pl & p & ks & u & k & Ipl & _ & _ & _ & S0 & _ & _ & _ & _ & ->).
    split; [exact S0|]. now exists pl.
  - intros db. unfold pendingRows. apply firstn_le_length.
  - apply pendingRows_all.
  - apply joinPending_iff.
  - intros m pl. now split.
  - intros log counts db sent D0. rewrite pushOne_eq. cbv zeta. fold sent.
    rewrite D0. split; [|split].
    + destruct (success sent) eqn:S.
      * cbn [snd]. rewrite finish_push_logs_next.
        unfold sent, sendTelegramMessage in *.
        destruct (api botToken _ _); [discriminate|reflexivity].
      * cbn [snd]. destruct (userBlocked sent) as [[|]|];
          try apply finish_push_logs_next.
        rewrite deactivateUser_eq. cbn [snd].
        destruct (D1.due (finish (error sent) (PendingLog.id log) (D1.next db)));
          reflexivity.
    + unfold sent, sendTelegramMessage.
      destruct (api botToken _ _); [discriminate|reflexivity].
    + intros F. destruct (sendTelegramMessage_failed _ _ _ _ _ F) as (msg & E & _).
      now exists msg.
  - intros log counts db e D0 D1. rewrite pushOne_eq. cbv zeta.
    now rewrite D0, D1.
  - intros db. rewrite pushTask_eq.
    destruct (D1.due db) as [e|].
    { exists (fun pl => pl). split; [apply settles_id|]. cbn. now rewrite map_id. }
    destruct (length (pendingRows db) =? 0)%nat.
    { exists (fun pl => pl). split; [apply settles_id|]. cbn. now rewrite map_id. }
    destruct (push_loop_settles api botToken (pendingRows db)
                (mkPushCounts 0 0) (D1.next db))
      as (r & c & db1 & f & E & Sf & L & _).
    rewrite E. exists f. split; [exact Sf|].
    destruct r as [[]|e]; exact L.
Qed.

(** ** Running ingestion twice *)

Lemma getUnpushedPosts_eq (limit : nat) (db : D1Database) :
  getUnpushedPosts limit db =
  (Normal (match D1.due db with Some _ => [] | None => unpushedPosts limit db end),
   D1.next db).
Proof.
  unfold getUnpushedPosts, tryCatch, D1.query, D1.statement, ret.
  destruct (D1.due db); reflexivity.
Qed.

Lemma rssMonitorTask_state (feed : FetchOutcome) (db : D1Database) :
  snd (rssMonitorTask feed db) =
  if (length (fetchRSSData feed) =? 0)%nat then db
  else
    let db1 := snd (savePostsToDatabase (fetchRSSData feed) db) in
    let unpushed := fst (getUnpushedPosts 50 db1) in
    match unpushed with
    | Normal (p :: ps) => snd (createPushLogs (p :: ps) (D1.next db1))
    | _ => D1.next db1
    end.
Proof.
  unfold rssMonitorTask, tryCatch.
  destruct (length (fetchRSSData feed) =? 0)%nat; [reflexivity|].
  unfold bind. rewrite savePostsToDatabase_eq. cbn [fst snd].
  rewrite getUnpushedPosts_eq. cbn [fst snd].
  destruct (match D1.due _ with Some _ => [] | None => _ end) as [|p ps];
    cbn [length Nat.ltb Nat.leb]; [reflexivity|].
  rewrite createPushLogs_eq. reflexivity.
Qed.

Lemma fanOutUser_no_fault (post : DBPost.t) (user : User.t) (counts : LogCounts)
    (db : D1Database) :
  D1.faults db = [] ->
  exists counts' db',
    fanOutUser post user (counts, db) = (Normal tt, (counts', db'))
    /\ D1.faults db' = [] /\ D1.posts db' = D1.posts db.
Proof.
  intros NF. rewrite fanOutUser_eq.
  rewrite (due_no_faults db NF), (next_no_faults db NF).
  destruct (first_match post (userKeywords (User.id user) db))
    as [N|(pre & keywords & rest & E & N & M)].
  - rewrite (scanKeywords_none _ _ _ _ N). now exists counts, db.
  - rewrite E, (scanKeywords_first _ _ _ _ _ _ N M).
    unfold recordMatch. cbn [fst snd].
    rewrite (due_no_faults db NF), !(next_no_faults db NF), (due_no_faults db NF).
    destruct (findPushLog _ _ _ db).
    + now exists (incTotal counts), db.
    + eexists _, _. split; [reflexivity|]. split; [exact NF|reflexivity].
Qed.

Lemma fanOutUsers_no_fault (post : DBPost.t) (users : list User.t)
    (counts : LogCounts) (db : D1Database) :
  D1.faults db = [] ->
  exists counts' db',
    forOf users (fanOutUser post) (counts, db) = (Normal tt, (counts', db'))
    /\ D1.faults db' = [] /\ D1.posts db' = D1.posts db.
Proof.
  revert counts db; induction users as [|u users IH]; intros counts db NF.
  - now exists counts, db.
  - cbn [forOf]. unfold bind.
    destruct (fanOutUser_no_fault post u counts db NF) as (c1 & db1 & E & NF1 & P1).
    rewrite E. destruct (IH c1 db1 NF1) as (c2 & db2 & E2 & NF2 & P2).
    exists c2, db2. split; [exact E2|]. split; [exact NF2|congruence].
Qed.

Lemma setPushed_markedBy (batch : list DBPost.t) (r : DBPost.t) :
  markedBy batch (setPushed r) = setPushed (markedBy batch r).
Proof.
  unfold markedBy. cbn [setPushed DBPost.post_id].
  now destruct (existsb _ batch).
Qed.

Lemma fanOutPosts_no_fault (users : list User.t) (batch : list DBPost.t)
    (counts : LogCounts) (db : D1Database) :
  D1.faults db = [] ->
  exists counts' db',
    forOf batch (fanOutPost users) (counts, db) = (Normal tt, (counts', db'))
    /\ D1.faults db' = []
    /\ D1.posts db' = map (markedBy batch) (D1.posts db).
Proof.
  revert counts db; induction batch as [|post batch IH]; intros counts db NF.
  - exists counts, db. repeat split; auto.
    unfold markedBy. cbn [existsb]. now rewrite map_id.
  - cbn [forOf]. unfold bind at 1. unfold fanOutPost at 1. unfold bind at 1.
    destruct (fanOutUsers_no_fault post users counts db NF)
      as (c1 & db1 & E & NF1 & P1).
    rewrite E. unfold onState. cbn [fst snd]. rewrite markPostAsPushed_eq.
    rewrite (due_no_faults db1 NF1), (next_no_faults db1 NF1).
    destruct (IH c1 (markPushed (DBPost.post_id post) db1)) as (c2 & db2 & E2 & NF2 & P2).
    { exact NF1. }
    exists c2, db2. split; [exact E2|]. split; [exact NF2|].
    rewrite P2. cbn [markPushed D1.withPosts D1.posts]. rewrite P1, map_map.
    apply map_ext. intros r. unfold markedBy at 2. cbn [existsb].
    destruct (D1.eqNull (DBPost.post_id r) (DBPost.post_id post)); cbn [orb].
    + rewrite setPushed_markedBy. unfold markedBy.
      now destruct (existsb _ batch).
    + reflexivity.
Qed.

Lemma createPushLogs_no_fault (batch : list DBPost.t) (db : D1Database) :
  D1.faults db = [] ->
  D1.faults (snd (createPushLogs batch db)) = []
  /\ D1.posts (snd (createPushLogs batch db)) = map (markedBy batch) (D1.posts db).
Proof.
  intros NF. rewrite createPushLogs_eq. cbn [snd].
  unfold fanOut, bind, onState. cbn [fst snd]. rewrite getActiveUsers_eq.
  rewrite (next_no_faults db NF).
  destruct (fanOutPosts_no_fault
              (match D1.due db with Some _ => [] | None => activeUsers db end)
              batch (mkLogCounts 0 0) db NF) as (c & db' & E & NF' & P).
  rewrite E. now split.
Qed.

Lemma findPost_in (k : Z) (r : DBPost.t) (db : D1Database) :
  In r (D1.posts db) -> DBPost.post_id r = Some k -> findPost (Some k) db <> None.
Proof.
  unfold findPost. intros I E.
  destruct (find _ (D1.posts db)) eqn:F; [discriminate|].
  pose proof (find_none _ _ F r I) as H. cbn beta in H. rewrite E in H.
  cbn in H.
  rewrite Z.eqb_refl in H. discriminate.
Qed.

Lemma save_loop_noop (posts : list RSSPost.t) (n : nat) (db : D1Database) :
  D1.faults db = [] ->
  (forall post, In post posts ->
     findPost (D1.bound (Js.parseInt (RSSPost.id post))) db <> None) ->
  forOf posts savePost (n, db) = (Normal tt, (n, db)).
Proof.
  intros NF. induction posts as [|post posts IH]; intros All; [reflexivity|].
  cbn [forOf]. unfold bind. rewrite savePost_eq.
  rewrite (due_no_faults db NF), (next_no_faults db NF).
  destruct (findPost (D1.bound (Js.parseInt (RSSPost.id post))) db) eqn:F.
  - apply IH. intros p I. apply All. now right.
  - exfalso. apply (All post); [now left|exact F].
Qed.

Lemma unpushed_all (db : D1Database) (r : DBPost.t) :
  length (filter (fun p => (DBPost.is_push p =? 0)%Z) (D1.posts db)) <= 50 ->
  In r (D1.posts db) -> DBPost.is_push r = 0%Z -> In r (unpushedPosts 50 db).
Proof.
  intros L I Z0. unfold unpushedPosts. rewrite firstn_all2.
  - apply (Permutation_in _ (Permutation_sym (orderBy_perm _ _))).
    apply filter_In. split; [exact I|]. now rewrite Z0.
  - now rewrite (Permutation_length (orderBy_perm _ _)).
Qed.

Lemma markedBy_post_id (batch : list DBPost.t) (r : DBPost.t) :
  DBPost.post_id (markedBy batch r) = DBPost.post_id r.
Proof. unfold markedBy. now destruct (existsb _ batch). Qed.

Lemma markedBy_pushed (batch : list DBPost.t) (r : DBPost.t) :
  (DBPost.is_push r = 0%Z -> In r batch -> DBPost.post_id r <> None) ->
  (DBPost.is_push r = 0%Z -> In r batch) ->
  DBPost.is_push (markedBy batch r) <> 0%Z.
Proof.
  intros Key Cover. unfold markedBy.
  destruct (existsb _ batch) eqn:Ex; [cbn; lia|].
  intros Z0. specialize (Cover Z0). specialize (Key Z0 Cover).
  assert (H : existsb (fun p => D1.eqNull (DBPost.post_id r) (DBPost.post_id p))
                batch = true).
  { apply existsb_exists. exists r. split; [exact Cover|].
    destruct (DBPost.post_id r) as [k|]; [cbn; apply Z.eqb_refl|now elim Key]. }
  congruence.
Qed.

Lemma filter_nil {A : Type} (f : A -> bool) (l : list A) :
  (forall x, In x l -> f x = false) -> filter f l = [].
Proof.
  induction l as [|x l IH]; intros H; cbn [filter]; [reflexivity|].
  rewrite (H x (or_introl eq_refl)). apply IH. intros y I. apply H. now right.
Qed.

(** After a first run with no failing statement that fans out every
    unmatched post, the store is settled: no post is unmatched and every
    post of the feed has its row. *)
Lemma first_run_settles (feed : FetchOutcome) (db : D1Database) :
  fetchRSSData feed <> [] ->
  D1.faults db = [] ->
  (forall post, In post (fetchRSSData feed) ->
     D1.bound (Js.parseInt (RSSPost.id post)) <> None) ->
  (forall r, In r (D1.posts db) -> DBPost.is_push r = 0%Z ->
     DBPost.post_id r <> None) ->
  length (filter (fun p => (DBPost.is_push p =? 0)%Z)
            (D1.posts (snd (savePostsToDatabase (fetchRSSData feed) db)))) <= 50 ->
  D1.faults (snd (rssMonitorTask feed db)) = []
  /\ (forall r, In r (D1.posts (snd (rssMonitorTask feed db))) ->
        DBPost.is_push r <> 0%Z)
  /\ (forall post, In post (fetchRSSData feed) ->
        findPost (D1.bound (Js.parseInt (RSSPost.id post))) (snd (rssMonitorTask feed db))
        <> None).
Proof.
  intros NE NF H1 H2 H3. rewrite rssMonitorTask_state.
  destruct (fetchRSSData feed) as [|p0 ps0] eqn:EP; [now elim NE|].
  cbn [length Nat.eqb]. rewrite <- EP in *. clear NE. cbv zeta.
  set (posts := fetchRSSData feed) in *.
  set (dbs := snd (savePostsToDatabase posts db)) in *.
  destruct (save_loop posts 0 db) as (r0 & n0 & db0 & new & E0 & P0 & _ & _ & _ & _ & Fr).
  destruct (save_loop_complete posts 0 db NF) as (n1 & db1 & E1 & NF1 & Keep & All).
  assert (Edbs : dbs = db1).
  { subst dbs. rewrite savePostsToDatabase_eq, E1. reflexivity. }
  assert (Edb0 : db0 = db1) by (rewrite E1 in E0; now injection E0).
  subst db0. rewrite Edbs in *. clear Edbs dbs.
  assert (Keys : forall r, In r (D1.posts db1) -> DBPost.is_push r = 0%Z ->
                   DBPost.post_id r <> None).
  { intros r I Z0. rewrite P0 in I. apply in_app_or in I. destruct I as [I|I].
    - now apply H2.
    - apply in_split in I. destruct I as (before & after & ->).
      destruct (Fr _ _ _ eq_refl) as [(post & st & Ip & ->) _].
      cbn [rowOfPost DBPost.post_id]. now apply H1. }
  assert (Found : forall post, In post posts ->
            exists r k, In r (D1.posts db1) /\ DBPost.post_id r = Some k
                        /\ D1.bound (Js.parseInt (RSSPost.id post)) = Some k).
  { intros post I. destruct (D1.bound (Js.parseInt (RSSPost.id post))) as [k|] eqn:K.
    - destruct (All post k I K) as (r & Ir & Er). now exists r, k.
    - now elim (H1 post I). }
  rewrite getUnpushedPosts_eq. cbn [fst].
  rewrite (due_no_faults db1 NF1), (next_no_faults db1 NF1).
  destruct (unpushedPosts 50 db1) as [|p ps] eqn:EU.
  - split; [exact NF1|]. split.
    + intros r I Z0. pose proof (unpushed_all db1 r H3 I Z0) as C.
      rewrite EU in C. destruct C.
    + intros post I. destruct (Found post I) as (r & k & Ir & Er & ->).
      now apply (findPost_in k r).
  - rewrite <- EU.
    destruct (createPushLogs_no_fault (unpushedPosts 50 db1) db1 NF1) as [NF2 P2].
    split; [exact NF2|]. split.
    + intros r' I. rewrite P2 in I. apply in_map_iff in I.
      destruct I as (r & <- & I). apply markedBy_pushed.
      * intros Z0 _. now apply Keys.
      * intros Z0. now apply unpushed_all.
    + intros post I. destruct (Found post I) as (r & k & Ir & Er & ->).
      apply (findPost_in k (markedBy (unpushedPosts 50 db1) r)).
      * rewrite P2. now apply in_map.
      * now rewrite markedBy_post_id.
Qed.

(** C4, as the code has it.  Take a feed and a store where no statement
    fails, the identifier of every post of the feed is stored as a number
    ([parseInt] reads a finite number in it: not the fallback [item-N], and
    not a token too long for a double, which are bound as NULL), no
    unmatched row of [posts] has a NULL identifier, and at most 50 posts
    are unmatched once the first run has saved the feed.  Then a second run
    on the same feed changes nothing: [posts] and [push_logs] are what the
    first run left. *)
Theorem ingestion_twice (feed : FetchOutcome) (db : D1Database) :
  let db1 := snd (rssMonitorTask feed db) in
  let db2 := snd (rssMonitorTask feed db1) in
  D1.faults db = [] ->
  (forall post, In post (fetchRSSData feed) ->
     D1.bound (Js.parseInt (RSSPost.id post)) <> None) ->
  (forall r, In r (D1.posts db) -> DBPost.is_push r = 0%Z ->
     DBPost.post_id r <> None) ->
  length (filter (fun p => (DBPost.is_push p =? 0)%Z)
            (D1.posts (snd (savePostsToDatabase (fetchRSSData feed) db)))) <= 50 ->
  D1.posts db2 = D1.posts db1 /\ D1.push_logs db2 = D1.push_logs db1.
Proof.
  intros db1 db2 NF H1 H2 H3.
  assert (E : db2 = db1); [|now rewrite E].
  subst db2. destruct (fetchRSSData feed) as [|p0 ps0] eqn:EP.
  { subst db1. rewrite !rssMonitorTask_state, EP. reflexivity. }
  assert (NE : fetchRSSData feed <> []) by congruence.
  rewrite <- EP in *.
  destruct (first_run_settles feed db NE NF H1 H2 H3) as (NF1 & Pushed & Found).
  fold db1 in NF1, Pushed, Found.
  rewrite rssMonitorTask_state, EP. cbn [length Nat.eqb]. rewrite <- EP. cbv zeta.
  assert (Save : snd (savePostsToDatabase (fetchRSSData feed) db1) = db1).
  { rewrite savePostsToDatabase_eq.
    now rewrite (save_loop_noop (fetchRSSData feed) 0 db1 NF1 Found). }
  rewrite Save, getUnpushedPosts_eq. cbn [fst].
  rewrite (due_no_faults db1 NF1), (next_no_faults db1 NF1).
  unfold unpushedPosts. rewrite filter_nil.
  - unfold D1.orderBy. cbn [fold_right]. now rewrite firstn_nil.
  - intros r I. apply Z.eqb_neq. now apply Pushed.
Qed.

(** * The properties at sample inputs *)

Import Sample.

Lemma hasTag_includes (tag item : string) :
  hasTag tag item -> Js.includes item ("<" ++ tag ++ ">")%string = true.
Proof.
  intros (a & g & b & ->). apply includes_iff. now exists a, (g ++ ("</" ++ tag ++ ">") ++ b)%string.
Qed.

(** The sample stores are states the code reaches: ingesting [helloFeed]
    into the fresh store gives [pendingStore], whose pending batch is
    [pendingLog]. *)
Example pendingStore_reached :
  snd (rssMonitorTask (Response true helloFeed) (freshStore [])) = pendingStore []
  /\ pendingRows (pendingStore []) = [pendingLog].
Proof. split; reflexivity. Qed.

(** C9 at the one item of [helloFeed]: it has no category and no
    description, and its link holds the token 42. *)
Lemma parseRSSXML_item_witness :
  nth_error (Regex.items 0 helloFeed) 0 = Some helloItem
  /\ exists post,
       nth_error (parseRSSXML helloFeed) 0 = Some post
       /\ RSSPost.category post = "未分类"%string
       /\ RSSPost.description post = ""%string
       /\ allDigits (RSSPost.id post) = true
       /\ RSSPost.id post = "42"%string.
Proof.
  split; [reflexivity|].
  destruct (parseRSSXML_item helloFeed 0 helloItem eq_refl)
    as (post & H0 & _ & Hd & Hc & _ & _ & _ & Htok & _).
  exists post. split; [exact H0|]. split; [|split; [|split]].
  - apply Hc. intros H. apply hasTag_includes in H. discriminate H.
  - apply Hd. intros H. apply hasTag_includes in H. discriminate H.
  - apply (Htok "https://www.nodeseek.com/post-42-1"%string
             "https://www.nodeseek.com/"%string "42"%string "1"%string);
      [reflexivity|reflexivity|discriminate|reflexivity].
  - assert (E : nth_error (parseRSSXML helloFeed) 0
              = Some (RSSPost.mk "42" "Hello" "" "" "未分类" "bob")) by reflexivity.
    rewrite E in H0. now injection H0 as <-.
Defined.

(** C8 at the empty string and at a feed cut before the closing tag. *)
Lemma parseRSSXML_total_witness :
  parseRSSXML "" = [] /\ parseRSSXML "<rss><item><title>Hello</title>" = [].
Proof.
  split.
  - destruct (parseRSSXML_total "") as (posts & <- & _ & _ & H & _). now apply H.
  - destruct (parseRSSXML_total "<rss><item><title>Hello</title>")
      as (posts & <- & _ & _ & _ & _ & H).
    apply H. intros O. apply includes_iff in O. discriminate O.
Defined.

(** C3 at a post in capitals and a filter in small letters, with an
    accented letter and a Greek word that ends in sigma: it matches. *)
Lemma matchKeywords_iff_witness :
  matchKeywords
    (DBPost.mk 1 (Some 42%Z) "Grand CAFÉ" "ΟΔΟΣ" "" "未分类" "bob" 0 0)
    (KeywordSub.mk 3 7 2 (Some "café"%string) (Some "οδος"%string) None 1)
  = true.
Proof.
  destruct (matchKeywords_iff
              (DBPost.mk 1 (Some 42%Z) "Grand CAFÉ" "ΟΔΟΣ" "" "未分类" "bob" 0 0)
              (KeywordSub.mk 3 7 2 (Some "café"%string) (Some "οδος"%string)
                 None 1)) as [[_ H] _].
  apply H. split; [|right; left; split; [reflexivity|]].
  - exists "café"%string. split; [reflexivity|]. split; [discriminate|].
    exists "grand "%string, " οδος 未分类 bob"%string. vm_compute. reflexivity.
  - exists "οδος"%string. split; [reflexivity|]. split; [discriminate|].
    exists "grand café "%string, " 未分类 bob"%string. vm_compute. reflexivity.
Defined.

(** C5. The code at a post that is already stored.  The one item of
    [noLinkFeed] has no link, so its identifier is the fallback [item-0];
    [parseInt] reads no number in it and the row is stored with a NULL
    [post_id].  Saving the same post again, the existence check compares
    with NULL and finds nothing: a second row is inserted and counted,
    where the claim has no insert for a post that is already present. *)
Theorem savePostsToDatabase_inserts_again :
  let posts := parseRSSXML noLinkFeed in
  let first := savePostsToDatabase posts (freshStore []) in
  let second := savePostsToDatabase posts (snd first) in
  map RSSPost.id posts = ["item-0"%string]
  /\ map (fun post => D1.bound (Js.parseInt (RSSPost.id post))) posts = [None]
  /\ fst first = Normal 1
  /\ map (fun r => (DBPost.post_id r, DBPost.title r)) (D1.posts (snd first))
     = [(None, "Hello"%string)]
  /\ fst second = Normal 1
  /\ map (fun r => (DBPost.post_id r, DBPost.title r)) (D1.posts (snd second))
     = [(None, "Hello"%string); (None, "Hello"%string)].
Proof. vm_compute. repeat split. Qed.

(** C2. The code at a post whose obligation exists.  After [noLinkFeed]
    was ingested, the ledger holds the subscriber's obligation for the post
    by the filter 3, and the post, stored with a NULL [post_id], is still
    unmatched.  Fan-out of that post finds the same filter, its existence
    check compares with NULL and finds nothing, and a second row with the
    same subscriber, post and filter is created, where the claim has at
    most one obligation for the pair. *)
Theorem createPushLogs_repeats_key :
  let db1 := snd (rssMonitorTask (Response true noLinkFeed) (freshStore [])) in
  let batch := unpushedPosts 50 db1 in
  map keyOf (D1.push_logs db1) = [(7%Z, None, 3%Z)]
  /\ map (fun r => (DBPost.id r, DBPost.post_id r)) batch = [(1%Z, None)]
  /\ fst (createPushLogs batch db1) = Normal (mkLogCounts 1 1)
  /\ map keyOf (D1.push_logs (snd (createPushLogs batch db1)))
     = [(7%Z, None, 3%Z); (7%Z, None, 3%Z)].
Proof. vm_compute. repeat split. Qed.

(** X29 at the two sample posts and a fresh store where no statement
    fails: both are inserted and the count is 2. *)
Lemma savePostsToDatabase_upsert_witness :
  exists savedCount db',
    savePostsToDatabase [post1; post2] (freshStore []) = (Normal savedCount, db')
    /\ savedCount = 2
    /\ exists r, In r (D1.posts db') /\ DBPost.post_id r = Some 2%Z.
Proof.
  destruct (savePostsToDatabase_upsert [post1; post2] (freshStore []))
    as (n & db' & new & E & P & N & _ & _ & _ & _ & All).
  exists n, db'. split; [exact E|]. split.
  - assert (H : savePostsToDatabase [post1; post2] (freshStore [])
              = (Normal 2, savedStore [])) by reflexivity.
    rewrite H in E. now injection E as <- _.
  - apply (All eq_refl post2); [right; now left|reflexivity].
Defined.

(** X28 at the subscriber and the first saved post: one row is added, for
    the subscriber's filter. *)
Lemma fanOutUser_one_obligation_witness :
  exists r counts' db' row,
    fanOutUser (DBPost.mk 1 (Some 1%Z) "Hello 1" "" "" "未分类" "未知作者" 0 0)
      subscriber (mkLogCounts 0 0, savedStore []) = (r, (counts', db'))
    /\ D1.push_logs db' = [row]
    /\ PushLog.sub_id row = 3%Z.
Proof.
  destruct (fanOutUser_one_obligation
              (DBPost.mk 1 (Some 1%Z) "Hello 1" "" "" "未分类" "未知作者" 0 0)
              subscriber (mkLogCounts 0 0) (savedStore []))
    as (r & c & db' & E & _ & _ & _ & _ & Add).
  destruct (Add eq_refl [] helloFilter [] eq_refl (Forall_nil _) eq_refl)
    as (row & L & S); [intros []|].
  exists r, c, db', row. split; [exact E|]. split; [exact L|exact S].
Defined.

(** C6, the claim as stated, fails: the insert of the first post fails and
    every later statement would go through, yet the second post is never
    tried and no row is saved; in fan-out the insert for the first post of
    the batch fails, and the second post gets no obligation and neither is
    marked as matched. *)
Lemma batch_not_isolated :
  savePostsToDatabase [post1; post2] (freshStore [None; Some storeError])
  = (Normal 0, freshStore [])
  /\ map DBPost.post_id (unpushedPosts 50 (savedStore [])) = [Some 2%Z; Some 1%Z]
  /\ createPushLogs (unpushedPosts 50 (savedStore []))
       (savedStore [None; None; None; Some storeError])
     = (Normal (mkLogCounts 1 0), savedStore []).
Proof. repeat split. Qed.

(** C6 as the code has it, at the same inputs: the INSERT of the first
    post fails and the run returns 0 with nothing saved; the INSERT of the
    first obligation fails and the run returns with no row added and no
    post marked. *)
Lemma failing_row_ends_batch_witness :
  savePostsToDatabase [post1; post2] (freshStore [None; Some storeError])
  = (Normal 0, freshStore [])
  /\ createPushLogs (unpushedPosts 50 (savedStore []))
       (savedStore [None; None; None; Some storeError])
     = (Normal (mkLogCounts 1 0), savedStore [])
  /\ exists db', markPostAsPushed (Some 1%Z) (savedStore [Some storeError])
                 = (Normal tt, db').
Proof.
  destruct failing_row_ends_batch as (Save & Fan & _ & _ & Mark).
  split; [|split].
  - destruct (Save [] [post2] post1 (freshStore [None; Some storeError])
                (freshStore [None; Some storeError]) 0 storeError eq_refl)
      as [_ H].
    exact (H eq_refl eq_refl eq_refl).
  - destruct (Fan []
                [DBPost.mk 1 (Some 1%Z) "Hello 1" "" "" "未分类" "未知作者" 0 0]
                (DBPost.mk 2 (Some 2%Z) "Hello 2" "" "" "未分类" "未知作者" 0 1)
                [] [] subscriber
                (savedStore [None; None; None; Some storeError])
                (savedStore [None; None; Some storeError])
                (mkLogCounts 0 0, savedStore [None; None; Some storeError])
                (mkLogCounts 0 0) [] helloFilter [] storeError
                eq_refl eq_refl eq_refl eq_refl eq_refl eq_refl
                (Forall_nil _) eq_refl) as [_ H].
    exact (H eq_refl eq_refl eq_refl).
  - apply Mark.
Defined.

(** C1, the claim as stated, fails: the obligation of [pendingStore] is in
    the batch, the update after the send fails and so does the update of
    the [catch]; the run stops with [success = false] and the obligation is
    still pending. *)
Lemma dispatch_leaves_pending :
  map PendingLog.id
    (pendingRows (pendingStore [None; Some storeError; Some storeError])) = [1%Z]
  /\ option_map Result.success
       (match fst (pushTask delivers "token"
                     (pendingStore [None; Some storeError; Some storeError])) with
        | Normal res => Some res
        | Throw _ => None
        end) = Some false
  /\ map (fun pl => (PushLog.id pl, PushLog.push_status pl))
       (D1.push_logs
          (snd (pushTask delivers "token"
                  (pendingStore [None; Some storeError; Some storeError]))))
     = [(1%Z, 0%Z)].
Proof. repeat split. Qed.

(** C1 as the code has it: a run on [pendingStore] with no failing
    statement finishes the obligation; and when only the first update
    fails, the [catch] finishes it with the text of the error and the loop
    goes on. *)
Lemma pushTask_terminal_witness :
  (exists res db' f,
     pushTask delivers "token" (pendingStore []) = (Normal res, db')
     /\ Result.success res = true
     /\ D1.push_logs db' = map f (D1.push_logs (pendingStore []))
     /\ forall pl, PushLog.id pl = 1%Z -> PushLog.push_status (f pl) = 1%Z)
  /\ forOf [pendingLog] (pushOne delivers "token")
       (mkPushCounts 0 0, pendingStore [Some storeError])
     = (Normal tt,
        (mkPushCounts 0 1,
         finish (Some "Error: D1_ERROR: no such table"%string) 1 (pendingStore []))).
Proof.
  destruct (pushTask_terminal delivers "token") as (Run & Step & _).
  split.
  - destruct (pushTask delivers "token" (pendingStore [])) as [[res|e] db'] eqn:E;
      [|discriminate E].
    assert (S : Result.success res = true) by (now injection E as <- _).
    destruct (Run (pendingStore []) res db' E S) as (f & _ & L & Fin).
    exists res, db', f. split; [reflexivity|]. split; [exact S|].
    split; [exact L|]. intros pl Hid.
    apply (Fin pendingLog pl); [now left|exact Hid].
  - rewrite (Step pendingLog (mkPushCounts 0 0) (pendingStore [Some storeError])
               storeError (mkPushCounts 0 0, pendingStore []) eq_refl eq_refl []).
    reflexivity.
Defined.

(** C7, the claim as stated, fails: the channel's message holds a known
    phrase and the failure is recorded, but the update of [users] fails;
    the subscriber is still active. *)
Lemma blocked_subscriber_stays_active :
  isBlocked "Call to 'sendMessage' failed! (403: Forbidden: bot was blocked by the user)"
  = true
  /\ D1.push_logs
       (snd (pushTask blocked "token" (pendingStore [None; None; Some storeError])))
     = [ PushLog.mk 1 7 1001 (Some 42%Z) 3 1
           (Some "Call to 'sendMessage' failed! (403: Forbidden: bot was blocked by the user)"%string)
           1 ]
  /\ D1.users
       (snd (pushTask blocked "token" (pendingStore [None; None; Some storeError])))
     = [User.mk 7 1001 1].
Proof. repeat split. Qed.

(** C7 as the code has it, at a channel that refuses in capitals and a
    store where no statement fails: the message is recognised and the
    subscriber is deactivated. *)
Lemma deactivation_trigger_witness :
  success
    (sendTelegramMessage shouting "token" (PendingLog.chat_id pendingLog)
       (postOfLog pendingLog) (matchedKeywordsOf pendingLog)) = false
  /\ isBlocked "FORBIDDEN: BOT WAS BLOCKED BY THE USER" = true
  /\ D1.users
       (snd (snd (pushOne shouting "token" pendingLog
                    (mkPushCounts 0 0, pendingStore []))))
     = [User.mk 7 1001 0].
Proof.
  split; [reflexivity|].
  destruct (deactivation_trigger shouting "token" pendingLog (mkPushCounts 0 0)
              (pendingStore []) eq_refl)
    as (msg & E & _ & _ & In' & _ & _ & Off & _).
  injection E as <-.
  assert (B : isBlocked "FORBIDDEN: BOT WAS BLOCKED BY THE USER" = true).
  { apply (In' "Forbidden: bot was blocked by the user"%string ""%string
             ""%string); [now left|vm_compute; reflexivity]. }
  split; [exact B|]. exact (Off B eq_refl eq_refl).
Defined.

(** C10, the claim as stated, fails: [busyStore] is reached by three runs
    of ingestion on a feed of 101 items; 101 rows of its ledger have
    [push_status = 0] and join their post, filter and user, and the query
    selects 100 of them. *)
Lemma pending_query_is_capped :
  length (filter (fun pl => (PushLog.push_status pl =? 0)%Z)
            (D1.push_logs busyStore)) = 101
  /\ length (joinPending busyStore) = 101
  /\ length (pendingRows busyStore) = 100.
Proof. repeat split; vm_compute; reflexivity. Qed.

(** C10 as the code has it, at [pendingStore]: the one pending row is
    selected, and a delivered and a refused message both leave
    [push_status = 1]. *)
Lemma ledger_status_values_witness :
  In pendingLog (pendingRows (pendingStore []))
  /\ map PushLog.push_status
       (D1.push_logs (snd (snd (pushOne delivers "token" pendingLog
                                  (mkPushCounts 0 0, pendingStore [])))))
     = [1%Z]
  /\ map PushLog.push_status
       (D1.push_logs (snd (snd (pushOne blocked "token" pendingLog
                                  (mkPushCounts 0 0, pendingStore [])))))
     = [1%Z].
Proof.
  destruct (ledger_status_values delivers "token")
    as (_ & _ & All & _ & _ & Sent & _).
  destruct (ledger_status_values blocked "token")
    as (_ & _ & _ & _ & _ & Refused & _).
  split; [|split].
  - apply All; [vm_compute; lia|now left].
  - destruct (Sent pendingLog (mkPushCounts 0 0) (pendingStore []) eq_refl)
      as [-> _]. reflexivity.
  - destruct (Refused pendingLog (mkPushCounts 0 0) (pendingStore []) eq_refl)
      as [-> _]. reflexivity.
Defined.

(** C4, the claim as stated, fails: a feed of 51 items, each matching the
    subscriber's filter, ingested twice into the fresh store with no
    failing statement.  The first run saves 51 posts and fans out 50 of
    them; the second run adds the obligation of the last one. *)
Lemma second_run_adds_obligation :
  length (parseRSSXML (feedOf 51)) = 51
  /\ length (D1.posts
               (snd (rssMonitorTask (Response true (feedOf 51)) (freshStore []))))
     = 51
  /\ length (D1.push_logs
               (snd (rssMonitorTask (Response true (feedOf 51)) (freshStore []))))
     = 50
  /\ length (D1.push_logs
               (snd (rssMonitorTask (Response true (feedOf 51))
                       (snd (rssMonitorTask (Response true (feedOf 51))
                               (freshStore []))))))
     = 51.
Proof. repeat split; vm_compute; reflexivity. Qed.

(** C4 as the code has it, at [helloFeed] and the fresh store. *)
Lemma ingestion_twice_witness :
  D1.faults (freshStore []) = []
  /\ D1.posts
       (snd (rssMonitorTask (Response true helloFeed)
               (snd (rssMonitorTask (Response true helloFeed) (freshStore [])))))
     = D1.posts (snd (rssMonitorTask (Response true helloFeed) (freshStore [])))
  /\ D1.push_logs
       (snd (rssMonitorTask (Response true helloFeed)
               (snd (rssMonitorTask (Response true helloFeed) (freshStore [])))))
     = D1.push_logs (snd (rssMonitorTask (Response true helloFeed) (freshStore []))).
Proof.
  split; [reflexivity|].
  apply (ingestion_twice (Response true helloFeed) (freshStore [])).
  - reflexivity.
  - intros post [<-|[]]. discriminate.
  - intros r [].
  - vm_compute. lia.
Defined.

(** * Further properties *)

(** ** Letter case in the matcher and in the rejection phrases *)

(** X1. Matching does not see letter case: two posts whose title, content,
    category and creator agree once case folded, and two filters with the
    same count whose keywords agree once case folded, get the same
    answer. *)
Theorem matchKeywords_case_blind (post post' : DBPost.t)
    (keywords keywords' : KeywordSub.t) :
  Js.toLowerCase (DBPost.title post) = Js.toLowerCase (DBPost.title post') ->
  Js.toLowerCase (DBPost.content post) = Js.toLowerCase (DBPost.content post') ->
  Js.toLowerCase (DBPost.category post) = Js.toLowerCase (DBPost.category post') ->
  Js.toLowerCase (DBPost.creator post) = Js.toLowerCase (DBPost.creator post') ->
  KeywordSub.keywords_count keywords = KeywordSub.keywords_count keywords' ->
  option_map Js.toLowerCase (KeywordSub.keyword1 keywords)
  = option_map Js.toLowerCase (KeywordSub.keyword1 keywords') ->
  option_map Js.toLowerCase (KeywordSub.keyword2 keywords)
  = option_map Js.toLowerCase (KeywordSub.keyword2 keywords') ->
  option_map Js.toLowerCase (KeywordSub.keyword3 keywords)
  = option_map Js.toLowerCase (KeywordSub.keyword3 keywords') ->
  matchKeywords post keywords = matchKeywords post' keywords'.
Proof.
  intros T C G A N K1 K2 K3. unfold matchKeywords.
  now rewrite (searchTextOf_case post post' T C G A), N, K1, K2, K3.
Qed.

(** X1 at two spellings of one post and one filter: capitals against
    small letters, in Latin with an accent, in Greek with a final sigma
    and in Cyrillic. *)
Lemma matchKeywords_case_blind_witness :
  matchKeywords
    (DBPost.mk 1 (Some 42%Z) "Café ΟΔΟΣ" "" "" "Новости" "bob" 0 0)
    (KeywordSub.mk 3 7 2 (Some "CAFÉ"%string) (Some "ΟΔΟΣ"%string) None 1)
  = matchKeywords
      (DBPost.mk 1 (Some 42%Z) "CAFÉ οδος" "" "" "НОВОСТИ" "BOB" 0 0)
      (KeywordSub.mk 3 7 2 (Some "café"%string) (Some "οδος"%string) None 1)
  /\ matchKeywords
       (DBPost.mk 1 (Some 42%Z) "CAFÉ οδος" "" "" "НОВОСТИ" "BOB" 0 0)
       (KeywordSub.mk 3 7 2 (Some "café"%string) (Some "οδος"%string) None 1)
     = true.
Proof.
  split; [|vm_compute; reflexivity].
  apply matchKeywords_case_blind; vm_compute; reflexivity.
Defined.

(** X2. The count decides which slots are read.  With count 1 the second
    and third keywords play no part, with count 2 the third plays none; and
    for the same keywords a filter that matches with count 3 matches with
    count 2, and one that matches with count 2 matches with count 1. *)
Theorem matchKeywords_count (post : DBPost.t) (keywords : KeywordSub.t) :
  (forall k2 k3,
      matchKeywords post (withSlots k2 k3 (withCount 1 keywords))
      = matchKeywords post (withCount 1 keywords))
  /\ (forall k3,
        matchKeywords post
          (withSlots (KeywordSub.keyword2 keywords) k3 (withCount 2 keywords))
        = matchKeywords post (withCount 2 keywords))
  /\ (matchKeywords post (withCount 3 keywords) = true ->
      matchKeywords post (withCount 2 keywords) = true)
  /\ (matchKeywords post (withCount 2 keywords) = true ->
      matchKeywords post (withCount 1 keywords) = true).
Proof.
  rewrite !matchKeywords_slots. cbn [withCount KeywordSub.keywords_count
    KeywordSub.keyword1 KeywordSub.keyword2 KeywordSub.keyword3 Z.eqb Pos.eqb].
  split; [|split; [|split]].
  - intros k2 k3. now rewrite !matchKeywords_slots.
  - intros k3. now rewrite !matchKeywords_slots.
  - rewrite !andb_true_iff. tauto.
  - rewrite !andb_true_iff. tauto.
Qed.

(** X2 at a filter whose second keyword does not occur: it matches with
    count 1 and not with count 2. *)
Lemma matchKeywords_count_witness :
  matchKeywords (DBPost.mk 1 (Some 42%Z) "Hello" "" "" "未分类" "bob" 0 0)
    (withSlots (Some "absent"%string) None (withCount 1 helloFilter)) = true
  /\ matchKeywords (DBPost.mk 1 (Some 42%Z) "Hello" "" "" "未分类" "bob" 0 0)
       (withSlots (Some "absent"%string) None (withCount 2 helloFilter)) = false.
Proof.
  destruct (matchKeywords_count
              (DBPost.mk 1 (Some 42%Z) "Hello" "" "" "未分类" "bob" 0 0)
              helloFilter) as (One & _).
  split; [|reflexivity].
  rewrite (One (Some "absent"%string) None). reflexivity.
Defined.

(** X3. A failure message is recognised as a permanent rejection whenever
    one of the five phrases stands anywhere in it, in any letter case: the
    answer depends on the case-folded message only. *)
Theorem isBlocked_by_containment (errorMessage : string) :
  (forall m, Js.toLowerCase m = Js.toLowerCase errorMessage ->
             isBlocked m = isBlocked errorMessage)
  /\ (forall phrase a b,
        In phrase blockedErrors ->
        Js.toLowerCase errorMessage = Js.toLowerCase (a ++ phrase ++ b)%string ->
        isBlocked errorMessage = true).
Proof.
  split.
  - intros m E. unfold isBlocked. now rewrite E.
  - intros phrase a b I E. apply isBlocked_iff. exists phrase.
    split; [exact I|]. rewrite E.
    destruct (blockedErrors_ascii phrase I) as [As Ne].
    now apply toLowerCase_within.
Qed.

(** X3 at the channel's text in capitals, with the Kelvin sign (U+212A)
    for one K. *)
Lemma isBlocked_by_containment_witness :
  isBlocked "ERROR 403: FORBIDDEN: BOT WAS BLOCKED BY THE USER (chat 1001)" = true
  /\ isBlocked "Forbidden: bot was blocKed by the user" = true.
Proof.
  split.
  - destruct (isBlocked_by_containment
                "ERROR 403: FORBIDDEN: BOT WAS BLOCKED BY THE USER (chat 1001)")
      as [_ H].
    apply (H "Forbidden: bot was blocked by the user"%string
             "error 403: "%string " (chat 1001)"%string);
      [now left|vm_compute; reflexivity].
  - destruct (isBlocked_by_containment "Forbidden: bot was blocKed by the user")
      as [_ H].
    apply (H "Forbidden: bot was blocked by the user"%string
             ""%string ""%string);
      [now left|vm_compute; reflexivity].
Defined.

(** ** Identifiers from the parser to the store *)

Lemma digit_facts (c : ascii) :
  Js.isDigit c = true ->
  (Js.byte c <? 128)%Z = true
  /\ Js.isWhite (Js.byte c) = false
  /\ (exists v, Js.digitValue c = Some v /\ (0 <= v < 10)%Z)
  /\ Js.startsWith (String c EmptyString) "x" = false
  /\ Js.startsWith (String c EmptyString) "X" = false
  /\ Js.startsWith (String c EmptyString) "-" = false
  /\ Js.startsWith (String c EmptyString) "+" = false.
Proof.
  destruct c as [[] [] [] [] [] [] [] []]; intros D; try discriminate D;
    (split; [reflexivity|]); (split; [reflexivity|]);
    (split; [eexists; split; [vm_compute; reflexivity|lia]|]);
    repeat split.
Qed.

Lemma readDigits_digits (d : string) (seen : bool) (acc : Z) :
  allDigits d = true -> (seen = true \/ d <> ""%string) -> (0 <= acc)%Z ->
  exists k, Js.readDigits 10 d seen acc = Some k /\ (0 <= k)%Z.
Proof.
  revert seen acc; induction d as [|c d IH]; intros seen acc A S P.
  - destruct S as [->|S]; [now exists acc|now elim S].
  - cbn [allDigits] in A. apply andb_true_iff in A. destruct A as [D A].
    destruct (digit_facts c D) as (_ & _ & (v & V & R) & _).
    cbn [Js.readDigits]. rewrite V.
    destruct (Z.ltb_spec v 10); [|lia].
    apply IH; [exact A|now left|lia].
Qed.

Lemma digits_no_sign (c : ascii) (d : string) :
  Js.isDigit c = true ->
  match String c d with
  | String "-" r => (true, r)
  | String "+" r => (false, r)
  | _ => (false, String c d)
  end = (false, String c d).
Proof.
  destruct c as [[] [] [] [] [] [] [] []]; intros D; try discriminate D;
    reflexivity.
Qed.

Lemma digits_no_hex (d : string) :
  allDigits d = true ->
  Js.startsWith d "0x" || Js.startsWith d "0X" = false.
Proof.
  destruct d as [|c [|c' d']]; intros A; [reflexivity| |].
  - destruct c as [[] [] [] [] [] [] [] []]; reflexivity.
  - cbn [allDigits] in A. apply andb_true_iff in A. destruct A as [_ A].
    apply andb_true_iff in A. destruct A as [D' _].
    destruct c' as [[] [] [] [] [] [] [] []]; try discriminate D';
      destruct c as [[] [] [] [] [] [] [] []]; reflexivity.
Qed.

(** No white space stands before a digit: trimming the start of a run of
    digits keeps it. *)
Lemma trimStart_digit (c : ascii) (d : string) :
  Js.isDigit c = true -> Js.trimStart (String c d) = String c d.
Proof.
  intros D. destruct (digit_facts c D) as (A & W & _).
  unfold Js.trimStart. cbn [Js.trimStartFrom]. unfold Js.whiteAt, Js.decode1.
  rewrite A. cbn [fst snd]. now rewrite W.
Qed.

(** [parseInt] of a run of digits is the number its digits spell, made a
    double. *)
Lemma parseInt_digits (d : string) :
  allDigits d = true -> d <> ""%string ->
  exists n,
    Js.readDigits 10 d false 0 = Some n /\ (0 <= n)%Z
    /\ Js.parseInt d = Js.toNumber n.
Proof.
  intros A N. destruct d as [|c d]; [now elim N|].
  destruct (readDigits_digits (String c d) false 0 A (or_intror N))
    as (n & K & P); [lia|].
  exists n. split; [exact K|]. split; [exact P|].
  pose proof (digits_no_hex _ A) as Hex.
  cbn [allDigits] in A. apply andb_true_iff in A. destruct A as [D _].
  unfold Js.parseInt. rewrite (trimStart_digit c d D).
  rewrite (digits_no_sign c d D), Hex, K. reflexivity.
Qed.

Lemma parseInt_fallbackId (index : nat) :
  Js.parseInt (fallbackId index) = Js.NaN.
Proof. reflexivity. Qed.

Lemma nearest_nonneg (n : Z) : (0 <= n)%Z -> (0 <= Js.nearest n)%Z.
Proof.
  intros P. unfold Js.nearest. destruct (n <? 2 ^ 53)%Z; [exact P|].
  cbv zeta. apply Z.shiftl_nonneg.
  assert (0 <= Z.shiftr n (Z.log2 n - 52))%Z by now apply Z.shiftr_nonneg.
  destruct (_ || _); lia.
Qed.

Lemma toNumber_nonneg (n : Z) :
  (0 <= n)%Z ->
  (exists k, Js.toNumber n = Js.Finite k /\ (0 <= k)%Z)
  \/ Js.toNumber n = Js.Infinity false.
Proof.
  intros P. unfold Js.toNumber. rewrite (Z.abs_eq n P).
  pose proof (nearest_nonneg n P) as H.
  destruct (Js.nearest n <? 2 ^ 1024)%Z.
  - left. eexists. split; [reflexivity|]. nia.
  - right. f_equal. apply Z.ltb_ge. exact P.
Qed.

Lemma toNumber_exact (n : Z) :
  (0 <= n < 2 ^ 53)%Z -> Js.toNumber n = Js.Finite n.
Proof.
  intros [P L]. unfold Js.toNumber, Js.nearest. rewrite (Z.abs_eq n P).
  destruct (Z.ltb_spec n (2 ^ 53)); [|lia].
  destruct (Z.ltb_spec n (2 ^ 1024)).
  - f_equal. destruct n; cbn; lia.
  - assert (2 ^ 53 < 2 ^ 1024)%Z by (apply Z.pow_lt_mono_r; lia). lia.
Qed.

(** X4. The identifier of a parsed post reads as [NaN] exactly when it is
    the fallback [item-index]; otherwise it is a token of the link, and it
    reads as the number its digits spell, made a double: that number
    itself below 2^53, never a negative one, an infinity when the token is
    too long.  So the row saved for a post has a NULL [post_id] exactly
    when the link gave no token or a token that reads as an infinity. *)
Theorem parseItem_numeric_id (item : string) (index : nat) (db : D1Database) :
  let post := parseItem item index in
  (Js.parseInt (RSSPost.id post) = Js.NaN <-> RSSPost.id post = fallbackId index)
  /\ (RSSPost.id post <> fallbackId index ->
      linkToken (RSSPost.id post) item
      /\ exists n,
           Js.readDigits 10 (RSSPost.id post) false 0 = Some n
           /\ (0 <= n)%Z
           /\ Js.parseInt (RSSPost.id post) = Js.toNumber n
           /\ ((n < 2 ^ 53)%Z -> Js.parseInt (RSSPost.id post) = Js.Finite n))
  /\ (forall k, Js.parseInt (RSSPost.id post) = Js.Finite k -> (0 <= k)%Z)
  /\ (DBPost.post_id (rowOfPost post db) = None <->
      RSSPost.id post = fallbackId index
      \/ Js.parseInt (RSSPost.id post) = Js.Infinity false).
Proof.
  intros post.
  assert (Tok : RSSPost.id post <> fallbackId index ->
                linkToken (RSSPost.id post) item
                /\ exists n,
                     Js.readDigits 10 (RSSPost.id post) false 0 = Some n
                     /\ (0 <= n)%Z
                     /\ Js.parseInt (RSSPost.id post) = Js.toNumber n).
  { intros NF. destruct (parseItem_id item index) as [[T _]|[F _]];
      [|now elim NF].
    fold post in T. split; [exact T|]. destruct T as (N & A & _).
    exact (parseInt_digits _ A N). }
  assert (Nan : Js.parseInt (RSSPost.id post) = Js.NaN
                <-> RSSPost.id post = fallbackId index).
  { split.
    - intros H.
      destruct (parseItem_id item index) as [[(N & A & _) _]|[F _]]; [|exact F].
      destruct (parseInt_digits _ A N) as (n & _ & P & K). fold post in K.
      rewrite K in H. destruct (toNumber_nonneg n P) as [(k & E & _)|E];
        rewrite E in H; discriminate H.
    - intros ->. apply parseInt_fallbackId. }
  split; [exact Nan|]. split; [|split].
  - intros NF. destruct (Tok NF) as (T & n & R & P & K).
    split; [exact T|]. exists n. do 3 (split; [assumption|]).
    intros L. rewrite K. apply toNumber_exact. now split.
  - intros k K.
    destruct (parseItem_id item index) as [[(N & A & _) _]|[F _]].
    + destruct (parseInt_digits _ A N) as (n & _ & P & K'). fold post in K'.
      rewrite K' in K. destruct (toNumber_nonneg n P) as [(k' & E & P')|E];
        rewrite E in K; [now injection K as <-|discriminate K].
    + fold post in F. rewrite F, parseInt_fallbackId in K. discriminate K.
  - cbn [rowOfPost DBPost.post_id]. split.
    + intros H.
      destruct (Js.parseInt (RSSPost.id post)) as [|k|[|]] eqn:K;
        try discriminate H.
      * left. now apply Nan.
      * destruct (parseItem_id item index) as [[(N & A & _) _]|[F _]];
          [|now left].
        destruct (parseInt_digits _ A N) as (n & _ & P & K'). fold post in K'.
        rewrite K' in K. destruct (toNumber_nonneg n P) as [(k' & E & _)|E];
          rewrite E in K; discriminate K.
      * now right.
    + intros [F|I].
      * rewrite F, parseInt_fallbackId. reflexivity.
      * now rewrite I.
Qed.

(** ** The items of a feed *)

Lemma anyLazy_shortest (close u r : string) :
  exists g, Regex.anyLazy close (u ++ close ++ r)%string = Some g
            /\ String.length g <= String.length u.
Proof.
  induction u as [|c u IH].
  - exists ""%string. cbn [append].
    replace (Regex.anyLazy close (close ++ r)%string) with (Some ""%string);
      [split; [reflexivity|cbn; lia]|].
    destruct (close ++ r)%string eqn:E; cbn [Regex.anyLazy];
      rewrite <- E, startsWith_app; reflexivity.
  - cbn [append Regex.anyLazy].
    destruct (Js.startsWith (String c (u ++ close ++ r)) close).
    + exists ""%string. split; [reflexivity|cbn; lia].
    + destruct IH as (g & -> & L). exists (String c g).
      split; [reflexivity|cbn; lia].
Qed.

Lemma anyLazy_no_close (close s g : string) :
  close <> ""%string ->
  Regex.anyLazy close s = Some g -> ~ occursIn close g.
Proof.
  intros NE H (u & v & E).
  destruct (anyLazy_inv _ _ _ H) as [b Hs].
  destruct (anyLazy_shortest close u (v ++ close ++ b)%string) as (g' & H' & L).
  assert (S : s = (u ++ close ++ v ++ close ++ b)%string).
  { rewrite Hs, E. now str_assoc app_assoc_s. }
  rewrite S, H' in H. injection H as ->.
  rewrite E, !length_app_s in L. destruct close as [|x close]; [now elim NE|].
  cbn [String.length] in L. lia.
Qed.

Lemma itemAt_shape (s m : string) :
  Regex.itemAt s = Some m ->
  exists body, m = ("<item>" ++ body ++ "</item>")%string
               /\ ~ occursIn "</item>" body.
Proof.
  unfold Regex.itemAt. intros H.
  destruct (Js.startsWith s "<item>"); [|discriminate].
  destruct (Regex.anyLazy "</item>" (Js.drop 6 s)) as [body|] eqn:E;
    [|discriminate].
  injection H as <-. exists body. split; [reflexivity|].
  apply (anyLazy_no_close "</item>" (Js.drop 6 s) body); [discriminate|exact E].
Qed.

Lemma items_shape (s : string) (skip : nat) (m : string) :
  In m (Regex.items skip s) ->
  exists body, m = ("<item>" ++ body ++ "</item>")%string
               /\ ~ occursIn "</item>" body.
Proof.
  revert skip; induction s as [|c s IH]; intros skip; cbn [Regex.items].
  - intros [].
  - destruct skip as [|k]; [|apply IH].
    destruct (Regex.itemAt (String c s)) as [m0|] eqn:E; [|apply IH].
    intros [<-|I]; [now apply itemAt_shape in E|now apply IH in I].
Qed.

Lemma items_weave (s : string) (skip : nat) :
  skip <= String.length s ->
  exists gaps,
    length gaps = S (length (Regex.items skip s))
    /\ Js.drop skip s = weave gaps (Regex.items skip s).
Proof.
  revert skip; induction s as [|c s IH]; intros skip L.
  - destruct skip; [|cbn in L; lia]. now exists [""%string].
  - cbn [Regex.items]. destruct skip as [|k].
    + destruct (Regex.itemAt (String c s)) as [m|] eqn:E.
      * destruct (itemAt_inv _ _ E) as (body & b & Hm & Hs).
        assert (Cut : exists m', m = String c m' /\ s = (m' ++ b)%string).
        { rewrite Hm in Hs. cbn [append] in Hs. injection Hs as -> ->.
          rewrite Hm. cbn [append]. now eexists. }
        destruct Cut as (m' & -> & ->).
        replace (String.length (String c m') - 1) with (String.length m')
          by (cbn [String.length]; lia).
        destruct (IH (String.length m')) as (gaps & Lg & W).
        { rewrite length_app_s. lia. }
        rewrite drop_app in W.
        exists (""%string :: gaps). split; [cbn [length]; now rewrite Lg|].
        cbn [Js.drop weave append]. now rewrite <- W.
      * destruct (IH 0) as (gaps & Lg & W); [lia|].
        destruct gaps as [|g gaps]; [discriminate Lg|].
        exists (String c g :: gaps). split; [exact Lg|].
        cbn [Js.drop] in *. cbn [weave append]. cbn [weave] in W.
        now rewrite <- W.
    + cbn [String.length] in L. destruct (IH k) as (gaps & Lg & W); [lia|].
      exists gaps. split; [exact Lg|exact W].
Qed.

(** X5. The items the parser takes from a feed are pieces of the text that
    follow one another in document order without overlap: the text is a
    gap, the first item, a gap, the second item, and so on.  Each item runs
    from an opening tag to the first closing tag after it, so no closing
    tag stands inside its body.  The posts come one per item, in the same
    order, each made from its own item and position. *)
Theorem parseRSSXML_document_order (xmlText : string) :
  (exists gaps,
      length gaps = S (length (Regex.items 0 xmlText))
      /\ xmlText = weave gaps (Regex.items 0 xmlText))
  /\ (forall item, In item (Regex.items 0 xmlText) ->
        exists body, item = ("<item>" ++ body ++ "</item>")%string
                     /\ ~ occursIn "</item>" body)
  /\ (forall index,
        nth_error (parseRSSXML xmlText) index
        = option_map (fun item => parseItem item index)
            (nth_error (Regex.items 0 xmlText) index)).
Proof.
  split; [|split].
  - destruct (items_weave xmlText 0) as (gaps & L & W); [lia|]. now exists gaps.
  - intros item. apply items_shape.
  - intros index. unfold parseRSSXML. now rewrite forEachIndexed_nth.
Qed.

(** ** Trimmed fields *)

(** A white space character is a whole character: what follows it does not
    change how it is read. *)
Lemma decode1_white_app (x w : string) :
  Js.isWhite (fst (Js.decode1 x)) = true ->
  Js.decode1 (x ++ w) = Js.decode1 x.
Proof.
  destruct x as [|c0 r]; [discriminate|].
  unfold Js.decode1. cbn [append].
  destruct (Js.byte c0 <? 128)%Z eqn:A; [reflexivity|].
  destruct (Js.two (String c0 r)) as [cp2|] eqn:T2.
  { destruct r as [|c1 r]; [discriminate T2|]. cbn [append].
    unfold Js.two in *. now rewrite T2. }
  destruct (Js.three (String c0 r)) as [cp3|] eqn:T3.
  { destruct r as [|c1 [|c2 r]]; try discriminate T3. cbn [append].
    unfold Js.two, Js.three in *. now rewrite T2, T3. }
  destruct (Js.four (String c0 r)) as [cp4|] eqn:T4.
  { destruct r as [|c1 [|c2 [|c3 r]]]; try discriminate T4. cbn [append].
    unfold Js.two, Js.three, Js.four in *. now rewrite T2, T3, T4. }
  cbn [fst]. intros W. exfalso.
  assert (0 <= Js.byte c0)%Z by (unfold Js.byte; lia).
  unfold Js.isWhite in W.
  rewrite !orb_true_iff, !andb_true_iff, !Z.leb_le, !Z.eqb_eq in W. lia.
Qed.

Lemma whiteAt_app (x w : string) :
  Js.whiteAt x <> 0 -> Js.whiteAt (x ++ w) = Js.whiteAt x.
Proof.
  unfold Js.whiteAt. intros H.
  destruct (Js.isWhite (fst (Js.decode1 x))) eqn:W; [|now elim H].
  now rewrite (decode1_white_app x w W), W.
Qed.

Lemma whiteAt_length (x : string) : Js.whiteAt x <= String.length x.
Proof.
  unfold Js.whiteAt. destruct (Js.isWhite _); [apply decode1_length|lia].
Qed.

Lemma trimStartFrom_head (k : nat) (s : string) :
  Js.whiteAt (Js.trimStartFrom k s) = 0.
Proof.
  revert k. induction s as [|c r IH]; intros k; [reflexivity|].
  cbn [Js.trimStartFrom]. destruct k as [|k]; [|apply IH].
  destruct (Js.whiteAt (String c r)) as [|k] eqn:W; [exact W|apply IH].
Qed.

Lemma trimStart_keeps (s : string) : Js.whiteAt s = 0 -> Js.trimStart s = s.
Proof.
  intros W. destruct s as [|c r]; [reflexivity|].
  unfold Js.trimStart. cbn [Js.trimStartFrom]. now rewrite W.
Qed.

(** White space before white space is white space: trimming the start
    goes through a run that it removes whole. *)
Lemma trimStartFrom_app (x w : string) (k : nat) :
  k <= String.length x -> Js.trimStartFrom k x = ""%string ->
  Js.trimStartFrom k (x ++ w) = Js.trimStart w.
Proof.
  revert k. induction x as [|c r IH]; intros k L E.
  - cbn [String.length] in L. assert (k = 0) by lia. now subst k.
  - cbn [String.length] in L. cbn [append Js.trimStartFrom].
    cbn [Js.trimStartFrom] in E. destruct k as [|k].
    + change (String c (r ++ w)) with (String c r ++ w)%string.
      pose proof (whiteAt_length (String c r)) as B. cbn [String.length] in B.
      destruct (Js.whiteAt (String c r)) as [|k] eqn:W; [discriminate E|].
      rewrite (whiteAt_app (String c r) w), W by (rewrite W; discriminate).
      apply IH; [lia|exact E].
    + apply IH; [lia|exact E].
Qed.

Lemma trimEnd_split (s : string) :
  exists w, s = (Js.trimEnd s ++ w)%string /\ Js.trimStart w = ""%string.
Proof.
  induction s as [|c r IH]; [now exists ""%string|].
  cbn [Js.trimEnd]. destruct (Js.trimStart (String c r)) as [|d t] eqn:T.
  - now exists (String c r).
  - destruct IH as (w & E & W). exists w. split; [|exact W].
    cbn [append]. now rewrite <- E.
Qed.

Lemma trimEnd_idem (s : string) : Js.trimEnd (Js.trimEnd s) = Js.trimEnd s.
Proof.
  induction s as [|c r IH]; [reflexivity|].
  cbn [Js.trimEnd]. destruct (Js.trimStart (String c r)) as [|d t] eqn:T;
    [reflexivity|].
  cbn [Js.trimEnd]. rewrite IH.
  destruct (Js.trimStart (String c (Js.trimEnd r))) as [|d' t'] eqn:T';
    [|reflexivity].
  exfalso. destruct (trimEnd_split r) as (w & E & W).
  assert (H : Js.trimStart (String c r) = ""%string).
  { rewrite E. change (String c (Js.trimEnd r ++ w))
      with (String c (Js.trimEnd r) ++ w)%string.
    unfold Js.trimStart in *.
    rewrite (trimStartFrom_app _ w 0 (Nat.le_0_l _) T'). exact W. }
  rewrite H in T. discriminate T.
Qed.

Lemma trimStart_trimEnd (t : string) :
  Js.whiteAt t = 0 -> Js.trimStart (Js.trimEnd t) = Js.trimEnd t.
Proof.
  intros W. apply trimStart_keeps.
  destruct (Js.whiteAt (Js.trimEnd t)) as [|k] eqn:K; [reflexivity|].
  exfalso. destruct (trimEnd_split t) as (w & E & _).
  rewrite E, (whiteAt_app (Js.trimEnd t) w), K in W by (rewrite K; discriminate).
  discriminate W.
Qed.

Lemma trim_idem (s : string) : Js.trim (Js.trim s) = Js.trim s.
Proof.
  unfold Js.trim.
  pose proof (trimStartFrom_head 0 s) as H. fold (Js.trimStart s) in H.
  rewrite (trimStart_trimEnd _ H). apply trimEnd_idem.
Qed.

Lemma trimmedOr_trimmed (dflt : string) (m : option string) :
  Js.trim dflt = dflt -> Js.trim (trimmedOr dflt m) = trimmedOr dflt m.
Proof. intros D. destruct m; cbn [trimmedOr]; [apply trim_idem|exact D]. Qed.

Lemma forEachIndexed_in (its : list string) (k : nat) (post : RSSPost.t) :
  In post (forEachIndexed its k) ->
  exists item index, In item its /\ post = parseItem item index.
Proof.
  revert k; induction its as [|x its IH]; intros k; cbn [forEachIndexed].
  - intros [].
  - intros [<-|I].
    + exists x, k. split; [now left|reflexivity].
    + destruct (IH _ I) as (item & index & Ii & ->).
      exists item, index. split; [now right|reflexivity].
Qed.

(** X6. Every text field of a parsed post is trimmed: trimming it again
    changes nothing, whether the field came from the feed or is a
    default. *)
Theorem parseRSSXML_trimmed (xmlText : string) (post : RSSPost.t) :
  In post (parseRSSXML xmlText) ->
  Js.trim (RSSPost.title post) = RSSPost.title post
  /\ Js.trim (RSSPost.description post) = RSSPost.description post
  /\ Js.trim (RSSPost.pubDate post) = RSSPost.pubDate post
  /\ Js.trim (RSSPost.category post) = RSSPost.category post
  /\ Js.trim (RSSPost.creator post) = RSSPost.creator post.
Proof.
  intros I. apply forEachIndexed_in in I. destruct I as (item & index & _ & ->).
  unfold parseItem.
  cbn [RSSPost.title RSSPost.description RSSPost.pubDate RSSPost.category
       RSSPost.creator].
  repeat split; apply trimmedOr_trimmed; vm_compute; reflexivity.
Qed.

(** X6 at a feed whose title stands between ideographic spaces (U+3000)
    and no-break spaces (U+00A0). *)
Lemma parseRSSXML_trimmed_witness :
  parseRSSXML "<item><title>　 Hello 　</title></item>"
  = [RSSPost.mk "item-0" "Hello" "" "" "未分类" "未知作者"]
  /\ Js.trim "Hello" = "Hello"%string.
Proof.
  assert (E : parseRSSXML
                "<item><title>　 Hello 　</title></item>"
              = [RSSPost.mk "item-0" "Hello" "" "" "未分类" "未知作者"])
    by (vm_compute; reflexivity).
  split; [exact E|].
  apply (parseRSSXML_trimmed
           "<item><title>　 Hello 　</title></item>"
           (RSSPost.mk "item-0" "Hello" "" "" "未分类" "未知作者")).
  rewrite E. now left.
Defined.

(** X4 at an item with no link, at the item of [helloFeed] and at an
    item whose token is 2^53 + 1. *)
Lemma parseItem_numeric_id_witness :
  DBPost.post_id
    (rowOfPost (parseItem "<item><title>x</title></item>" 3) (freshStore []))
  = None
  /\ Js.parseInt (RSSPost.id (parseItem helloItem 0)) = Js.Finite 42
  /\ Js.parseInt
       (RSSPost.id
          (parseItem "<item><link>post-9007199254740993-1</link></item>" 0))
     = Js.Finite 9007199254740992.
Proof.
  split; [|split; vm_compute; reflexivity].
  apply (parseItem_numeric_id "<item><title>x</title></item>" 3 (freshStore [])).
  left. reflexivity.
Defined.

(** X5 at [helloFeed]: its one item stands between two gaps. *)
Lemma parseRSSXML_document_order_witness :
  exists gaps,
    length gaps = 2
    /\ helloFeed = weave gaps (Regex.items 0 helloFeed)
    /\ In helloItem (Regex.items 0 helloFeed).
Proof.
  destruct (parseRSSXML_document_order helloFeed) as ((gaps & L & W) & _).
  exists gaps. split; [exact L|]. split; [exact W|now left].
Defined.

(** ** Ordered and bounded queries *)

Section OrderBy.

Context {A : Type} (before : A -> A -> bool).

Hypothesis before_asym : forall a b, before a b = true -> before b a = false.

Hypothesis before_trans :
  forall a b c, before b a = false -> before c b = false -> before c a = false.

Lemma insertSorted_sorted (x : A) (l : list A) :
  StronglySorted (fun a b => before b a = false) l ->
  StronglySorted (fun a b => before b a = false) (D1.insertSorted before x l).
Proof.
  induction 1 as [|y l Sl IH Fy]; cbn [D1.insertSorted].
  - constructor; constructor.
  - destruct (before y x) eqn:B.
    + constructor; [exact IH|].
      apply (Permutation_Forall (Permutation_sym (insertSorted_perm before x l))).
      constructor; [now apply before_asym|exact Fy].
    + constructor; [now constructor|].
      constructor; [exact B|].
      apply Forall_forall. intros z Iz.
      apply (before_trans x y z B). rewrite Forall_forall in Fy. now apply Fy.
Qed.

Lemma orderBy_sorted (l : list A) :
  StronglySorted (fun a b => before b a = false) (D1.orderBy before l).
Proof.
  unfold D1.orderBy. induction l as [|x l IH]; cbn [fold_right].
  - constructor.
  - now apply insertSorted_sorted.
Qed.

End OrderBy.

Lemma sorted_app_inv {A : Type} (R : A -> A -> Prop) (l1 l2 : list A) :
  StronglySorted R (l1 ++ l2) ->
  StronglySorted R l1 /\ forall a b, In a l1 -> In b l2 -> R a b.
Proof.
  induction l1 as [|x l1 IH]; cbn [app]; intros H.
  - split; [constructor|intros a b []].
  - apply StronglySorted_inv in H. destruct H as [H F].
    destruct (IH H) as [S1 Cross]. split.
    + constructor; [exact S1|]. apply Forall_forall. intros z Iz.
      rewrite Forall_forall in F. apply F. apply in_or_app. now left.
    + intros a b [<-|Ia] Ib.
      * rewrite Forall_forall in F. apply F. apply in_or_app. now right.
      * now apply Cross.
Qed.

Lemma sorted_weaken {A : Type} (R Q : A -> A -> Prop) (l : list A) :
  (forall a b, R a b -> Q a b) -> StronglySorted R l -> StronglySorted Q l.
Proof.
  intros W. induction 1 as [|x l S IH F]; constructor; [exact IH|].
  rewrite Forall_forall in *. intros z Iz. apply W. now apply F.
Qed.

(** The first [n] rows of a sorted table and the rows left out. *)
Lemma top_of_sorted {A : Type} (before : A -> A -> bool) (n : nat) (l : list A) :
  (forall a b, before a b = true -> before b a = false) ->
  (forall a b c, before b a = false -> before c b = false -> before c a = false) ->
  let top := firstn n (D1.orderBy before l) in
  let rest := skipn n (D1.orderBy before l) in
  length top <= n
  /\ Permutation (top ++ rest) l
  /\ StronglySorted (fun a b => before b a = false) top
  /\ (forall a b, In a top -> In b rest -> before b a = false)
  /\ (length l <= n -> rest = []).
Proof.
  intros Asym Trans top rest.
  pose proof (orderBy_sorted before Asym Trans l) as S.
  rewrite <- (firstn_skipn n (D1.orderBy before l)) in S.
  destruct (sorted_app_inv _ _ _ S) as [S1 Cross].
  split; [apply firstn_le_length|].
  split; [subst top rest; rewrite firstn_skipn; apply orderBy_perm|].
  split; [exact S1|]. split; [exact Cross|].
  intros L. subst rest. apply skipn_all2.
  now rewrite (Permutation_length (orderBy_perm before l)).
Qed.

(** X7. [getUnpushedPosts] never throws and changes no table.  It returns
    at most [limit] posts, all unmatched rows of [posts], newest first;
    the unmatched rows it leaves out are no newer than any it returns, and
    it leaves none out when they are at most [limit].  When the statement
    fails it returns the empty list. *)
Theorem getUnpushedPosts_newest_first (limit : nat) (db : D1Database) :
  exists posts,
    getUnpushedPosts limit db = (Normal posts, D1.next db)
    /\ length posts <= limit
    /\ (forall p, In p posts -> In p (D1.posts db) /\ DBPost.is_push p = 0%Z)
    /\ StronglySorted
         (fun a b => DBPost.created_at b <= DBPost.created_at a) posts
    /\ (D1.due db = None ->
        exists rest,
          Permutation (posts ++ rest) (filter unmatched (D1.posts db))
          /\ (forall a b, In a posts -> In b rest ->
                DBPost.created_at b <= DBPost.created_at a)
          /\ (length (filter unmatched (D1.posts db)) <= limit -> rest = []))
    /\ (D1.due db <> None -> posts = []).
Proof.
  rewrite getUnpushedPosts_eq.
  destruct (top_of_sorted
              (fun y x => (DBPost.created_at x <? DBPost.created_at y)%nat)
              limit (filter unmatched (D1.posts db)))
    as (L & P & S & Cross & All).
  { intros a b H. apply Nat.ltb_lt in H. apply Nat.ltb_ge. lia. }
  { intros a b c H1 H2. apply Nat.ltb_ge in H1, H2. apply Nat.ltb_ge. lia. }
  destruct (D1.due db) as [e|].
  - exists []. repeat split; try (cbn; lia); try constructor.
    + destruct H.
    + destruct H.
    + discriminate.
  - exists (unpushedPosts limit db). split; [reflexivity|].
    split; [exact L|]. split; [|split; [|split]].
    + intros p I.
      assert (I' : In p (filter unmatched (D1.posts db))).
      { apply (Permutation_in p P). apply in_or_app. now left. }
      apply filter_In in I'. destruct I' as [Ip U].
      split; [exact Ip|now apply Z.eqb_eq in U].
    + apply (sorted_weaken _ _ _ (fun a b H => proj1 (Nat.ltb_ge _ _) H) S).
    + intros _. eexists. split; [exact P|]. split; [|exact All].
      intros a b Ia Ib. now apply Nat.ltb_ge, Cross.
    + intros H. now elim H.
Qed.

(** X8. The rows the dispatcher reads are sorted oldest first; the pending
    rows it leaves out are no older than any it reads. *)
Theorem pendingRows_oldest_first (db : D1Database) :
  StronglySorted
    (fun a b => PendingLog.created_at a <= PendingLog.created_at b)
    (pendingRows db)
  /\ exists rest,
       Permutation (pendingRows db ++ rest) (joinPending db)
       /\ forall a b, In a (pendingRows db) -> In b rest ->
            PendingLog.created_at a <= PendingLog.created_at b.
Proof.
  destruct (top_of_sorted
              (fun y x => (PendingLog.created_at y <? PendingLog.created_at x)%nat)
              100 (joinPending db))
    as (_ & P & S & Cross & _).
  { intros a b H. apply Nat.ltb_lt in H. apply Nat.ltb_ge. lia. }
  { intros a b c H1 H2. apply Nat.ltb_ge in H1, H2. apply Nat.ltb_ge. lia. }
  split.
  - apply (sorted_weaken _ _ _ (fun a b H => proj1 (Nat.ltb_ge _ _) H) S).
  - eexists. split; [exact P|].
    intros a b Ia Ib. now apply Nat.ltb_ge, Cross.
Qed.

(** X7 at the store with two saved posts and a limit of one: the newer
    post is returned and the older one is left out. *)
Lemma getUnpushedPosts_newest_first_witness :
  exists posts rest,
    getUnpushedPosts 1 (savedStore []) = (Normal posts, savedStore [])
    /\ map DBPost.post_id posts = [Some 2%Z]
    /\ Permutation (posts ++ rest) (filter unmatched (D1.posts (savedStore []))).
Proof.
  destruct (getUnpushedPosts_newest_first 1 (savedStore []))
    as (posts & E & _ & _ & _ & Rest & _).
  destruct (Rest eq_refl) as (rest & P & _).
  exists posts, rest. split; [exact E|]. split; [|exact P].
  assert (H : getUnpushedPosts 1 (savedStore [])
              = (Normal (unpushedPosts 1 (savedStore [])), savedStore []))
    by reflexivity.
  rewrite H in E. injection E as <-. reflexivity.
Defined.

(** ** Marking and saving again *)

Lemma setPushed_idem (r : DBPost.t) : setPushed (setPushed r) = setPushed r.
Proof. reflexivity. Qed.

Lemma markPushed_idem (postId : option Z) (db : D1Database) :
  markPushed postId (markPushed postId db) = markPushed postId db.
Proof.
  destruct db as [posts users subs logs clock faults].
  unfold markPushed, D1.withPosts. cbn [D1.posts D1.users D1.keywords_sub
    D1.push_logs D1.clock D1.faults].
  f_equal. rewrite map_map. apply map_ext. intros r.
  destruct (D1.eqNull (DBPost.post_id r) postId) eqn:E.
  - cbn [setPushed DBPost.post_id]. now rewrite E.
  - now rewrite E.
Qed.

Lemma eqNull_none (a : option Z) : D1.eqNull a None = false.
Proof. now destruct a. Qed.

(** X9. [markPostAsPushed] never throws and touches only [is_push] of the
    rows of [posts] with the given identifier: the other tables, the number
    and order of the posts and their identifiers stay, and a post that is
    unmatched afterwards was unmatched before.  A NULL identifier marks
    nothing.  Once the update has gone through, marking the same post again
    changes nothing. *)
Theorem markPostAsPushed_marks (postId : option Z) (db : D1Database) :
  exists db',
    markPostAsPushed postId db = (Normal tt, db')
    /\ D1.users db' = D1.users db
    /\ D1.keywords_sub db' = D1.keywords_sub db
    /\ D1.push_logs db' = D1.push_logs db
    /\ map DBPost.post_id (D1.posts db') = map DBPost.post_id (D1.posts db)
    /\ (forall r', In r' (D1.posts db') -> DBPost.is_push r' = 0%Z ->
          In r' (D1.posts db))
    /\ (D1.due db = None ->
        forall r, In r (D1.posts db) ->
          In (if D1.eqNull (DBPost.post_id r) postId then setPushed r else r)
             (D1.posts db'))
    /\ (postId = None -> D1.posts db' = D1.posts db)
    /\ (D1.due db = None ->
        D1.posts (snd (markPostAsPushed postId db')) = D1.posts db').
Proof.
  rewrite markPostAsPushed_eq. eexists. split; [reflexivity|].
  destruct (D1.due db) as [e|] eqn:Due.
  - repeat split; auto; try discriminate.
  - do 3 (split; [reflexivity|]).
    cbn [markPushed D1.withPosts D1.posts D1.next].
    split; [|split; [|split; [|split]]].
    + rewrite map_map. apply map_ext. intros r.
      now destruct (D1.eqNull (DBPost.post_id r) postId).
    + intros r' I Z0. apply in_map_iff in I. destruct I as (r & <- & I).
      destruct (D1.eqNull (DBPost.post_id r) postId); [discriminate Z0|exact I].
    + intros _ r I. apply in_map_iff. now exists r.
    + intros ->. transitivity (map (fun r : DBPost.t => r) (D1.posts db));
        [|apply map_id].
      apply map_ext. intros r. now rewrite eqNull_none.
    + intros _. rewrite markPostAsPushed_eq. cbn [snd].
      destruct (D1.due (markPushed postId (D1.next db))); [reflexivity|].
      change (D1.posts (markPushed postId (markPushed postId (D1.next db)))
              = D1.posts (markPushed postId (D1.next db))).
      now rewrite markPushed_idem.
Qed.

(** X9 at the first post of [savedStore]. *)
Lemma markPostAsPushed_marks_witness :
  map DBPost.is_push
    (D1.posts (snd (markPostAsPushed (Some 1%Z) (savedStore [])))) = [1%Z; 0%Z]
  /\ D1.posts (snd (markPostAsPushed None (savedStore [])))
     = D1.posts (savedStore []).
Proof.
  split; [reflexivity|].
  destruct (markPostAsPushed_marks None (savedStore []))
    as (db' & E & _ & _ & _ & _ & _ & _ & Null & _).
  rewrite E. exact (Null eq_refl).
Defined.

Lemma findPost_null (db : D1Database) : findPost None db = None.
Proof.
  unfold findPost. destruct (find _ (D1.posts db)) as [r|] eqn:F; [|reflexivity].
  apply find_some in F. destruct F as [_ F]. now rewrite eqNull_none in F.
Qed.

Lemma save_loop_null (posts : list RSSPost.t) (n : nat) (db : D1Database) :
  D1.faults db = [] ->
  (forall post, In post posts -> D1.bound (Js.parseInt (RSSPost.id post)) = None) ->
  exists db' new,
    forOf posts savePost (n, db) = (Normal tt, (n + length posts, db'))
    /\ D1.faults db' = []
    /\ D1.posts db' = D1.posts db ++ new
    /\ length new = length posts
    /\ Forall (fun r => DBPost.post_id r = None) new.
Proof.
  revert n db; induction posts as [|post posts IH]; intros n db NF All.
  - exists db, []. rewrite Nat.add_0_r, app_nil_r. repeat split; auto.
  - cbn [forOf]. unfold bind. rewrite savePost_eq.
    rewrite (due_no_faults db NF), (next_no_faults db NF).
    rewrite (All post (or_introl eq_refl)), findPost_null.
    rewrite (due_no_faults db NF), (next_no_faults db NF).
    destruct (IH (S n) (addPost post db)) as (db' & new & E & NF' & P & L & F).
    { exact NF. }
    { intros p I. apply All. now right. }
    exists db', (rowOfPost post db :: new).
    split; [rewrite E; cbn [length]; now rewrite Nat.add_succ_r|].
    split; [exact NF'|].
    split; [rewrite P; cbn; now rewrite <- app_assoc|].
    split; [cbn [length]; now rewrite L|].
    constructor; [|exact F]. cbn. now apply All; left.
Qed.

(** X10. Saving is idempotent for posts whose identifier is stored as a
    number ([parseInt] reads a finite number in it): when no statement
    fails, saving the same batch a second time inserts nothing, returns 0
    and leaves the store as the first call left it. *)
Theorem savePostsToDatabase_idempotent (posts : list RSSPost.t) (db : D1Database) :
  D1.faults db = [] ->
  (forall post, In post posts -> D1.bound (Js.parseInt (RSSPost.id post)) <> None) ->
  savePostsToDatabase posts (snd (savePostsToDatabase posts db))
  = (Normal 0, snd (savePostsToDatabase posts db)).
Proof.
  intros NF Num.
  destruct (save_loop_complete posts 0 db NF) as (n1 & db1 & E1 & NF1 & _ & All).
  rewrite (savePostsToDatabase_eq posts db), E1. cbn [snd].
  rewrite savePostsToDatabase_eq, (save_loop_noop posts 0 db1 NF1); [reflexivity|].
  intros post I. destruct (D1.bound (Js.parseInt (RSSPost.id post))) as [k|] eqn:K.
  - destruct (All post k I K) as (r & Ir & Er). now apply (findPost_in k r).
  - now elim (Num post I).
Qed.

(** X10 at the two sample posts. *)
Lemma savePostsToDatabase_idempotent_witness :
  savePostsToDatabase [post1; post2] (savedStore []) = (Normal 0, savedStore []).
Proof.
  apply (savePostsToDatabase_idempotent [post1; post2] (freshStore [])).
  - reflexivity.
  - intros post [<-|[<-|[]]]; discriminate.
Defined.

(** X11. A post whose identifier does not read as a finite number (it is
    bound as NULL) is never found in the store: when no statement fails,
    every such post of a batch is inserted, with a NULL [post_id], at every
    call, whatever the store holds. *)
Theorem savePostsToDatabase_without_number (posts : list RSSPost.t)
    (db : D1Database) :
  D1.faults db = [] ->
  (forall post, In post posts -> D1.bound (Js.parseInt (RSSPost.id post)) = None) ->
  exists db' new,
    savePostsToDatabase posts db = (Normal (length posts), db')
    /\ D1.faults db' = []
    /\ D1.posts db' = D1.posts db ++ new
    /\ length new = length posts
    /\ Forall (fun r => DBPost.post_id r = None) new.
Proof.
  intros NF All.
  destruct (save_loop_null posts 0 db NF All) as (db' & new & E & NF' & P & L & F).
  exists db', new. rewrite savePostsToDatabase_eq, E. cbn [fst snd].
  repeat split; auto.
Qed.

(** X11 at an item with no link, saved twice: two rows. *)
Lemma savePostsToDatabase_without_number_witness :
  exists db1 db2,
    savePostsToDatabase (parseRSSXML "<item><title>x</title></item>")
      (freshStore []) = (Normal 1, db1)
    /\ savePostsToDatabase (parseRSSXML "<item><title>x</title></item>") db1
       = (Normal 1, db2)
    /\ length (D1.posts db2) = 2.
Proof.
  destruct (savePostsToDatabase_without_number
              (parseRSSXML "<item><title>x</title></item>") (freshStore []))
    as (db1 & new1 & E1 & NF1 & P1 & L1 & _);
    [reflexivity|intros post [<-|[]]; reflexivity|].
  destruct (savePostsToDatabase_without_number
              (parseRSSXML "<item><title>x</title></item>") db1)
    as (db2 & new2 & E2 & _ & P2 & L2 & _);
    [exact NF1|intros post [<-|[]]; reflexivity|].
  exists db1, db2. split; [exact E1|]. split; [exact E2|].
  rewrite P2, P1, !length_app, L1, L2. reflexivity.
Defined.

(** ** What fan-out writes *)

Lemma forOf_rel {S A : Type} (R : S -> S -> Prop) (l : list A)
    (body : A -> Task S unit) :
  (forall s, R s s) ->
  (forall s1 s2 s3, R s1 s2 -> R s2 s3 -> R s1 s3) ->
  (forall x s, In x l -> R s (snd (body x s))) ->
  forall s, R s (snd (forOf l body s)).
Proof.
  intros Refl Trans Step. induction l as [|x l IH]; intros s.
  - apply Refl.
  - cbn [forOf]. unfold bind.
    pose proof (Step x s (or_introl eq_refl)) as H.
    destruct (body x s) as [[u|e] s1]; cbn [snd] in *; [|exact H].
    apply (Trans _ _ _ H). apply IH. intros y s0 I. apply Step. now right.
Qed.

Lemma marks_id : marks (fun r => r).
Proof. intros r. now left. Qed.

Lemma marks_compose (f g : DBPost.t -> DBPost.t) :
  marks f -> marks g -> marks (fun r => g (f r)).
Proof.
  intros Hf Hg r. destruct (Hf r) as [E|E]; rewrite E; [apply Hg|].
  right. destruct (Hg (setPushed r)) as [H|H]; rewrite H; reflexivity.
Qed.

Lemma NoDup_snoc {A : Type} (l : list A) (a : A) :
  NoDup l -> ~ In a l -> NoDup (l ++ [a]).
Proof.
  induction 1 as [|x l Nx _ IH]; cbn [app]; intros Na.
  - constructor; [intros []|constructor].
  - constructor.
    + intros I. apply in_app_or in I. destruct I as [I|[<-|[]]]; [now apply Nx|].
      apply Na. now left.
    + apply IH. intros I. apply Na. now right.
Qed.

Lemma fansOut_refl (users : list User.t) (batch : list DBPost.t)
    (s : LogCounts * D1Database) :
  fansOut users batch s s.
Proof.
  unfold fansOut. do 2 (split; [reflexivity|]). split; [|split].
  - exists []. rewrite app_nil_r. cbn [length]. repeat split; auto; lia.
  - exists (fun r => r). split; [apply marks_id|now rewrite map_id].
  - auto.
Qed.

Lemma fansOut_trans (users : list User.t) (batch : list DBPost.t)
    (s1 s2 s3 : LogCounts * D1Database) :
  fansOut users batch s1 s2 -> fansOut users batch s2 s3 ->
  fansOut users batch s1 s3.
Proof.
  intros (U1 & K1 & (n1 & L1 & C1 & T1 & F1) & (g1 & M1 & P1) & Q1)
         (U2 & K2 & (n2 & L2 & C2 & T2 & F2) & (g2 & M2 & P2) & Q2).
  unfold fansOut. split; [congruence|]. split; [congruence|]. split; [|split].
  - exists (n1 ++ n2). rewrite L2, L1, <- app_assoc, length_app.
    split; [reflexivity|]. split; [lia|]. split; [lia|].
    apply Forall_app. split; [exact F1|]. now rewrite <- K1.
  - exists (fun r => g2 (g1 r)). split; [now apply marks_compose|].
    now rewrite P2, P1, map_map.
  - auto.
Qed.

(** One subscriber and one post. *)
Lemma fanOutUser_fansOut (users : list User.t) (batch : list DBPost.t)
    (post : DBPost.t) (user : User.t) (s : LogCounts * D1Database) :
  In user users -> In post batch ->
  fansOut users batch s (snd (fanOutUser post user s)).
Proof.
  intros Iu Ip. destruct s as [counts db]. rewrite fanOutUser_eq.
  assert (Stay : forall c' db',
            D1.users db' = D1.users db ->
            D1.keywords_sub db' = D1.keywords_sub db ->
            D1.push_logs db' = D1.push_logs db ->
            D1.posts db' = D1.posts db ->
            createdLogs c' = createdLogs counts ->
            totalLogs counts <= totalLogs c' ->
            fansOut users batch (counts, db) (c', db')).
  { intros c' db' U K L P C T. unfold fansOut. cbn [fst snd].
    split; [exact U|]. split; [exact K|]. split; [|split].
    - exists []. rewrite app_nil_r. cbn [length]. repeat split; auto; lia.
    - exists (fun r => r). split; [apply marks_id|now rewrite map_id].
    - intros _. now rewrite L. }
  destruct (D1.due db) as [e|] eqn:Due.
  { cbn [scanKeywords]. unfold ret. cbn [snd]. now apply Stay. }
  destruct (first_match post (userKeywords (User.id user) db))
    as [N|(pre & keywords & rest & E & N & M)].
  { rewrite (scanKeywords_none _ _ _ _ N). cbn [snd]. now apply Stay. }
  rewrite E, (scanKeywords_first _ _ _ _ _ _ N M).
  unfold recordMatch. cbn [fst snd].
  destruct (D1.due (D1.next db)) as [e|].
  { cbn [snd]. apply Stay; cbn; auto. }
  change (findPushLog (User.id user) (DBPost.post_id post)
            (KeywordSub.id keywords) (D1.next db))
    with (findPushLog (User.id user) (DBPost.post_id post)
            (KeywordSub.id keywords) db).
  destruct (findPushLog (User.id user) (DBPost.post_id post)
              (KeywordSub.id keywords) db) as [i|] eqn:F.
  { cbn [snd]. apply Stay; cbn; auto. }
  destruct (D1.due (D1.next (D1.next db))) as [e|].
  { cbn [snd]. apply Stay; cbn; auto. }
  cbn [snd]. unfold fansOut. cbn [fst snd].
  split; [reflexivity|]. split; [reflexivity|]. split; [|split].
  - eexists [_]. split; [reflexivity|]. cbn [length incCreated incTotal
      createdLogs totalLogs]. split; [lia|]. split; [lia|].
    constructor; [|constructor].
    assert (Ik : In keywords (userKeywords (User.id user) db)).
    { rewrite E. apply in_or_app. right. now left. }
    unfold userKeywords in Ik. apply filter_In in Ik. destruct Ik as [Ik A].
    apply andb_true_iff in A. destruct A as [A1 A2].
    apply Z.eqb_eq in A1, A2.
    exists user, post, keywords. repeat split; auto.
  - exists (fun r => r). split; [apply marks_id|now rewrite map_id].
  - intros Ids U.
    change (NoDup (map keyOf
                     (D1.push_logs db
                      ++ [rowOfPushLog (User.id user) (User.chat_id user)
                            (DBPost.post_id post) (KeywordSub.id keywords)
                            (D1.next (D1.next db))]))).
    rewrite map_app. cbn [map]. apply NoDup_snoc; [exact U|].
    destruct (DBPost.post_id post) as [k|] eqn:Ek; [|now destruct (Ids post Ip)].
    intros I. apply in_map_iff in I. destruct I as (pl & Ek' & Ipl).
    pose proof (findPushLog_none _ _ _ _ F pl Ipl) as H.
    assert (H' : hasKey (User.id user) (Some k) (KeywordSub.id keywords) pl
                 = true) by (apply hasKey_keyOf; exact Ek').
    rewrite H' in H. discriminate.
Qed.

Lemma onState_markPostAsPushed_fansOut (users : list User.t)
    (batch : list DBPost.t) (postId : option Z) (s : LogCounts * D1Database) :
  fansOut users batch s (snd (onState (markPostAsPushed postId) s)).
Proof.
  destruct s as [counts db]. unfold onState. cbn [fst snd].
  rewrite markPostAsPushed_eq. cbn [snd]. unfold fansOut. cbn [fst snd].
  destruct (D1.due db).
  - split; [reflexivity|]. split; [reflexivity|]. split; [|split].
    + exists []. rewrite app_nil_r. cbn [length]. repeat split; auto; lia.
    + exists (fun r => r). split; [apply marks_id|now rewrite map_id].
    + auto.
  - split; [reflexivity|]. split; [reflexivity|]. split; [|split].
    + exists []. rewrite app_nil_r. cbn [length]. repeat split; auto; lia.
    + exists (fun r => if D1.eqNull (DBPost.post_id r) postId
                       then setPushed r else r).
      split; [|reflexivity].
      intros r. destruct (D1.eqNull _ _); [now right|now left].
    + auto.
Qed.

Lemma fanOutPost_fansOut (users : list User.t) (batch : list DBPost.t)
    (post : DBPost.t) (s : LogCounts * D1Database) :
  In post batch -> fansOut users batch s (snd (fanOutPost users post s)).
Proof.
  intros Ip. unfold fanOutPost, bind.
  pose proof (forOf_rel (fansOut users batch) users (fanOutUser post)
                (fansOut_refl users batch) (fansOut_trans users batch)
                (fun u s0 Iu => fanOutUser_fansOut users batch post u s0 Iu Ip) s)
    as H.
  destruct (forOf users (fanOutUser post) s) as [[u|e] s1]; cbn [snd] in *;
    [|exact H].
  apply (fansOut_trans _ _ _ _ _ H). apply onState_markPostAsPushed_fansOut.
Qed.

Lemma createPushLogs_fansOut (batch : list DBPost.t) (db : D1Database) :
  fansOut (activeUsers db) batch (mkLogCounts 0 0, db)
    (snd (fanOut batch (mkLogCounts 0 0, db))).
Proof.
  unfold fanOut, bind, onState. cbn [fst snd]. rewrite getActiveUsers_eq.
  destruct (D1.due db) as [e|].
  - pose proof (forOf_rel (fansOut [] batch) batch (fanOutPost [])
                  (fansOut_refl [] batch) (fansOut_trans [] batch)
                  (fun p s0 Ip => fanOutPost_fansOut [] batch p s0 Ip)
                  (mkLogCounts 0 0, D1.next db)) as H.
    destruct H as (U & K & (new & L & C & T & F) & G & Q).
    unfold fansOut. cbn [fst snd] in *.
    split; [exact U|]. split; [exact K|]. split; [|split; [exact G|exact Q]].
    exists new. repeat split; auto.
    apply Forall_forall. intros row I. rewrite Forall_forall in F.
    destruct (F row I) as (u & _ & _ & [] & _).
  - exact (forOf_rel (fansOut (activeUsers db) batch) batch
             (fanOutPost (activeUsers db))
             (fansOut_refl _ batch) (fansOut_trans _ batch)
             (fun p s0 Ip => fanOutPost_fansOut _ batch p s0 Ip)
             (mkLogCounts 0 0, D1.next db)).
Qed.

(** X12. [createPushLogs] never throws, leaves [users] and [keywords_sub]
    as they are, only appends rows to [push_logs] and only marks rows of
    [posts].  The number of rows it appends is the [createdLogs] it returns,
    and is at most [totalLogs].  Every appended row is a pending obligation
    of a user that was active when the run started, for a post of the
    batch, by an active filter of that user that matches the post. *)
Theorem createPushLogs_appends (batch : list DBPost.t) (db : D1Database) :
  exists counts db' new g,
    createPushLogs batch db = (Normal counts, db')
    /\ D1.users db' = D1.users db
    /\ D1.keywords_sub db' = D1.keywords_sub db
    /\ D1.push_logs db' = D1.push_logs db ++ new
    /\ createdLogs counts = length new
    /\ length new <= totalLogs counts
    /\ Forall (madeFor (activeUsers db) (D1.keywords_sub db) batch) new
    /\ marks g
    /\ D1.posts db' = map g (D1.posts db).
Proof.
  rewrite createPushLogs_eq.
  destruct (createPushLogs_fansOut batch db)
    as (U & K & (new & L & C & T & F) & (g & M & P) & _).
  cbn [fst snd] in *.
  exists (fst (snd (fanOut batch (mkLogCounts 0 0, db)))),
         (snd (snd (fanOut batch (mkLogCounts 0 0, db)))), new, g.
  repeat split; auto.
Qed.

(** X12 at the two saved posts: one obligation each for the subscriber. *)
Lemma createPushLogs_appends_witness :
  exists counts db' new,
    createPushLogs (unpushedPosts 50 (savedStore [])) (savedStore [])
    = (Normal counts, db')
    /\ D1.push_logs db' = new
    /\ createdLogs counts = 2
    /\ Forall (fun row => PushLog.user_id row = 7%Z) new.
Proof.
  destruct (createPushLogs_appends (unpushedPosts 50 (savedStore []))
              (savedStore []))
    as (counts & db' & new & g & E & _ & _ & L & C & _ & F & _).
  exists counts, db', new. split; [exact E|]. split; [exact L|]. split.
  - assert (H : fst (createPushLogs (unpushedPosts 50 (savedStore []))
                       (savedStore []))
                = Normal (mkLogCounts 2 2)) by (vm_compute; reflexivity).
    rewrite E in H. cbn [fst] in H. now injection H as ->.
  - apply (Forall_impl _ (P := madeFor (activeUsers (savedStore []))
                                 (D1.keywords_sub (savedStore []))
                                 (unpushedPosts 50 (savedStore [])))); [|exact F].
    intros row (u & p & ks & Iu & _ & _ & _ & _ & _ & (Hu & _)).
    destruct Iu as [<-|[]]. exact Hu.
Defined.

(** X13. Fan-out keeps the keys of the ledger distinct for posts that
    have an identifier: when every post of the batch has a [post_id] and no
    two rows of [push_logs] have the same (user, post, filter) key before
    [createPushLogs], none have after it, whichever statements fail. *)
Theorem createPushLogs_unique_keys (batch : list DBPost.t) (db : D1Database) :
  (forall p, In p batch -> DBPost.post_id p <> None) ->
  NoDup (map keyOf (D1.push_logs db)) ->
  NoDup (map keyOf (D1.push_logs (snd (createPushLogs batch db)))).
Proof.
  rewrite createPushLogs_eq.
  destruct (createPushLogs_fansOut batch db) as (_ & _ & _ & _ & Q).
  exact Q.
Qed.

(** X13 at the store with two saved posts, fanned out twice: the ledger
    holds one row for each post. *)
Lemma createPushLogs_unique_keys_witness :
  NoDup
    (map keyOf
       (D1.push_logs
          (snd (createPushLogs (D1.posts (savedStore []))
                  (snd (createPushLogs (D1.posts (savedStore []))
                          (savedStore [])))))))
  /\ map keyOf
       (D1.push_logs
          (snd (createPushLogs (D1.posts (savedStore []))
                  (snd (createPushLogs (D1.posts (savedStore []))
                          (savedStore []))))))
     = [(7%Z, Some 1%Z, 3%Z); (7%Z, Some 2%Z, 3%Z)].
Proof.
  split; [|vm_compute; reflexivity].
  assert (Ids : forall p, In p (D1.posts (savedStore [])) ->
                  DBPost.post_id p <> None).
  { intros p [<-|[<-|[]]]; discriminate. }
  apply createPushLogs_unique_keys; [exact Ids|].
  apply createPushLogs_unique_keys; [exact Ids|]. constructor.
Defined.

Lemma activeUsers_deactivate (chatId : Z) (db : D1Database) (u : User.t) :
  In u (activeUsers (deactivate chatId db)) ->
  In u (D1.users db) /\ User.is_active u = 1%Z /\ User.chat_id u <> chatId.
Proof.
  unfold activeUsers, deactivate. cbn [D1.users D1.withUsers].
  intros I. apply filter_In in I. destruct I as [I A].
  apply Z.eqb_eq in A. apply in_map_iff in I. destruct I as (u0 & E & I0).
  destruct (Z.eqb_spec (User.chat_id u0) chatId) as [C|C].
  - subst u. discriminate A.
  - subst u0. auto.
Qed.

(** X14. Once a chat has been deactivated, fan-out makes no obligation
    for it: every row that [createPushLogs] appends after the update
    belongs to another chat, whatever the posts and the filters. *)
Theorem deactivated_gets_no_obligation (chatId : Z) (batch : list DBPost.t)
    (db : D1Database) :
  D1.due db = None ->
  let db0 := snd (deactivateUser chatId db) in
  exists new,
    D1.push_logs (snd (createPushLogs batch db0)) = D1.push_logs db ++ new
    /\ Forall (fun row => PushLog.chat_id row <> chatId) new.
Proof.
  intros Due db0.
  assert (E0 : db0 = deactivate chatId (D1.next db)).
  { subst db0. rewrite deactivateUser_eq, Due. reflexivity. }
  rewrite createPushLogs_eq.
  destruct (createPushLogs_fansOut batch db0)
    as (_ & _ & (new & L & _ & _ & F) & _).
  cbn [fst snd] in *. exists new. split; [rewrite L, E0; reflexivity|].
  apply (Forall_impl _ (P := madeFor (activeUsers db0) (D1.keywords_sub db0) batch));
    [|exact F].
  intros row (u & p & ks & Iu & _ & _ & _ & _ & _ & (_ & Hc & _)).
  rewrite E0 in Iu. apply activeUsers_deactivate in Iu.
  destruct Iu as (_ & _ & N). now rewrite Hc.
Qed.

(** X14 at the subscriber's chat: after the deactivation the two saved
    posts give no obligation. *)
Lemma deactivated_gets_no_obligation_witness :
  D1.push_logs
    (snd (createPushLogs (D1.posts (savedStore []))
            (snd (deactivateUser 1001 (savedStore []))))) = [].
Proof.
  destruct (deactivated_gets_no_obligation 1001 (D1.posts (savedStore []))
              (savedStore []) eq_refl) as (new & L & F).
  cbv zeta in L. rewrite L. cbn [savedStore D1.push_logs app].
  destruct new as [|row new]; [reflexivity|].
  exfalso. inversion F as [|? ? Hrow _]; subst.
  assert (H : D1.push_logs
                (snd (createPushLogs (D1.posts (savedStore []))
                        (snd (deactivateUser 1001 (savedStore []))))) = [])
    by (vm_compute; reflexivity).
  rewrite H in L. discriminate L.
Defined.

(** X15. When the read of the active users fails and the statements after
    it go through, [createPushLogs] creates no obligation and still marks
    the rows of the posts of the batch as matched (the rows whose [post_id]
    equals that of a post of the batch, so not a post with a NULL one):
    those posts will not be fanned out again. *)
Theorem createPushLogs_without_users (batch : list DBPost.t) (db : D1Database)
    (e : JsError.t) :
  D1.due db = Some e ->
  D1.faults (D1.next db) = [] ->
  exists db',
    createPushLogs batch db = (Normal (mkLogCounts 0 0), db')
    /\ D1.push_logs db' = D1.push_logs db
    /\ D1.posts db' = map (markedBy batch) (D1.posts db).
Proof.
  intros Due NF. rewrite createPushLogs_eq.
  unfold fanOut, bind, onState. cbn [fst snd]. rewrite getActiveUsers_eq, Due.
  destruct (fanOutPosts_no_fault [] batch (mkLogCounts 0 0) (D1.next db) NF)
    as (c & db' & E & _ & P).
  rewrite E. cbn [fst snd]. exists db'.
  pose proof (forOf_rel (fansOut [] batch) batch (fanOutPost [])
                (fansOut_refl [] batch) (fansOut_trans [] batch)
                (fun p s0 Ip => fanOutPost_fansOut [] batch p s0 Ip)
                (mkLogCounts 0 0, D1.next db)) as H.
  rewrite E in H. destruct H as (_ & _ & (new & L & C & T & F) & _).
  cbn [fst snd] in *.
  assert (N : new = []).
  { destruct new as [|row new]; [reflexivity|].
    inversion F as [|? ? (u & _ & _ & [] & _) _]. }
  subst new. rewrite app_nil_r in L. cbn [length] in *.
  split; [|split; [exact L|exact P]].
  pose proof (forOf_rel (fun s s' : LogCounts * D1Database => fst s' = fst s)
                batch (fanOutPost [])
                (fun s => eq_refl)
                (fun s1 s2 s3 H1 H2 => eq_trans H2 H1)) as K.
  specialize (K (fun p s0 _ =>
    ltac:(unfold fanOutPost, bind; cbn [forOf]; unfold ret, onState;
          destruct (markPostAsPushed (DBPost.post_id p) (snd s0));
          reflexivity)) (mkLogCounts 0 0, D1.next db)).
  rewrite E in K. cbn [fst snd] in K. now rewrite K.
Qed.

(** X15 at the store with two saved posts, when the read of the users
    fails: no row is added to the ledger, both posts end up marked. *)
Lemma createPushLogs_without_users_witness :
  exists db',
    createPushLogs (D1.posts (savedStore [Some storeError]))
      (savedStore [Some storeError]) = (Normal (mkLogCounts 0 0), db')
    /\ D1.push_logs db' = []
    /\ Forall (fun r => DBPost.is_push r = 1%Z) (D1.posts db').
Proof.
  destruct (createPushLogs_without_users
              (D1.posts (savedStore [Some storeError]))
              (savedStore [Some storeError]) storeError eq_refl eq_refl)
    as (db' & E & L & P).
  exists db'. split; [exact E|]. split; [exact L|].
  rewrite P. repeat constructor.
Defined.

(** ** What the dispatcher changes *)

Lemma dispatches_refl (api : BotApi) (botToken : string)
    (batch : list PendingLog.t) (db : D1Database) :
  dispatches api botToken batch db db.
Proof.
  split; [reflexivity|]. split; [reflexivity|]. split.
  - exists (fun pl => pl). split; [intros pl; now left|now rewrite map_id].
  - exists (fun u => u). split; [intros u; now left|now rewrite map_id].
Qed.

Lemma dispatches_trans (api : BotApi) (botToken : string)
    (batch : list PendingLog.t) (d1 d2 d3 : D1Database) :
  dispatches api botToken batch d1 d2 -> dispatches api botToken batch d2 d3 ->
  dispatches api botToken batch d1 d3.
Proof.
  intros (P1 & K1 & (f1 & F1 & L1) & (h1 & H1 & U1))
         (P2 & K2 & (f2 & F2 & L2) & (h2 & H2 & U2)).
  split; [congruence|]. split; [congruence|]. split.
  - exists (fun pl => f2 (f1 pl)). split; [|now rewrite L2, L1, map_map].
    intros pl. destruct (F1 pl) as [E|(I & m & E)]; rewrite E; [apply F2|].
    right. split; [exact I|].
    destruct (F2 (finished m pl)) as [E2|(_ & m' & E2)]; rewrite E2;
      [now exists m|now exists m'].
  - exists (fun u => h2 (h1 u)). split; [|now rewrite U2, U1, map_map].
    intros u. destruct (H1 u) as [E|(E & W)]; rewrite E; [apply H2|].
    right. split; [|exact W].
    destruct (H2 (User.mk (User.id u) (User.chat_id u) 0)) as [E2|(E2 & _)];
      rewrite E2; reflexivity.
Qed.

Lemma dispatches_next (api : BotApi) (botToken : string)
    (batch : list PendingLog.t) (db : D1Database) :
  dispatches api botToken batch db (D1.next db).
Proof.
  split; [reflexivity|]. split; [reflexivity|]. split.
  - exists (fun pl => pl). split; [intros pl; now left|].
    cbn. now rewrite map_id.
  - exists (fun u => u). split; [intros u; now left|].
    cbn. now rewrite map_id.
Qed.

Lemma dispatches_finish (api : BotApi) (botToken : string)
    (batch : list PendingLog.t) (m : option string) (log : PendingLog.t)
    (db : D1Database) :
  In log batch ->
  dispatches api botToken batch db (finish m (PendingLog.id log) db).
Proof.
  intros I. split; [reflexivity|]. split; [reflexivity|]. split.
  - eexists. split; [|reflexivity].
    intros pl. cbn beta. destruct (Z.eqb_spec (PushLog.id pl) (PendingLog.id log)) as [E|E].
    + right. split; [rewrite E; now apply in_map|now exists m].
    + now left.
  - exists (fun u => u). split; [intros u; now left|].
    cbn. now rewrite map_id.
Qed.

Lemma dispatches_deactivate (api : BotApi) (botToken : string)
    (batch : list PendingLog.t) (log : PendingLog.t) (db : D1Database) :
  In log batch -> blockedFor api botToken log ->
  dispatches api botToken batch db (deactivate (PendingLog.chat_id log) db).
Proof.
  intros I B. split; [reflexivity|]. split; [reflexivity|]. split.
  - exists (fun pl => pl). split; [intros pl; now left|].
    cbn. now rewrite map_id.
  - eexists. split; [|reflexivity].
    intros u. cbn beta.
    destruct (Z.eqb_spec (User.chat_id u) (PendingLog.chat_id log)) as [E|E].
    + right. split; [reflexivity|]. exists log. auto.
    + now left.
Qed.

Lemma pushOne_dispatches (api : BotApi) (botToken : string)
    (batch : list PendingLog.t) (log : PendingLog.t)
    (s : PushCounts * D1Database) :
  In log batch ->
  dispatches api botToken batch (snd s) (snd (snd (pushOne api botToken log s))).
Proof.
  intros I. destruct s as [c db]. rewrite pushOne_eq. cbv zeta. cbn [snd].
  pose proof (dispatches_next api botToken batch) as N.
  pose proof (fun m d => dispatches_finish api botToken batch m log d I) as F.
  pose proof (dispatches_trans api botToken batch) as T.
  destruct (D1.due db) as [e|].
  - destruct (D1.due (D1.next db)) as [e'|]; cbn [snd]; eauto.
  - destruct (success _); cbn [snd]; [eauto|].
    destruct (userBlocked _) as [[|]|] eqn:B; eauto.
    rewrite deactivateUser_eq. cbn [snd].
    destruct (D1.due _).
    + eauto.
    + apply (T _ (finish
                    (error (sendTelegramMessage api botToken (PendingLog.chat_id log)
                              (postOfLog log) (matchedKeywordsOf log)))
                    (PendingLog.id log) (D1.next db))); [eauto|].
      apply (T _ (D1.next (finish
                    (error (sendTelegramMessage api botToken (PendingLog.chat_id log)
                              (postOfLog log) (matchedKeywordsOf log)))
                    (PendingLog.id log) (D1.next db)))); [apply N|].
      now apply dispatches_deactivate.
Qed.

Lemma push_loop_dispatches (api : BotApi) (botToken : string)
    (batch : list PendingLog.t) (s : PushCounts * D1Database) :
  dispatches api botToken batch (snd s)
    (snd (snd (forOf batch (pushOne api botToken) s))).
Proof.
  apply (forOf_rel (fun s s' => dispatches api botToken batch (snd s) (snd s'))).
  - intros s0. apply dispatches_refl.
  - intros s1 s2 s3. apply dispatches_trans.
  - intros log s0 I. now apply pushOne_dispatches.
Qed.

Lemma pushTask_dispatches (api : BotApi) (botToken : string) (db : D1Database) :
  dispatches api botToken (pendingRows db) db (snd (pushTask api botToken db)).
Proof.
  rewrite pushTask_eq.
  destruct (D1.due db); [apply dispatches_next|].
  destruct (length (pendingRows db) =? 0)%nat; [apply dispatches_next|].
  pose proof (push_loop_dispatches api botToken (pendingRows db)
                (mkPushCounts 0 0, D1.next db)) as H.
  destruct (forOf _ _ _) as [[u|e] [c db']]; cbn [snd] in *.
  all: exact (dispatches_trans _ _ _ _ _ _ (dispatches_next _ _ _ _) H).
Qed.

(** X16. A run of [pushTask] changes the store only through its batch,
    the rows its query returned.  [posts] and [keywords_sub] stay as they
    are.  Every row of [push_logs] stays as it is or is finished
    ([push_status = 1]), and only rows of the batch are finished.  Every
    row of [users] stays as it is or has [is_active] set to 0, and only
    when a send of the batch to its chat is reported blocked: no user is
    added, removed or switched on, whichever statements fail. *)
Theorem pushTask_touches_batch (api : BotApi) (botToken : string)
    (db : D1Database) :
  let batch := pendingRows db in
  let db' := snd (pushTask api botToken db) in
  D1.posts db' = D1.posts db
  /\ D1.keywords_sub db' = D1.keywords_sub db
  /\ (exists f, finishes batch f
        /\ D1.push_logs db' = map f (D1.push_logs db))
  /\ (exists h, switchesOff api botToken batch h
        /\ D1.users db' = map h (D1.users db)).
Proof. exact (pushTask_dispatches api botToken db). Qed.

(** X17. When no send of the batch is reported blocked, and so when
    every send succeeds, [pushTask] leaves the table of users as it is. *)
Theorem pushTask_keeps_users (api : BotApi) (botToken : string)
    (db : D1Database) :
  (forall log, In log (pendingRows db) -> ~ blockedFor api botToken log) ->
  D1.users (snd (pushTask api botToken db)) = D1.users db.
Proof.
  intros NB.
  destruct (pushTask_dispatches api botToken db) as (_ & _ & _ & (h & H & U)).
  rewrite U. transitivity (map (fun u : User.t => u) (D1.users db));
    [|apply map_id].
  apply map_ext. intros u. destruct (H u) as [E|(_ & log & I & _ & B)];
    [exact E|]. now elim (NB log I).
Qed.

(** X17 at the store with one pending obligation and a channel whose
    failure is not a blocked one. *)
Lemma pushTask_keeps_users_witness :
  D1.users
    (snd (pushTask (fun _ _ _ => Some (JsError.mk (Some "timeout") None "Error: timeout"))
            "token" (pendingStore [])))
  = [subscriber].
Proof.
  apply (pushTask_keeps_users
           (fun _ _ _ => Some (JsError.mk (Some "timeout") None "Error: timeout")) "token"
           (pendingStore [])).
  intros log I. assert (E : log = pendingLog).
  { assert (P : pendingRows (pendingStore []) = [pendingLog])
      by (vm_compute; reflexivity).
    rewrite P in I. destruct I as [<-|[]]. reflexivity. }
  subst log. vm_compute. discriminate.
Defined.

(** ** The dispatcher's statistics *)

Lemma pushOne_counts (api : BotApi) (botToken : string) (log : PendingLog.t)
    (c c' : PushCounts) (db db' : D1Database) (u : unit) :
  pushOne api botToken log (c, db) = (Normal u, (c', db')) ->
  successful c' + failed c' = S (successful c + failed c).
Proof.
  rewrite pushOne_eq. cbv zeta.
  destruct (D1.due db).
  - destruct (D1.due (D1.next db)); [discriminate|].
    intros [= _ <- _]. cbn. lia.
  - destruct (success _); intros [= _ <- _]; cbn; lia.
Qed.

Lemma push_loop_counts (api : BotApi) (botToken : string)
    (logs : list PendingLog.t) (c c' : PushCounts) (db db' : D1Database)
    (u : unit) :
  forOf logs (pushOne api botToken) (c, db) = (Normal u, (c', db')) ->
  successful c' + failed c' = successful c + failed c + length logs.
Proof.
  revert c db. induction logs as [|log logs IH]; intros c db.
  - cbn [forOf]. unfold ret. intros [= _ <- _]. cbn. lia.
  - cbn [forOf]. unfold bind.
    destruct (pushOne api botToken log (c, db)) as [[v|e] [c1 db1]] eqn:E;
      [|discriminate].
    intros H. apply IH in H. apply pushOne_counts in E. cbn [length]. lia.
Qed.

(** X18. [pushTask] never throws.  When it reports success its
    statistics are [pushAttempts], the number of rows its query returned,
    and two counts that add up to it: every obligation of the batch is
    counted once, as sent or as failed.  When it reports failure it
    returns no statistics, although part of the batch may have been
    processed. *)
Theorem pushTask_statistics (api : BotApi) (botToken : string)
    (db : D1Database) :
  exists res db',
    pushTask api botToken db = (Normal res, db')
    /\ ((Result.success res = true
         /\ exists s f,
              Result.stats res = PushStats (length (pendingRows db)) s f
              /\ s + f = length (pendingRows db))
        \/ (Result.success res = false /\ Result.stats res = NoStats)).
Proof.
  rewrite pushTask_eq.
  destruct (D1.due db).
  { eexists _, _. split; [reflexivity|]. right. now split. }
  destruct (Nat.eqb_spec (length (pendingRows db)) 0) as [E|E].
  { eexists _, _. split; [reflexivity|]. left. split; [reflexivity|].
    exists 0, 0. rewrite E. now split. }
  destruct (forOf _ _ _) as [[u|e] [c db']] eqn:L.
  - eexists _, _. split; [reflexivity|]. left. split; [reflexivity|].
    exists (successful c), (failed c). split; [reflexivity|].
    apply push_loop_counts in L. cbn [successful failed] in L. lia.
  - eexists _, _. split; [reflexivity|]. right. now split.
Qed.

Lemma push_loop_no_fault (api : BotApi) (botToken : string)
    (logs : list PendingLog.t) (c : PushCounts) (db : D1Database) :
  D1.faults db = [] ->
  exists c' db',
    forOf logs (pushOne api botToken) (c, db) = (Normal tt, (c', db'))
    /\ D1.faults db' = []
    /\ successful c' = successful c + length (delivered api botToken logs)
    /\ failed c' + length (delivered api botToken logs)
       = failed c + length logs.
Proof.
  revert c db. induction logs as [|log logs IH]; intros c db NF.
  - exists c, db. split; [reflexivity|]. split; [exact NF|].
    unfold delivered. cbn [filter length]. lia.
  - cbn [forOf]. unfold bind. rewrite pushOne_eq. cbv zeta.
    rewrite (due_no_faults db NF), (next_no_faults db NF).
    unfold delivered. cbn [filter].
    destruct (success _) eqn:Sx.
    + destruct (IH (incSuccessful c) (finish None (PendingLog.id log) db) NF)
        as (c' & db' & E & NF' & Hs & Hf).
      exists c', db'. split; [exact E|]. split; [exact NF'|].
      unfold delivered in *. cbn in *. lia.
    + match goal with
      | |- context [forOf logs _ (incFailed c, ?d)] =>
          assert (NF1 : D1.faults d = [])
      end.
      { destruct (userBlocked _) as [[|]|]; try exact NF.
        rewrite deactivateUser_eq. cbn [snd].
        rewrite (due_no_faults (finish _ _ db) NF).
        rewrite (next_no_faults (finish _ _ db) NF). exact NF. }
      match goal with
      | |- context [forOf logs _ (incFailed c, ?d)] =>
          destruct (IH (incFailed c) d NF1) as (c' & db' & E & NF' & Hs & Hf)
      end.
      exists c', db'. split; [exact E|]. split; [exact NF'|].
      unfold delivered in *. cbn in *. lia.
Qed.

Lemma pushTask_no_fault (api : BotApi) (botToken : string)
    (db : D1Database) :
  D1.faults db = [] ->
  exists res db',
    pushTask api botToken db = (Normal res, db')
    /\ Result.success res = true
    /\ Result.stats res
       = PushStats (length (pendingRows db))
           (length (delivered api botToken (pendingRows db)))
           (length (pendingRows db)
            - length (delivered api botToken (pendingRows db)))
    /\ D1.faults db' = [].
Proof.
  intros NF. rewrite pushTask_eq, (due_no_faults db NF), (next_no_faults db NF).
  destruct (Nat.eqb_spec (length (pendingRows db)) 0) as [E|E].
  { eexists _, _. split; [reflexivity|]. split; [reflexivity|].
    split; [|exact NF]. cbn [Result.stats].
    destruct (pendingRows db); [reflexivity|discriminate E]. }
  destruct (push_loop_no_fault api botToken (pendingRows db) (mkPushCounts 0 0)
              db NF) as (c & db' & L & NF' & Hs & Hf).
  rewrite L. eexists _, _. split; [reflexivity|]. split; [reflexivity|].
  split; [|exact NF']. cbn [Result.stats]. cbn [successful failed] in Hs, Hf.
  f_equal; lia.
Qed.

(** X19. When no statement of the store fails, [pushTask] reports
    success, and its counts are those of the channel: [successfulPushes]
    is the number of obligations of the batch whose send succeeded,
    [failedPushes] the number of the others. *)
Theorem pushTask_counts_sends (api : BotApi) (botToken : string)
    (db : D1Database) :
  D1.faults db = [] ->
  exists res db',
    pushTask api botToken db = (Normal res, db')
    /\ Result.success res = true
    /\ Result.stats res
       = PushStats (length (pendingRows db))
           (length (delivered api botToken (pendingRows db)))
           (length (pendingRows db)
            - length (delivered api botToken (pendingRows db)))
    /\ D1.faults db' = [].
Proof. exact (pushTask_no_fault api botToken db). Qed.

(** X19 at the store with one pending obligation: one send, delivered. *)
Lemma pushTask_counts_sends_witness :
  exists res db',
    pushTask delivers "token" (pendingStore []) = (Normal res, db')
    /\ Result.stats res = PushStats 1 1 0.
Proof.
  destruct (pushTask_counts_sends delivers "token" (pendingStore []) eq_refl)
    as (res & db' & E & _ & S & _).
  exists res, db'. split; [exact E|]. rewrite S. vm_compute. reflexivity.
Defined.

(** ** What the dispatcher leaves pending *)

Lemma pushTask_finishes_batch (api : BotApi) (botToken : string)
    (db : D1Database) (res : Result.t) (db' : D1Database) :
  pushTask api botToken db = (Normal res, db') ->
  Result.success res = true ->
  exists f,
    settles f
    /\ D1.push_logs db' = map f (D1.push_logs db)
    /\ forall log pl, In log (pendingRows db) ->
                      PushLog.id pl = PendingLog.id log ->
                      exists m, f pl = finished m pl.
Proof.
  rewrite pushTask_eq.
  destruct (D1.due db); [intros [= <- _]; discriminate|].
  destruct (Nat.eqb_spec (length (pendingRows db)) 0) as [E|E].
  { intros [= _ <-] _. exists (fun pl => pl).
    split; [apply settles_id|]. split; [cbn; now rewrite map_id|].
    destruct (pendingRows db); [intros ? ? []|discriminate E]. }
  destruct (push_loop_settles api botToken (pendingRows db) (mkPushCounts 0 0)
              (D1.next db)) as (r & c & d & f & L & Sf & M & Fin).
  rewrite L. destruct r as [[]|e]; [|intros [= <- _]; discriminate].
  intros [= _ <-] _. exists f. split; [exact Sf|]. split; [exact M|].
  now apply Fin.
Qed.

(** X20. After a run of [pushTask] that reports success, no obligation
    of its batch is pending: none of the rows its query returned is
    returned by the same query on the store it leaves. *)
Theorem pushTask_drains_batch (api : BotApi) (botToken : string)
    (db : D1Database) (res : Result.t) (db' : D1Database) :
  pushTask api botToken db = (Normal res, db') ->
  Result.success res = true ->
  forall log', In log' (pendingRows db') ->
               ~ In (PendingLog.id log') (map PendingLog.id (pendingRows db)).
Proof.
  intros E S log' I' I.
  destruct (pushTask_finishes_batch api botToken db res db' E S)
    as (f & Sf & M & Fin).
  apply pendingRows_in, joinPending_iff in I'.
  destruct I' as (pl' & p & ks & u & k & Ipl & _ & _ & _ & S0 & _ & _ & _ & _ & ->).
  cbn [joinedRow PendingLog.id] in I.
  rewrite M in Ipl. apply in_map_iff in Ipl. destruct Ipl as (pl & <- & Ipl).
  apply in_map_iff in I. destruct I as (log & Eid & Il).
  destruct (Sf pl) as [Ef|[m Ef]]; rewrite Ef in *; [|discriminate S0].
  destruct (Fin log pl Il (eq_sym Eid)) as [m Em].
  rewrite Em in Ef. rewrite <- Ef in S0. discriminate S0.
Qed.

(** X20 at the store with one pending obligation. *)
Lemma pushTask_drains_batch_witness :
  exists res db',
    pushTask delivers "token" (pendingStore []) = (Normal res, db')
    /\ forall log', In log' (pendingRows db') -> PendingLog.id log' <> 1%Z.
Proof.
  destruct (pushTask_no_fault delivers "token" (pendingStore []) eq_refl)
    as (res & db' & E & S & _).
  exists res, db'. split; [exact E|].
  intros log' I' Eid.
  apply (pushTask_drains_batch delivers "token" (pendingStore []) res db' E S
           log' I').
  rewrite Eid. vm_compute. now left.
Defined.

Lemma pushTask_drains (api : BotApi) (botToken : string)
    (db : D1Database) :
  D1.faults db = [] ->
  length (joinPending db) <= 100 ->
  let db' := snd (pushTask api botToken db) in
  joinPending db' = []
  /\ forall api' botToken',
       pushTask api' botToken' db'
       = (Normal {| Result.success := true;
                    Result.message := "没有待推送的记录";
                    Result.stats := PushStats 0 0 0 |}, db').
Proof.
  intros NF Le db'.
  destruct (pushTask_no_fault api botToken db NF) as (res & d & E & S & _ & NF').
  assert (Ed : db' = d) by (subst db'; now rewrite E). clearbody db'. subst d.
  destruct (pushTask_finishes_batch api botToken db res db' E S)
    as (f & Sf & M & Fin).
  pose proof (pushTask_dispatches api botToken db) as D.
  rewrite E in D. cbn [snd] in D.
  destruct D as (P & K & _ & (h & H & U)).
  assert (J : joinPending db' = []).
  { destruct (joinPending db') as [|log' rest] eqn:J; [reflexivity|]. exfalso.
    assert (I' : In log' (joinPending db')) by (rewrite J; now left).
    apply joinPending_iff in I'.
    destruct I' as (pl' & p & ks & u' & k & Ipl & Ip & Iks & Iu & S0 & Ea & Eb
                    & Es & Eu & _).
    rewrite M in Ipl. apply in_map_iff in Ipl. destruct Ipl as (pl & Epl & Ipl).
    rewrite U in Iu. apply in_map_iff in Iu. destruct Iu as (u & Eu' & Iu).
    assert (Ef : f pl = pl).
    { destruct (Sf pl) as [Ef|[m Ef]]; [exact Ef|].
      rewrite <- Epl, Ef in S0. discriminate S0. }
    assert (Eid : User.id u' = User.id u).
    { destruct (H u) as [Eh|(Eh & _)]; rewrite Eh in Eu'; now subst u'. }
    rewrite Ef in Epl. subst pl'.
    assert (I : In (joinedRow pl p ks u k) (joinPending db)).
    { apply joinPending_iff. exists pl, p, ks, u, k.
      rewrite <- P, <- K. repeat split; auto. congruence. }
    apply (pendingRows_all db Le) in I.
    destruct (Fin _ pl I eq_refl) as [m Em].
    rewrite Em in Ef. rewrite <- Ef in S0. discriminate S0. }
  split; [exact J|].
  intros api' botToken'. rewrite pushTask_eq.
  rewrite (due_no_faults db' NF'), (next_no_faults db' NF').
  unfold pendingRows. rewrite J. reflexivity.
Qed.

(** X21. When no statement of the store fails and at most 100 pending
    obligations join a post, a filter and a user, one run of [pushTask]
    leaves none of them pending, whatever the channel answers: a second
    run finds nothing to send and changes nothing. *)
Theorem pushTask_leaves_nothing (api : BotApi) (botToken : string)
    (db : D1Database) :
  D1.faults db = [] ->
  length (joinPending db) <= 100 ->
  let db' := snd (pushTask api botToken db) in
  joinPending db' = []
  /\ forall api' botToken',
       pushTask api' botToken' db'
       = (Normal {| Result.success := true;
                    Result.message := "没有待推送的记录";
                    Result.stats := PushStats 0 0 0 |}, db').
Proof. exact (pushTask_drains api botToken db). Qed.

(** X21 at the store with one pending obligation and a channel whose
    recipient has blocked the bot. *)
Lemma pushTask_leaves_nothing_witness :
  pendingRows (snd (pushTask blocked "token" (pendingStore []))) = [].
Proof.
  destruct (pushTask_leaves_nothing blocked "token" (pendingStore []) eq_refl)
    as [J _].
  - vm_compute. lia.
  - unfold pendingRows. cbv zeta in J. rewrite J. reflexivity.
Defined.

Lemma flat_map_map {A B C : Type} (h : A -> B) (g : B -> list C) (l : list A) :
  flat_map g (map h l) = flat_map (fun x => g (h x)) l.
Proof.
  induction l as [|x l IH]; [reflexivity|]. cbn [map flat_map]. now rewrite IH.
Qed.

Lemma joinPending_users (h : User.t -> User.t) (db : D1Database) :
  (forall u, User.id (h u) = User.id u /\ User.chat_id (h u) = User.chat_id u) ->
  joinPending (D1.withUsers (map h (D1.users db)) db) = joinPending db.
Proof.
  intros H. unfold joinPending.
  cbn [D1.withUsers D1.push_logs D1.posts D1.keywords_sub D1.users].
  apply flat_map_ext. intros pl. destruct (_ =? 0)%Z; [|reflexivity].
  apply flat_map_ext. intros p.
  destruct (PushLog.post_id pl) as [a|]; [|reflexivity].
  destruct (DBPost.post_id p) as [b|]; [|reflexivity].
  destruct (a =? b)%Z; [|reflexivity].
  apply flat_map_ext. intros ks. destruct (_ =? _)%Z; [|reflexivity].
  rewrite flat_map_map. apply flat_map_ext. intros u.
  destruct (H u) as [-> Ec]. destruct (_ =? _)%Z; [|reflexivity].
  unfold joinedRow. now rewrite Ec.
Qed.

(** X22. Deactivating a chat cancels none of its obligations: the
    dispatcher's query does not read [is_active], so it returns the same
    rows after [deactivateUser] as before, whether the update fails or
    not, and the rows of the deactivated chat are still sent. *)
Theorem deactivateUser_keeps_pending (chatId : Z) (db : D1Database) :
  pendingRows (snd (deactivateUser chatId db)) = pendingRows db.
Proof.
  rewrite deactivateUser_eq. cbn [snd].
  assert (N : pendingRows (D1.next db) = pendingRows db) by reflexivity.
  destruct (D1.due db); [exact N|].
  rewrite <- N. unfold pendingRows. f_equal. f_equal.
  apply (joinPending_users
           (fun u => if (User.chat_id u =? chatId)%Z
                     then User.mk (User.id u) (User.chat_id u) 0 else u)).
  intros u. destruct (_ =? _)%Z; now split.
Qed.

(** ** The two operations and the scheduled handler *)

Lemma save_loop_bound (posts : list RSSPost.t) (n : nat) (db : D1Database) :
  fst (snd (forOf posts savePost (n, db))) <= n + length posts.
Proof.
  revert n db. induction posts as [|post posts IH]; intros n db.
  - cbn. lia.
  - cbn [forOf]. unfold bind. rewrite savePost_eq. cbn [length].
    destruct (D1.due db); [cbn; lia|].
    destruct (findPost _ db).
    + specialize (IH n (D1.next db)). lia.
    + destruct (D1.due (D1.next db)); [cbn; lia|].
      specialize (IH (S n) (addPost post (D1.next (D1.next db)))). lia.
Qed.

Lemma unpushedPosts_bound (limit : nat) (db : D1Database) :
  length (unpushedPosts limit db) <= limit.
Proof. unfold unpushedPosts. rewrite length_firstn. lia. Qed.

Lemma rssMonitorTask_returns (feed : FetchOutcome) (db : D1Database) :
  exists res db',
    rssMonitorTask feed db = (Normal res, db')
    /\ Result.success res = true
    /\ ((fetchRSSData feed = [] /\ Result.stats res = RssNone 0 /\ db' = db)
        \/ (fetchRSSData feed <> []
            /\ exists saved unpushed matches created,
                 Result.stats res
                 = RssStats (length (fetchRSSData feed)) saved unpushed
                     matches created
                 /\ saved <= length (fetchRSSData feed)
                 /\ unpushed <= 50
                 /\ created <= matches
                 /\ length (D1.posts db') = length (D1.posts db) + saved
                 /\ length (D1.push_logs db')
                    = length (D1.push_logs db) + created)).
Proof.
  unfold rssMonitorTask, tryCatch. cbv zeta.
  destruct (fetchRSSData feed) as [|x l] eqn:F; cbn [length Nat.eqb].
  { eexists _, _. split; [reflexivity|]. split; [reflexivity|]. left. auto. }
  unfold bind. rewrite savePostsToDatabase_eq.
  pose proof (save_loop_bound (x :: l) 0 db) as B.
  destruct (save_loop (x :: l) 0 db)
    as (r & n' & db1 & new & E & P & N & _ & _ & L & _).
  rewrite E in *. cbn [fst snd] in *. rewrite getUnpushedPosts_eq.
  assert (Hu : length (match D1.due db1 with
                       | Some _ => []
                       | None => unpushedPosts 50 db1
                       end) <= 50).
  { destruct (D1.due db1); [cbn; lia|apply unpushedPosts_bound]. }
  destruct (match D1.due db1 with Some _ => [] | None => _ end) as [|p ps].
  - cbn [length Nat.ltb Nat.leb]. unfold ret.
    eexists _, _. split; [reflexivity|]. split; [reflexivity|]. right.
    split; [discriminate|]. exists n', 0, 0, 0. cbn [Result.stats totalLogs createdLogs length].
    split; [reflexivity|]. split; [exact B|]. split; [lia|]. split; [lia|].
    split.
    + change (D1.posts (D1.next db1)) with (D1.posts db1).
      rewrite P, length_app, N. reflexivity.
    + change (D1.push_logs (D1.next db1)) with (D1.push_logs db1).
      rewrite L. lia.
  - cbn [length Nat.ltb Nat.leb]. rewrite createPushLogs_eq.
    destruct (createPushLogs_fansOut (p :: ps) (D1.next db1))
      as (_ & _ & (news & Ln & C & T & _) & (g & _ & Pg) & _).
    cbn [fst snd createdLogs totalLogs] in *. unfold ret.
    eexists _, _. split; [reflexivity|]. split; [reflexivity|]. right.
    split; [discriminate|]. eexists n', _, _, _. cbn [Result.stats].
    split; [reflexivity|]. split; [exact B|]. split; [exact Hu|].
    split; [lia|]. split.
    + rewrite Pg, length_map.
      change (D1.posts (D1.next db1)) with (D1.posts db1).
      rewrite P, length_app, N. reflexivity.
    + rewrite Ln, length_app.
      change (D1.push_logs (D1.next db1)) with (D1.push_logs db1).
      rewrite L, C. lia.
Qed.

(** X23. [rssMonitorTask] never throws and always reports success,
    whichever statements of the store fail: the failures are caught
    below it.  When the feed gives no post (the fetch throws, the
    response is not OK, or the document has no item) it leaves the store
    untouched.  Otherwise its statistics are exact: [savedNewPosts] is
    the number of rows it added to [posts], and is at most
    [rssPostsCount]; [unpushedPosts] is at most 50; [createdPushLogs] is
    the number of rows it added to [push_logs], and is at most
    [keywordMatches]. *)
Theorem rssMonitorTask_reports (feed : FetchOutcome) (db : D1Database) :
  exists res db',
    rssMonitorTask feed db = (Normal res, db')
    /\ Result.success res = true
    /\ ((fetchRSSData feed = [] /\ Result.stats res = RssNone 0 /\ db' = db)
        \/ (fetchRSSData feed <> []
            /\ exists saved unpushed matches created,
                 Result.stats res
                 = RssStats (length (fetchRSSData feed)) saved unpushed
                     matches created
                 /\ saved <= length (fetchRSSData feed)
                 /\ unpushed <= 50
                 /\ created <= matches
                 /\ length (D1.posts db') = length (D1.posts db) + saved
                 /\ length (D1.push_logs db')
                    = length (D1.push_logs db) + created)).
Proof. exact (rssMonitorTask_returns feed db). Qed.

Lemma rssMonitorTask_no_fault (feed : FetchOutcome) (db : D1Database) :
  D1.faults db = [] -> D1.faults (snd (rssMonitorTask feed db)) = [].
Proof.
  intros NF. rewrite rssMonitorTask_state.
  destruct (length (fetchRSSData feed) =? 0)%nat; [exact NF|]. cbv zeta.
  rewrite savePostsToDatabase_eq. cbn [snd].
  destruct (save_loop_complete (fetchRSSData feed) 0 db NF)
    as (n' & db1 & E & NF1 & _).
  rewrite E. cbn [snd]. rewrite getUnpushedPosts_eq. cbn [fst].
  rewrite (next_no_faults db1 NF1).
  destruct (match D1.due db1 with Some _ => [] | None => _ end) as [|p ps];
    [exact NF1|].
  now apply createPushLogs_no_fault.
Qed.

Lemma pushTask_normal (api : BotApi) (botToken : string) (db : D1Database) :
  exists res, pushTask api botToken db = (Normal res, snd (pushTask api botToken db)).
Proof.
  rewrite pushTask_eq.
  destruct (D1.due db); [eexists; reflexivity|].
  destruct (length (pendingRows db) =? 0)%nat; [eexists; reflexivity|].
  destruct (forOf _ _ _) as [[u|e] [c db']]; eexists; reflexivity.
Qed.

Lemma scheduled_tick (feed : FetchOutcome) (api : BotApi)
    (botToken : string) (db : D1Database) :
  scheduled feed api botToken db
  = (Normal tt, snd (pushTask api botToken (snd (rssMonitorTask feed db))))
  /\ handleScheduled feed db = (Normal tt, snd (rssMonitorTask feed db)).
Proof.
  unfold scheduled, handleScheduled, tryCatch, bind, ret.
  destruct (rssMonitorTask_returns feed db) as (res & db1 & E & _).
  rewrite E. cbn [snd].
  destruct (pushTask_normal api botToken db1) as (res2 & E2).
  rewrite E2. now split.
Qed.

(** X24. The scheduled handler never throws and always runs both tasks:
    the store it leaves is the one [pushTask] leaves when started on the
    store [rssMonitorTask] leaves, whatever fails in either.
    [handleScheduled] runs the ingestion only. *)
Theorem scheduled_runs_both (feed : FetchOutcome) (api : BotApi)
    (botToken : string) (db : D1Database) :
  scheduled feed api botToken db
  = (Normal tt, snd (pushTask api botToken (snd (rssMonitorTask feed db))))
  /\ handleScheduled feed db = (Normal tt, snd (rssMonitorTask feed db)).
Proof. exact (scheduled_tick feed api botToken db). Qed.

(** X25. A tick of the scheduled handler during which no statement of
    the store fails, and whose ingestion leaves at most 100 pending
    obligations that join a post, a filter and a user, ends with no
    such obligation pending: all of them were sent or recorded as
    failed in the same tick. *)
Theorem scheduled_drains (feed : FetchOutcome) (api : BotApi)
    (botToken : string) (db : D1Database) :
  D1.faults db = [] ->
  length (joinPending (snd (rssMonitorTask feed db))) <= 100 ->
  joinPending (snd (scheduled feed api botToken db)) = [].
Proof.
  intros NF Le.
  destruct (scheduled_tick feed api botToken db) as [E _].
  rewrite E. cbn [snd].
  apply (pushTask_drains api botToken (snd (rssMonitorTask feed db))
           (rssMonitorTask_no_fault feed db NF) Le).
Qed.

(** X25 at the subscriber's store and the feed of one item: the tick
    saves the post, records the obligation and sends it. *)
Lemma scheduled_drains_witness :
  joinPending
    (snd (scheduled (Response true helloFeed) delivers "token" (freshStore [])))
  = []
  /\ map PushLog.push_status
       (D1.push_logs
          (snd (scheduled (Response true helloFeed) delivers "token"
                  (freshStore []))))
     = [1%Z].
Proof.
  split.
  - apply (scheduled_drains (Response true helloFeed) delivers "token"
             (freshStore []) eq_refl).
    vm_compute. lia.
  - vm_compute. reflexivity.
Defined.

(** ** Numbers printed and read back *)

Lemma allDigits_string_of_uint (d : Decimal.uint) :
  allDigits (NilEmpty.string_of_uint d) = true.
Proof. induction d; cbn [NilEmpty.string_of_uint allDigits]; auto. Qed.

Lemma readDigits_of_uint_acc (d : Decimal.uint) (acc : positive) :
  Js.readDigits 10 (NilEmpty.string_of_uint d) true (Z.pos acc)
  = Some (Z.pos (Pos.of_uint_acc d acc)).
Proof.
  revert acc. induction d; intros acc;
    cbn [NilEmpty.string_of_uint Js.readDigits Pos.of_uint_acc];
    [reflexivity|..];
    match goal with
    | |- context [Js.digitValue ?c] =>
        let v := eval vm_compute in (Js.digitValue c) in
        change (Js.digitValue c) with v
    end;
    cbn [Z.ltb Z.compare Pos.compare Pos.compare_cont];
    match goal with
    | |- Js.readDigits 10 _ true ?a = _ =>
        match goal with
        | |- _ = Some (Z.pos (Pos.of_uint_acc _ ?b)) =>
            replace a with (Z.pos b) by lia
        end
    end; apply IHd.
Qed.

Lemma readDigits_of_uint (d : Decimal.uint) :
  Js.readDigits 10 (NilEmpty.string_of_uint d) true 0 = Some (Z.of_uint d).
Proof.
  unfold Z.of_uint. induction d;
    cbn [NilEmpty.string_of_uint Js.readDigits Pos.of_uint];
    [reflexivity|..];
    match goal with
    | |- context [Js.digitValue ?c] =>
        let v := eval vm_compute in (Js.digitValue c) in
        change (Js.digitValue c) with v
    end;
    cbn [Z.ltb Z.compare Pos.compare Pos.compare_cont Z.mul Z.add Z.of_N];
    [exact IHd|..]; apply readDigits_of_uint_acc.
Qed.

Lemma readDigits_unseen (c : ascii) (s : string) :
  Js.isDigit c = true ->
  Js.readDigits 10 (String c s) false 0 = Js.readDigits 10 (String c s) true 0.
Proof.
  intros D. destruct (digit_facts c D) as (_ & _ & (v & V & R) & _).
  cbn [Js.readDigits]. rewrite V. destruct (Z.ltb_spec v 10); [reflexivity|lia].
Qed.

Lemma parseInt_of_uint (d : Decimal.uint) :
  d <> Decimal.Nil ->
  Js.parseInt (NilEmpty.string_of_uint d) = Js.toNumber (Z.of_uint d).
Proof.
  intros N.
  pose proof (allDigits_string_of_uint d) as A.
  assert (Ne : NilEmpty.string_of_uint d <> ""%string).
  { destruct d; try discriminate. now elim N. }
  destruct (parseInt_digits _ A Ne) as (n & R & _ & ->).
  f_equal. pose proof (readDigits_of_uint d) as R'.
  destruct (NilEmpty.string_of_uint d) as [|c s]; [now elim Ne|].
  cbn [allDigits] in A. apply andb_true_iff in A. destruct A as [D _].
  rewrite <- (readDigits_unseen c s D), R in R'. now injection R'.
Qed.

(** From 2^53 on the nearest double is 2^53 or more. *)
Lemma nearest_big (y : Z) : (2 ^ 53 <= y)%Z -> (2 ^ 53 <= Js.nearest y)%Z.
Proof.
  intros B. unfold Js.nearest. destruct (Z.ltb_spec y (2 ^ 53)); [lia|].
  cbv zeta.
  assert (P : (0 < y)%Z) by (assert (0 < 2 ^ 53)%Z by (apply Z.pow_pos_nonneg; lia); lia).
  assert (L : (53 <= Z.log2 y)%Z).
  { rewrite <- (Z.log2_pow2 53) by lia. now apply Z.log2_le_mono. }
  destruct (Z.log2_spec y P) as [Lo _].
  set (e := (Z.log2 y - 52)%Z) in *.
  assert (E : (0 <= e)%Z) by lia.
  assert (S : (2 ^ Z.log2 y = 2 ^ 52 * 2 ^ e)%Z).
  { rewrite <- Z.pow_add_r by lia. f_equal. lia. }
  assert (Q : (2 ^ 52 <= Z.shiftr y e)%Z).
  { rewrite Z.shiftr_div_pow2 by exact E.
    apply Z.div_le_lower_bound; [apply Z.pow_pos_nonneg; lia|]. lia. }
  rewrite Z.shiftl_mul_pow2 by exact E.
  assert (Pe : (0 < 2 ^ e)%Z) by (apply Z.pow_pos_nonneg; lia).
  assert (T : (2 ^ 53 <= 2 ^ Z.log2 y)%Z) by (apply Z.pow_le_mono_r; lia).
  destruct (_ || _); nia.
Qed.

Lemma nearest_exact (x y : Z) :
  (x < 2 ^ 53)%Z -> Js.nearest y = x -> y = x.
Proof.
  intros L E. destruct (Z.lt_ge_cases y (2 ^ 53)) as [S|B].
  - unfold Js.nearest in E. destruct (Z.ltb_spec y (2 ^ 53)); [exact E|lia].
  - pose proof (nearest_big y B). lia.
Qed.

(** Below 2^53 the shortest decimal that reads back as a number is the
    number itself. *)
Lemma shortest_exact (x : Z) (m : nat) :
  (x < 2 ^ 53)%Z -> Js.shortest x m = x.
Proof.
  intros L. induction m as [|m IH]; cbn [Js.shortest]; cbv beta zeta.
  - set (lo := (x / 10 ^ Z.of_nat 0 * 10 ^ Z.of_nat 0)%Z).
    set (hi := (lo + 10 ^ Z.of_nat 0)%Z).
    destruct (Z.eqb_spec (Js.nearest lo) x) as [E1|E1];
      destruct (Z.eqb_spec (Js.nearest hi) x) as [E2|E2]; cbn [andb];
      try apply (nearest_exact x lo L) in E1;
      try apply (nearest_exact x hi L) in E2;
      try rewrite E1; try rewrite E2;
      repeat match goal with |- context [if ?b then _ else _] => destruct b end;
      reflexivity.
  - set (lo := (x / 10 ^ Z.of_nat (S m) * 10 ^ Z.of_nat (S m))%Z).
    set (hi := (lo + 10 ^ Z.of_nat (S m))%Z).
    destruct (Z.eqb_spec (Js.nearest lo) x) as [E1|E1];
      destruct (Z.eqb_spec (Js.nearest hi) x) as [E2|E2]; cbn [andb];
      try apply (nearest_exact x lo L) in E1;
      try apply (nearest_exact x hi L) in E2;
      try rewrite E1; try rewrite E2;
      repeat match goal with |- context [if ?b then _ else _] => destruct b end;
      try reflexivity; exact IH.
Qed.

Lemma ofZ_exact (n : Z) :
  (0 <= n < 2 ^ 53)%Z ->
  exists d, d <> Decimal.Nil /\ Z.of_uint d = n
            /\ Js.ofZ n = NilEmpty.string_of_uint d.
Proof.
  intros B. unfold Js.ofZ. rewrite (toNumber_exact n B).
  destruct n as [|p|p]; [| |lia].
  - exists (Decimal.D0 Decimal.Nil). split; [discriminate|]. now split.
  - exists (Pos.to_uint p). split; [apply DecimalPos.Unsigned.to_uint_nonnil|].
    split; [unfold Z.of_uint; now rewrite DecimalPos.Unsigned.of_to|].
    cbn [Js.toString]. unfold Js.positiveToString. cbv zeta.
    rewrite (shortest_exact (Z.pos p) _ (proj2 B)).
    destruct (Z.ltb_spec (Z.pos p) (10 ^ 21)) as [_|G]; [reflexivity|].
    exfalso. assert (2 ^ 53 < 10 ^ 21)%Z by reflexivity. lia.
Qed.

Lemma parseInt_ofZ (n : Z) :
  (0 <= n < 2 ^ 53)%Z -> Js.parseInt (Js.ofZ n) = Js.Finite n.
Proof.
  intros B. destruct (ofZ_exact n B) as (d & N & V & ->).
  rewrite (parseInt_of_uint d N), V. now apply toNumber_exact.
Qed.

Lemma postId_postUrl (n : Z) :
  (0 <= n < 2 ^ 53)%Z -> Regex.postId (postUrl n) = Some (Js.ofZ n).
Proof.
  intros B. destruct (ofZ_exact n B) as (d & N & _ & E).
  assert (Ne : Js.ofZ n <> ""%string).
  { rewrite E. destruct d; try discriminate. now elim N. }
  assert (A : allDigits (Js.ofZ n) = true)
    by (rewrite E; apply allDigits_string_of_uint).
  pose proof (postIdAt_here (Js.ofZ n) "1" Ne A) as Hat.
  unfold postUrl.
  change ("https://www.nodeseek.com/post-" ++ Js.ofZ n ++ "-1")%string
    with ("https://www.nodeseek.com/"
          ++ ("post-" ++ Js.ofZ n ++ "-" ++ "1"))%string.
  generalize dependent ("post-" ++ Js.ofZ n ++ "-" ++ "1")%string.
  intros t Hat. cbn [append].
  repeat (rewrite postId_unfold;
          match goal with
          | |- context [Regex.postIdAt (String ?c ?r)] =>
              change (Regex.postIdAt (String c r)) with (@None string)
          end; cbv iota beta; cbn [append]).
  rewrite postId_unfold, Hat. reflexivity.
Qed.

(** X26. The link of a notification leads back to the stored post: for
    a post whose [post_id] is the number [n], not negative and below 2^53,
    the one message [sendTelegramMessage] hands to the channel holds the
    URL that ends in [post-n-1] with every digit of [n], the expression
    the parser uses on links reads those digits off that URL, and
    [parseInt] turns them into [n] again. *)
Theorem notification_link_round_trip (botToken : string) (chatId : Z)
    (post : DBPost.t) (matchedKeywords : list string) (n : Z) :
  DBPost.post_id post = Some n ->
  (0 <= n < 2 ^ 53)%Z ->
  (exists message,
      occursIn (postUrl n) message
      /\ forall api : BotApi,
           success (sendTelegramMessage api botToken chatId post matchedKeywords)
           = match api botToken chatId message with
             | None => true
             | Some _ => false
             end)
  /\ Regex.postId (postUrl n) = Some (Js.ofZ n)
  /\ allDigits (Js.ofZ n) = true
  /\ Js.parseInt (Js.ofZ n) = Js.Finite n.
Proof.
  intros E B.
  split; [|split; [now apply postId_postUrl|split; [|now apply parseInt_ofZ]]].
  - exists ("🎯 " ++ String.concat ", " matchedKeywords ++ newline ++ newline
            ++ "[" ++ DBPost.title post ++ "](" ++ postUrl n ++ ")")%string.
    split.
    + exists ("🎯 " ++ String.concat ", " matchedKeywords ++ newline ++ newline
              ++ "[" ++ DBPost.title post ++ "](")%string, ")"%string.
      str_assoc app_assoc_s. reflexivity.
    + intros api. unfold sendTelegramMessage. rewrite E. cbv zeta.
      fold (postUrl n). now destruct (api botToken chatId _).
  - destruct (ofZ_exact n B) as (d & _ & _ & ->).
    apply allDigits_string_of_uint.
Qed.

(** X26 at the post 42; and what the bound keeps out: from 10^21 on the
    number is printed with an exponent, and no identifier is read back. *)
Lemma notification_link_round_trip_witness :
  (Regex.postId (postUrl 42) = Some "42"%string
   /\ Js.parseInt "42" = Js.Finite 42)
  /\ postUrl (10 ^ 21) = "https://www.nodeseek.com/post-1e+21-1"%string
  /\ Regex.postId (postUrl (10 ^ 21)) = None.
Proof.
  split; [|split; vm_compute; reflexivity].
  destruct (notification_link_round_trip "token" 1001
              (DBPost.mk 1 (Some 42%Z) "Hello" "" "" "未分类" "bob" 1 0)
              ["hello"%string] 42 eq_refl) as (_ & U & _ & I).
  - split; [lia|reflexivity].
  - split; [exact U|exact I].
Defined.

(** ** Fan-out a second time *)

Lemma covered_mono (db db' : D1Database) (u : User.t) (p : DBPost.t) :
  D1.keywords_sub db' = D1.keywords_sub db ->
  (exists new, D1.push_logs db' = D1.push_logs db ++ new) ->
  covered db u p -> covered db' u p.
Proof.
  intros K (new & L) C pre ks rest E F M.
  unfold userKeywords in E. rewrite K in E.
  destruct (C pre ks rest E F M) as (pl & I & H).
  exists pl. split; [|exact H]. rewrite L. apply in_or_app. now left.
Qed.

Lemma fanOutUser_covers (p : DBPost.t) (u : User.t) (c : LogCounts)
    (db : D1Database) :
  D1.faults db = [] -> DBPost.post_id p <> None ->
  exists c' db',
    fanOutUser p u (c, db) = (Normal tt, (c', db'))
    /\ D1.faults db' = []
    /\ D1.keywords_sub db' = D1.keywords_sub db
    /\ D1.users db' = D1.users db
    /\ (exists new, D1.push_logs db' = D1.push_logs db ++ new)
    /\ covered db' u p.
Proof.
  intros NF NN. rewrite fanOutUser_eq.
  rewrite (due_no_faults db NF), (next_no_faults db NF).
  destruct (first_match p (userKeywords (User.id u) db))
    as [NoM|(pre & ks & rest & E & Fpre & M)].
  - rewrite (scanKeywords_none p u _ _ NoM). exists c, db.
    split; [reflexivity|]. split; [exact NF|]. split; [reflexivity|].
    split; [reflexivity|]. split; [exists []; now rewrite app_nil_r|].
    intros pre ks rest E _ M. rewrite E in NoM.
    apply Forall_app in NoM. destruct NoM as [_ NoM].
    inversion NoM as [|? ? Hk _]; subst. congruence.
  - rewrite E, (scanKeywords_first p u pre ks rest _ Fpre M).
    unfold recordMatch. cbn [fst snd].
    rewrite (due_no_faults db NF), (next_no_faults db NF).
    destruct (findPushLog _ _ _ db) as [i|] eqn:Fd.
    + exists (incTotal c), db.
      split; [reflexivity|]. split; [exact NF|]. split; [reflexivity|].
      split; [reflexivity|]. split; [exists []; now rewrite app_nil_r|].
      intros pre' ks' rest' E' F' M'. rewrite E in E'.
      destruct (first_match_unique p _ _ _ _ _ _ E' Fpre F' M M') as (_ & <- & _).
      unfold findPushLog in Fd.
      destruct (find _ (D1.push_logs db)) as [pl|] eqn:Ff; [|discriminate Fd].
      apply find_some in Ff. now exists pl.
    + rewrite (due_no_faults db NF), (next_no_faults db NF).
      eexists _, _. split; [reflexivity|]. split; [exact NF|].
      split; [reflexivity|]. split; [reflexivity|].
      split; [eexists; reflexivity|].
      intros pre' ks' rest' E' F' M'.
      change (userKeywords (User.id u) (addPushLog _ _ _ _ db))
        with (userKeywords (User.id u) db) in E'.
      rewrite E in E'.
      destruct (first_match_unique p _ _ _ _ _ _ E' Fpre F' M M') as (_ & <- & _).
      exists (rowOfPushLog (User.id u) (User.chat_id u) (DBPost.post_id p)
                (KeywordSub.id ks) db).
      split.
      * cbn. apply in_or_app. right. now left.
      * unfold hasKey, rowOfPushLog.
        cbn [PushLog.user_id PushLog.post_id PushLog.sub_id].
        rewrite !Z.eqb_refl.
        destruct (DBPost.post_id p) as [k|]; [|now elim NN].
        cbn [D1.eqNull]. now rewrite Z.eqb_refl.
Qed.

Lemma fanOutUser_noop (p : DBPost.t) (u : User.t) (c : LogCounts)
    (db : D1Database) :
  D1.faults db = [] -> covered db u p ->
  exists c',
    fanOutUser p u (c, db) = (Normal tt, (c', db))
    /\ createdLogs c' = createdLogs c.
Proof.
  intros NF C. rewrite fanOutUser_eq.
  rewrite (due_no_faults db NF), (next_no_faults db NF).
  destruct (first_match p (userKeywords (User.id u) db))
    as [NoM|(pre & ks & rest & E & Fpre & M)].
  - rewrite (scanKeywords_none p u _ _ NoM). now exists c.
  - rewrite E, (scanKeywords_first p u pre ks rest _ Fpre M).
    unfold recordMatch. cbn [fst snd].
    rewrite (due_no_faults db NF), (next_no_faults db NF).
    destruct (C pre ks rest E Fpre M) as (pl & I & H).
    destruct (findPushLog _ _ _ db) as [i|] eqn:Fd.
    + now exists (incTotal c).
    + rewrite (findPushLog_none _ _ _ _ Fd pl I) in H. discriminate H.
Qed.

Lemma fanOutUsers_covers (p : DBPost.t) (users : list User.t) (c : LogCounts)
    (db : D1Database) :
  D1.faults db = [] -> DBPost.post_id p <> None ->
  exists c' db',
    forOf users (fanOutUser p) (c, db) = (Normal tt, (c', db'))
    /\ D1.faults db' = []
    /\ D1.keywords_sub db' = D1.keywords_sub db
    /\ D1.users db' = D1.users db
    /\ (exists new, D1.push_logs db' = D1.push_logs db ++ new)
    /\ forall u, In u users -> covered db' u p.
Proof.
  intros NF NN. revert c db NF.
  induction users as [|u users IH]; intros c db NF.
  - exists c, db. split; [reflexivity|]. split; [exact NF|].
    split; [reflexivity|]. split; [reflexivity|].
    split; [exists []; now rewrite app_nil_r|]. intros u [].
  - cbn [forOf]. unfold bind.
    destruct (fanOutUser_covers p u c db NF NN)
      as (c1 & db1 & E1 & NF1 & K1 & U1 & (n1 & L1) & C1).
    rewrite E1.
    destruct (IH c1 db1 NF1) as (c2 & db2 & E2 & NF2 & K2 & U2 & (n2 & L2) & C2).
    exists c2, db2. split; [exact E2|]. split; [exact NF2|].
    split; [congruence|]. split; [congruence|].
    split; [exists (n1 ++ n2); now rewrite L2, L1, app_assoc|].
    intros v [<-|I]; [|now apply C2].
    apply (covered_mono db1 db2 u p K2); [now exists n2|exact C1].
Qed.

Lemma fanOutUsers_noop (p : DBPost.t) (users : list User.t) (c : LogCounts)
    (db : D1Database) :
  D1.faults db = [] -> (forall u, In u users -> covered db u p) ->
  exists c',
    forOf users (fanOutUser p) (c, db) = (Normal tt, (c', db))
    /\ createdLogs c' = createdLogs c.
Proof.
  intros NF. revert c. induction users as [|u users IH]; intros c C.
  - now exists c.
  - cbn [forOf]. unfold bind.
    destruct (fanOutUser_noop p u c db NF (C u (or_introl eq_refl)))
      as (c1 & E1 & H1).
    rewrite E1. destruct (IH c1) as (c2 & E2 & H2).
    { intros v I. apply C. now right. }
    exists c2. split; [exact E2|congruence].
Qed.

Lemma covered_markPushed (postId : option Z) (db : D1Database) (u : User.t)
    (p : DBPost.t) :
  covered db u p -> covered (markPushed postId db) u p.
Proof.
  apply covered_mono; [reflexivity|]. exists []. cbn. now rewrite app_nil_r.
Qed.

Lemma fanOutPosts_covers (batch : list DBPost.t) (users : list User.t)
    (c : LogCounts) (db : D1Database) :
  D1.faults db = [] ->
  (forall p, In p batch -> DBPost.post_id p <> None) ->
  exists c' db',
    forOf batch (fanOutPost users) (c, db) = (Normal tt, (c', db'))
    /\ D1.faults db' = []
    /\ D1.keywords_sub db' = D1.keywords_sub db
    /\ D1.users db' = D1.users db
    /\ (exists new, D1.push_logs db' = D1.push_logs db ++ new)
    /\ forall p u, In p batch -> In u users -> covered db' u p.
Proof.
  intros NF NN. revert c db NF.
  induction batch as [|p batch IH]; intros c db NF.
  - exists c, db. split; [reflexivity|]. split; [exact NF|].
    split; [reflexivity|]. split; [reflexivity|].
    split; [exists []; now rewrite app_nil_r|]. intros p u [].
  - cbn [forOf]. unfold bind at 1. unfold fanOutPost at 1. unfold bind at 1.
    destruct (fanOutUsers_covers p users c db NF (NN p (or_introl eq_refl)))
      as (c1 & db1 & E1 & NF1 & K1 & U1 & (n1 & L1) & C1).
    rewrite E1. unfold onState. cbn [fst snd]. rewrite markPostAsPushed_eq.
    rewrite (due_no_faults db1 NF1), (next_no_faults db1 NF1).
    destruct (IH (fun q I => NN q (or_intror I)) c1
                (markPushed (DBPost.post_id p) db1) NF1)
      as (c2 & db2 & E2 & NF2 & K2 & U2 & (n2 & L2) & C2).
    exists c2, db2. split; [exact E2|]. split; [exact NF2|].
    split; [rewrite K2; exact K1|]. split; [rewrite U2; exact U1|].
    split.
    { exists (n1 ++ n2). rewrite L2. cbn [markPushed D1.withPosts D1.push_logs].
      now rewrite L1, app_assoc. }
    intros q u [<-|I] Iu; [|now apply C2].
    apply (covered_mono (markPushed (DBPost.post_id p) db1) db2 u p K2);
      [now exists n2|]. apply covered_markPushed. now apply C1.
Qed.

Lemma fanOutPosts_noop (batch : list DBPost.t) (users : list User.t)
    (c : LogCounts) (db : D1Database) :
  D1.faults db = [] ->
  (forall p u, In p batch -> In u users -> covered db u p) ->
  exists c' db',
    forOf batch (fanOutPost users) (c, db) = (Normal tt, (c', db'))
    /\ createdLogs c' = createdLogs c
    /\ db' = D1.withPosts (D1.posts db') db.
Proof.
  intros NF. revert c db NF.
  induction batch as [|p batch IH]; intros c db NF C.
  - exists c, db. split; [reflexivity|]. split; [reflexivity|]. now destruct db.
  - cbn [forOf]. unfold bind at 1. unfold fanOutPost at 1. unfold bind at 1.
    destruct (fanOutUsers_noop p users c db NF
                (fun u Iu => C p u (or_introl eq_refl) Iu)) as (c1 & E1 & H1).
    rewrite E1. unfold onState. cbn [fst snd]. rewrite markPostAsPushed_eq.
    rewrite (due_no_faults db NF), (next_no_faults db NF).
    destruct (IH c1 (markPushed (DBPost.post_id p) db) NF)
      as (c2 & db2 & E2 & H2 & S2).
    { intros q u Iq Iu. apply covered_markPushed. apply C; [now right|exact Iu]. }
    exists c2, db2. split; [exact E2|]. split; [congruence|].
    rewrite S2 at 1. now destruct db.
Qed.

Lemma markedBy_idem (batch : list DBPost.t) (r : DBPost.t) :
  markedBy batch (markedBy batch r) = markedBy batch r.
Proof.
  unfold markedBy at 2.
  destruct (existsb _ batch) eqn:E; [|unfold markedBy; now rewrite E].
  rewrite setPushed_markedBy. unfold markedBy. now rewrite E.
Qed.

(** X27. Fan-out is idempotent on posts with a numeric identifier: when
    no statement fails, a second [createPushLogs] on the same batch finds
    every obligation in the ledger, creates none ([createdLogs] is 0) and
    leaves the store exactly as the first left it. *)
Theorem createPushLogs_idempotent (batch : list DBPost.t) (db : D1Database) :
  D1.faults db = [] ->
  (forall p, In p batch -> DBPost.post_id p <> None) ->
  exists matches,
    createPushLogs batch (snd (createPushLogs batch db))
    = (Normal (mkLogCounts matches 0), snd (createPushLogs batch db)).
Proof.
  intros NF NN.
  assert (E1 : exists c1 db1,
             createPushLogs batch db = (Normal c1, db1)
             /\ D1.faults db1 = []
             /\ D1.users db1 = D1.users db
             /\ (forall p u, In p batch -> In u (activeUsers db) ->
                   covered db1 u p)
             /\ D1.posts db1 = map (markedBy batch) (D1.posts db)).
  { rewrite createPushLogs_eq. unfold fanOut, bind, onState. cbn [fst snd].
    rewrite getActiveUsers_eq, (due_no_faults db NF), (next_no_faults db NF).
    destruct (fanOutPosts_covers batch (activeUsers db) (mkLogCounts 0 0) db NF NN)
      as (c1 & db1 & E & NF1 & _ & U1 & _ & C1).
    destruct (fanOutPosts_no_fault (activeUsers db) batch (mkLogCounts 0 0) db NF)
      as (c1' & db1' & E' & _ & P1).
    rewrite E in E'. injection E' as <- <-.
    rewrite E. cbn [fst snd]. exists c1, db1. auto. }
  destruct E1 as (c1 & db1 & E1 & NF1 & U1 & C1 & P1).
  rewrite E1. cbn [snd].
  rewrite createPushLogs_eq. unfold fanOut, bind, onState. cbn [fst snd].
  rewrite getActiveUsers_eq, (due_no_faults db1 NF1), (next_no_faults db1 NF1).
  assert (A : activeUsers db1 = activeUsers db)
    by (unfold activeUsers; now rewrite U1).
  rewrite A.
  destruct (fanOutPosts_noop batch (activeUsers db) (mkLogCounts 0 0) db1 NF1 C1)
    as (c2 & db2 & E2 & H2 & S2).
  destruct (fanOutPosts_no_fault (activeUsers db) batch (mkLogCounts 0 0) db1 NF1)
    as (c2' & db2' & E2' & _ & P2).
  rewrite E2 in E2'. injection E2' as <- <-.
  rewrite E2. cbn [fst snd]. exists (totalLogs c2).
  f_equal.
  - destruct c2 as [t cr]. cbn in H2. now subst cr.
  - rewrite S2, P2, P1, map_map.
    rewrite (map_ext _ _ (markedBy_idem batch)), <- P1. now destruct db1.
Qed.

(** X27 at the two saved posts: the second fan-out meets one match per
    post and creates nothing. *)
Lemma createPushLogs_idempotent_witness :
  createPushLogs (D1.posts (savedStore []))
    (snd (createPushLogs (D1.posts (savedStore [])) (savedStore [])))
  = (Normal (mkLogCounts 2 0),
     snd (createPushLogs (D1.posts (savedStore [])) (savedStore []))).
Proof.
  destruct (createPushLogs_idempotent (D1.posts (savedStore []))
              (savedStore []) eq_refl) as (matches & E).
  - intros p [<-|[<-|[]]]; discriminate.
  - rewrite E. f_equal. f_equal.
    assert (H : fst (createPushLogs (D1.posts (savedStore []))
                       (snd (createPushLogs (D1.posts (savedStore []))
                               (savedStore []))))
                = Normal (mkLogCounts 2 0)) by (vm_compute; reflexivity).
    rewrite E in H. cbn [fst] in H. now injection H as ->.
Defined.
